(** * The generic firmware container of fwupd (libfwupdplugin/fu-firmware.c)

    A shallow embedding of [FuFirmware]: the private instance data as a
    record, the payload accessors and the byte patches over an explicit
    byte store, the parse pipeline over the class hooks, and the tree of
    child images over an object heap.

    Integers are [Z] with the wrap-around and the casts of the C code written
    out; [GBytes] and [GByteArray] are addresses into a byte store, so that
    sharing and copying are visible; a [GError] is a code with its message. *)

From Stdlib Require Import ZArith Lia Bool List.
From Stdlib Require Import Strings.String Strings.Ascii Init.Byte.
From Stdlib Require Import Strings.HexString Numbers.DecimalString.
From stdpp Require Import gmap strings list fin_maps.

Open Scope Z_scope.

(** ** Errors *)

Inductive FwupdError :=
| FWUPD_ERROR_INTERNAL
| FWUPD_ERROR_NOTHING_TO_DO
| FWUPD_ERROR_NOT_FOUND
| FWUPD_ERROR_NOT_SUPPORTED
| FWUPD_ERROR_INVALID_DATA
| FWUPD_ERROR_INVALID_FILE
| FWUPD_ERROR_READ
| FWUPD_ERROR_WRITE.

Record GError := mkGError { code : FwupdError; message : string }.

(** A fallible call: the value, or the [GError] it set. *)
Inductive result (A : Type) :=
| Ok (a : A)
| Err (e : GError).
Arguments Ok {A} a.
Arguments Err {A} e.

Definition is_ok {A} (r : result A) : bool :=
  match r with Ok _ => true | Err _ => false end.

(** [g_prefix_error (error, prefix)]: the message gets the prefix in front,
    the code stays. *)
Definition g_prefix_error (prefix : string) (e : GError) : GError :=
  mkGError (code e) (prefix +:+ message e).

(** [s] occurs in [t]. *)
Definition contains (t s : string) : Prop :=
  exists a b : string, t = a +:+ s +:+ b.

(** ** Machine integers *)

Definition G_MAXUINT : Z := 2 ^ 32 - 1.

(** The cast [(guint) x] of a [gsize] or [guint64]. *)
Definition to_guint (x : Z) : Z := x mod 2 ^ 32.

(** The cast to [unsigned long long], the type of [1ull << n]. *)
Definition to_guint64 (x : Z) : Z := x mod 2 ^ 64.

(** What [printf] writes for [0x%x]. *)
Definition fmt_0x (x : Z) : string := HexString.of_Z (to_guint x).

(** What [printf] writes for [%u]. *)
Definition fmt_u (x : Z) : string := NilZero.string_of_uint (N.to_uint (Z.to_N (to_guint x))).

(** ** The byte store

    Every [GBytes] and every [GByteArray] is an address; the store maps it to
    the bytes it holds. *)

Abbreviation mem := (gmap positive (list byte)).

Definition mem_data (m : mem) (a : positive) : list byte := default [] (m !! a).

Definition mem_alloc (data : list byte) (m : mem) : positive * mem :=
  let a := fresh (dom m) in (a, <[a := data]> m).

(** GLib: [g_bytes_get_size]. *)
Definition g_bytes_get_size (m : mem) (b : positive) : Z :=
  Z.of_nat (length (mem_data m b)).

(** GLib: [g_bytes_new (data, size)] copies the data into a new [GBytes]. *)
Definition g_bytes_new (data : list byte) (m : mem) : positive * mem :=
  mem_alloc data m.

(** GLib: [g_byte_array_new ()], an empty array. *)
Definition g_byte_array_new (m : mem) : positive * mem := mem_alloc [] m.

(** GLib: dropping the last reference of a [GByteArray] frees it. *)
Definition g_byte_array_unref (buf : positive) (m : mem) : mem := delete buf m.

(** Modelled from the spec: [fu_byte_array_append_bytes] (fu-byte-array.c is
    not among the sources) appends a copy of the bytes of [bytes] to [buf]. *)
Definition fu_byte_array_append_bytes (buf bytes : positive) (m : mem) : mem :=
  <[buf := mem_data m buf ++ mem_data m bytes]> m.

(** The bytes [dst] holds once [src] is written over it at [off]. *)
Definition overwrite (dst : list byte) (off : nat) (src : list byte) : list byte :=
  take off dst ++ src ++ drop (off + length src) dst.

(** The errors of the two bounds checks of [fu_memcpy_safe]. *)
Definition fu_memchk_read_error (bufsz offset n : Z) : GError :=
  mkGError FWUPD_ERROR_READ
    ("attempted to read " +:+ fmt_0x n +:+ " bytes at offset " +:+ fmt_0x offset +:+
     ", this would overflow a source buffer of size " +:+ fmt_0x bufsz).

Definition fu_memchk_write_error (bufsz offset n : Z) : GError :=
  mkGError FWUPD_ERROR_WRITE
    ("attempted to write " +:+ fmt_0x n +:+ " bytes at offset " +:+ fmt_0x offset +:+
     ", this would overflow a destination buffer of size " +:+ fmt_0x bufsz).

(** Modelled from the spec: [fu_memcpy_safe] (fu-mem.c is not among the
    sources) copies [n] bytes from [src + src_offset] to [dst + dst_offset]
    and fails, copying nothing, when the range read falls outside the source
    or the range written falls outside the destination. *)
Definition fu_memcpy_safe (dst : positive) (dst_sz dst_offset : Z)
    (src : positive) (src_sz src_offset n : Z) (m : mem) : result unit * mem :=
  if src_sz <? src_offset + n then
    (Err (fu_memchk_read_error src_sz src_offset n), m)
  else if dst_sz <? dst_offset + n then
    (Err (fu_memchk_write_error dst_sz dst_offset n), m)
  else
    let chunk := take (Z.to_nat n) (drop (Z.to_nat src_offset) (mem_data m src)) in
    (Ok tt, <[dst := overwrite (mem_data m dst) (Z.to_nat dst_offset) chunk]> m).

(** ** Input streams

    A stream is the bytes of its source; [st_seekable] tells whether the source
    answers a size query. *)

Record GInputStream := mkStream { st_data : list byte; st_seekable : bool }.

(** Modelled from the spec: [fu_input_stream_size] (fu-input-stream.c is not
    among the sources) gives the total size, or fails with an I/O error when
    the size cannot be determined. *)
Definition fu_input_stream_size (stream : GInputStream) : result Z :=
  if st_seekable stream then Ok (Z.of_nat (length (st_data stream)))
  else Err (mkGError FWUPD_ERROR_NOT_SUPPORTED "seek failed").

(** Modelled from the spec: [fu_input_stream_read_bytes] (fu-input-stream.c
    is not among the sources) reads [count] bytes at [offset] into a new
    [GBytes]. *)
Definition fu_input_stream_read_bytes (stream : GInputStream) (offset count : Z)
    (m : mem) : result positive * mem :=
  if st_seekable stream then
    let (b, m') := g_bytes_new (take (Z.to_nat count) (drop (Z.to_nat offset) (st_data stream))) m in
    (Ok b, m')
  else (Err (mkGError FWUPD_ERROR_NOT_SUPPORTED "seek failed"), m).

(** Modelled from the spec: [fu_partial_input_stream_new]
    (fu-partial-input-stream.c is not among the sources) is the bounded view of
    [size] bytes of [stream] from [offset]. *)
Definition fu_partial_input_stream_new (stream : GInputStream) (offset size : Z)
    : result GInputStream :=
  if negb (st_seekable stream) then
    Err (mkGError FWUPD_ERROR_NOT_SUPPORTED "seek failed")
  else if Z.of_nat (length (st_data stream)) <? offset + size then
    Err (mkGError FWUPD_ERROR_INVALID_DATA "base stream was too small")
  else
    Ok (mkStream (take (Z.to_nat size) (drop (Z.to_nat offset) (st_data stream))) true).

(** ** The instance data *)

(** [FuFirmwarePatch]: an offset and the [GBytes] to write there. *)
Record FuFirmwarePatch := mkPatch { ptch_offset : Z; ptch_blob : positive }.

(** [FuFirmwarePrivate], without the version, filename and chunk fields, which
    no function below reads or writes. Pointers to other firmware objects are
    their addresses in the object heap. *)
Record FuFirmwarePrivate := mkPriv {
  priv_flags : Z;
  priv_parent : option positive;
  priv_images : list positive;
  priv_bytes : option positive;
  priv_stream : option GInputStream;
  priv_streamsz : Z;
  priv_alignment : Z;
  priv_id : option string;
  priv_idx : Z;
  priv_addr : Z;
  priv_offset : Z;
  priv_size : Z;
  priv_size_max : Z;
  priv_images_max : Z;
  priv_depth : Z;
  priv_patches : option (list FuFirmwarePatch)
}.

(** [fu_firmware_init]: every field zero, an empty array of images. *)
Definition fu_firmware_init : FuFirmwarePrivate :=
  mkPriv 0 None [] None None 0 0 None 0 0 0 0 0 0 0 None.

Definition with_flags (v : Z) (p : FuFirmwarePrivate) : FuFirmwarePrivate :=
  mkPriv v (priv_parent p) (priv_images p) (priv_bytes p) (priv_stream p)
    (priv_streamsz p) (priv_alignment p) (priv_id p) (priv_idx p) (priv_addr p)
    (priv_offset p) (priv_size p) (priv_size_max p) (priv_images_max p)
    (priv_depth p) (priv_patches p).

Definition with_parent (v : option positive) (p : FuFirmwarePrivate) : FuFirmwarePrivate :=
  mkPriv (priv_flags p) v (priv_images p) (priv_bytes p) (priv_stream p)
    (priv_streamsz p) (priv_alignment p) (priv_id p) (priv_idx p) (priv_addr p)
    (priv_offset p) (priv_size p) (priv_size_max p) (priv_images_max p)
    (priv_depth p) (priv_patches p).

Definition with_images (v : list positive) (p : FuFirmwarePrivate) : FuFirmwarePrivate :=
  mkPriv (priv_flags p) (priv_parent p) v (priv_bytes p) (priv_stream p)
    (priv_streamsz p) (priv_alignment p) (priv_id p) (priv_idx p) (priv_addr p)
    (priv_offset p) (priv_size p) (priv_size_max p) (priv_images_max p)
    (priv_depth p) (priv_patches p).

Definition with_bytes (v : option positive) (p : FuFirmwarePrivate) : FuFirmwarePrivate :=
  mkPriv (priv_flags p) (priv_parent p) (priv_images p) v (priv_stream p)
    (priv_streamsz p) (priv_alignment p) (priv_id p) (priv_idx p) (priv_addr p)
    (priv_offset p) (priv_size p) (priv_size_max p) (priv_images_max p)
    (priv_depth p) (priv_patches p).

Definition with_stream (v : option GInputStream) (p : FuFirmwarePrivate) : FuFirmwarePrivate :=
  mkPriv (priv_flags p) (priv_parent p) (priv_images p) (priv_bytes p) v
    (priv_streamsz p) (priv_alignment p) (priv_id p) (priv_idx p) (priv_addr p)
    (priv_offset p) (priv_size p) (priv_size_max p) (priv_images_max p)
    (priv_depth p) (priv_patches p).

Definition with_streamsz (v : Z) (p : FuFirmwarePrivate) : FuFirmwarePrivate :=
  mkPriv (priv_flags p) (priv_parent p) (priv_images p) (priv_bytes p) (priv_stream p)
    v (priv_alignment p) (priv_id p) (priv_idx p) (priv_addr p)
    (priv_offset p) (priv_size p) (priv_size_max p) (priv_images_max p)
    (priv_depth p) (priv_patches p).

Definition with_alignment (v : Z) (p : FuFirmwarePrivate) : FuFirmwarePrivate :=
  mkPriv (priv_flags p) (priv_parent p) (priv_images p) (priv_bytes p) (priv_stream p)
    (priv_streamsz p) v (priv_id p) (priv_idx p) (priv_addr p)
    (priv_offset p) (priv_size p) (priv_size_max p) (priv_images_max p)
    (priv_depth p) (priv_patches p).

Definition with_id (v : option string) (p : FuFirmwarePrivate) : FuFirmwarePrivate :=
  mkPriv (priv_flags p) (priv_parent p) (priv_images p) (priv_bytes p) (priv_stream p)
    (priv_streamsz p) (priv_alignment p) v (priv_idx p) (priv_addr p)
    (priv_offset p) (priv_size p) (priv_size_max p) (priv_images_max p)
    (priv_depth p) (priv_patches p).

Definition with_idx (v : Z) (p : FuFirmwarePrivate) : FuFirmwarePrivate :=
  mkPriv (priv_flags p) (priv_parent p) (priv_images p) (priv_bytes p) (priv_stream p)
    (priv_streamsz p) (priv_alignment p) (priv_id p) v (priv_addr p)
    (priv_offset p) (priv_size p) (priv_size_max p) (priv_images_max p)
    (priv_depth p) (priv_patches p).

Definition with_offset (v : Z) (p : FuFirmwarePrivate) : FuFirmwarePrivate :=
  mkPriv (priv_flags p) (priv_parent p) (priv_images p) (priv_bytes p) (priv_stream p)
    (priv_streamsz p) (priv_alignment p) (priv_id p) (priv_idx p) (priv_addr p)
    v (priv_size p) (priv_size_max p) (priv_images_max p)
    (priv_depth p) (priv_patches p).

Definition with_size_max (v : Z) (p : FuFirmwarePrivate) : FuFirmwarePrivate :=
  mkPriv (priv_flags p) (priv_parent p) (priv_images p) (priv_bytes p) (priv_stream p)
    (priv_streamsz p) (priv_alignment p) (priv_id p) (priv_idx p) (priv_addr p)
    (priv_offset p) (priv_size p) v (priv_images_max p)
    (priv_depth p) (priv_patches p).

Definition with_images_max (v : Z) (p : FuFirmwarePrivate) : FuFirmwarePrivate :=
  mkPriv (priv_flags p) (priv_parent p) (priv_images p) (priv_bytes p) (priv_stream p)
    (priv_streamsz p) (priv_alignment p) (priv_id p) (priv_idx p) (priv_addr p)
    (priv_offset p) (priv_size p) (priv_size_max p) v
    (priv_depth p) (priv_patches p).

Definition with_depth (v : Z) (p : FuFirmwarePrivate) : FuFirmwarePrivate :=
  mkPriv (priv_flags p) (priv_parent p) (priv_images p) (priv_bytes p) (priv_stream p)
    (priv_streamsz p) (priv_alignment p) (priv_id p) (priv_idx p) (priv_addr p)
    (priv_offset p) (priv_size p) (priv_size_max p) (priv_images_max p)
    v (priv_patches p).

Definition with_patches (v : option (list FuFirmwarePatch)) (p : FuFirmwarePrivate)
    : FuFirmwarePrivate :=
  mkPriv (priv_flags p) (priv_parent p) (priv_images p) (priv_bytes p) (priv_stream p)
    (priv_streamsz p) (priv_alignment p) (priv_id p) (priv_idx p) (priv_addr p)
    (priv_offset p) (priv_size p) (priv_size_max p) (priv_images_max p)
    (priv_depth p) v.

(** ** Flags

    fu-firmware.h is not among the sources: the flags are taken as the
    distinct single bits the header gives them. *)

Definition FU_FIRMWARE_FLAG_DEDUPE_ID : Z := 1.
Definition FU_FIRMWARE_FLAG_DEDUPE_IDX : Z := 2.
Definition FU_FIRMWARE_FLAG_DONE_PARSE : Z := 16.
Definition FU_FIRMWARE_FLAG_ALWAYS_SEARCH : Z := 64.
Definition FU_FIRMWARE_FLAG_HAS_CHECK_COMPATIBLE : Z := 256.

Definition FU_FIRMWARE_PARSE_FLAG_NONE : Z := 0.
Definition FU_FIRMWARE_PARSE_FLAG_NO_SEARCH : Z := 256.
Definition FU_FIRMWARE_PARSE_FLAG_CACHE_STREAM : Z := 1024.
Definition FU_FIRMWARE_PARSE_FLAG_CACHE_BLOB : Z := 2048.

Definition fu_firmware_add_flag (flag : Z) (priv : FuFirmwarePrivate) : FuFirmwarePrivate :=
  with_flags (Z.lor (priv_flags priv) flag) priv.

Definition fu_firmware_has_flag (priv : FuFirmwarePrivate) (flag : Z) : bool :=
  0 <? Z.land (priv_flags priv) flag.

(** [(flags & flag)] as the condition of an [if]. *)
Definition flag_set (flags flag : Z) : bool := negb (Z.land flags flag =? 0).

(** ** Payload access *)

(** [fu_firmware_set_bytes]: nothing happens when [bytes] is the [GBytes]
    already held; otherwise it replaces the buffer and drops the stream. *)
Definition fu_firmware_set_bytes (bytes : positive) (priv : FuFirmwarePrivate)
    : FuFirmwarePrivate :=
  if bool_decide (priv_bytes priv = Some bytes) then priv
  else with_stream None (with_bytes (Some bytes) priv).

(** [fu_firmware_get_bytes]: the buffer itself, else the stream read out. *)
Definition fu_firmware_get_bytes (priv : FuFirmwarePrivate) (m : mem)
    : result positive * mem :=
  match priv_bytes priv with
  | Some bytes => (Ok bytes, m)
  | None =>
      match priv_stream priv with
      | Some stream =>
          if priv_streamsz priv =? 0 then
            (Err (mkGError FWUPD_ERROR_INVALID_DATA "stream size unknown"), m)
          else fu_input_stream_read_bytes stream 0 (priv_streamsz priv) m
      | None => (Err (mkGError FWUPD_ERROR_NOT_FOUND "no payload set"), m)
      end
  end.

(** The loop of [fu_firmware_get_bytes_with_patches]: each patch in turn is
    copied over the array [buf]; the first copy that fails ends the loop. *)
Fixpoint apply_patches (buf : positive) (patches : list FuFirmwarePatch) (m : mem)
    : result unit * mem :=
  match patches with
  | [] => (Ok tt, m)
  | ptch :: rest =>
      match fu_memcpy_safe buf (Z.of_nat (length (mem_data m buf))) (ptch_offset ptch)
              (ptch_blob ptch) (g_bytes_get_size m (ptch_blob ptch)) 0
              (g_bytes_get_size m (ptch_blob ptch)) m with
      | (Err e, m') =>
          (Err (g_prefix_error
                  ("failed to apply patch @" +:+ fmt_0x (ptch_offset ptch) +:+ ": ") e), m')
      | (Ok _, m') => apply_patches buf rest m'
      end
  end.

(** [fu_firmware_get_bytes_with_patches]. The array [buf] is allocated on
    entry and freed on every way out ([g_autoptr]). *)
Definition fu_firmware_get_bytes_with_patches (priv : FuFirmwarePrivate) (m : mem)
    : result positive * mem :=
  let (buf, m0) := g_byte_array_new m in
  match priv_bytes priv with
  | None =>
      match priv_stream priv with
      | Some _ =>
          let (r, m1) := fu_firmware_get_bytes priv m0 in (r, g_byte_array_unref buf m1)
      | None =>
          (Err (mkGError FWUPD_ERROR_NOT_FOUND "no payload set"), g_byte_array_unref buf m0)
      end
  | Some bytes =>
      match priv_patches priv with
      | None =>
          let (r, m1) := fu_firmware_get_bytes priv m0 in (r, g_byte_array_unref buf m1)
      | Some patches =>
          let m1 := fu_byte_array_append_bytes buf bytes m0 in
          match apply_patches buf patches m1 with
          | (Err e, m2) => (Err e, g_byte_array_unref buf m2)
          | (Ok _, m2) =>
              let (r, m3) := g_bytes_new (mem_data m2 buf) m2 in
              (Ok r, g_byte_array_unref buf m3)
          end
      end
  end.

(** [fu_firmware_get_stream]. *)
Definition fu_firmware_get_stream (priv : FuFirmwarePrivate) (m : mem)
    : result GInputStream :=
  match priv_stream priv with
  | Some stream => Ok stream
  | None =>
      match priv_bytes priv with
      | Some bytes => Ok (mkStream (mem_data m bytes) true)
      | None => Err (mkGError FWUPD_ERROR_NOT_FOUND "no stream or bytes set")
      end
  end.

(** [fu_firmware_set_stream]; [None] is the NULL stream. *)
Definition fu_firmware_set_stream (stream : option GInputStream) (priv : FuFirmwarePrivate)
    : result unit * FuFirmwarePrivate :=
  match stream with
  | Some s =>
      match fu_input_stream_size s with
      | Err e => (Err e, priv)
      | Ok sz => (Ok tt, with_stream (Some s) (with_streamsz sz priv))
      end
  | None => (Ok tt, with_stream None (with_streamsz 0 priv))
  end.

(** The search loop of [fu_firmware_add_patch]: the first patch with the same
    offset and a blob of the same size gets the new blob; when there is none
    the new patch goes to the end. *)
Fixpoint add_patch_loop (m : mem) (offset : Z) (blob : positive)
    (patches : list FuFirmwarePatch) : list FuFirmwarePatch :=
  match patches with
  | [] => [mkPatch offset blob]
  | ptch :: rest =>
      if (ptch_offset ptch =? offset) &&
         (g_bytes_get_size m (ptch_blob ptch) =? g_bytes_get_size m blob)
      then mkPatch (ptch_offset ptch) blob :: rest
      else ptch :: add_patch_loop m offset blob rest
  end.

(** [fu_firmware_add_patch]. *)
Definition fu_firmware_add_patch (offset : Z) (blob : positive) (m : mem)
    (priv : FuFirmwarePrivate) : FuFirmwarePrivate :=
  with_patches (Some (add_patch_loop m offset blob (default [] (priv_patches priv)))) priv.

(** [fu_firmware_set_offset]. *)
Definition fu_firmware_set_offset (offset : Z) (priv : FuFirmwarePrivate) : FuFirmwarePrivate :=
  with_offset offset priv.

(** ** The parse pipeline *)

(** The result of a hook that works on the object and may allocate. *)
Definition hook_result : Type := result unit * FuFirmwarePrivate * mem.

(** [FuFirmwareClass]: the virtual functions the pipeline calls; [None] is a
    NULL function pointer. [klass_validate] only looks at the stream;
    [klass_init] is the instance initialiser of the subclass. *)
Record FuFirmwareClass := mkClass {
  klass_init : FuFirmwarePrivate -> FuFirmwarePrivate;
  klass_check_compatible : bool;
  klass_validate : option (FuFirmwarePrivate -> GInputStream -> Z -> result unit);
  klass_tokenize : option (FuFirmwarePrivate -> GInputStream -> Z -> mem -> hook_result);
  klass_parse : option (FuFirmwarePrivate -> GInputStream -> Z -> mem -> hook_result)
}.

(** The base class [FU_TYPE_FIRMWARE]: no hook at all. *)
Definition fu_firmware_class : FuFirmwareClass :=
  mkClass (fun priv => priv) false None None None.

(** fu-firmware.h is not among the sources: the search ceiling is the 32 MiB
    of the header. *)
Definition FU_FIRMWARE_SEARCH_MAGIC_BUFSZ_MAX : Z := 32 * 1024 * 1024.

Section Parse.

(** GLib's human-readable sizes, [g_format_size] and [g_format_size_full]
    with IEC units; only the text of two messages depends on them. *)
Variable g_format_size : Z -> string.
Variable g_format_size_full : Z -> string.

(** [fu_firmware_validate_for_offset]: the offset to parse at, once the
    validator of the class accepts one. *)
Definition fu_firmware_validate_for_offset (klass : FuFirmwareClass)
    (self : FuFirmwarePrivate) (stream : GInputStream) (offset flags : Z)
    : result Z * FuFirmwarePrivate :=
  match klass_validate klass with
  | None => (Ok offset, self)
  | Some validate =>
      if negb (fu_firmware_has_flag self FU_FIRMWARE_FLAG_ALWAYS_SEARCH) &&
         (0 <? Z.land flags FU_FIRMWARE_PARSE_FLAG_NO_SEARCH)
      then
        match validate self stream offset with
        | Err e => (Err e, self)
        | Ok _ => (Ok offset, self)
        end
      else
        match fu_input_stream_size stream with
        | Err e => (Err e, self)
        | Ok streamsz =>
            if FU_FIRMWARE_SEARCH_MAGIC_BUFSZ_MAX <? streamsz then
              match validate self stream offset with
              | Err e =>
                  (Err (g_prefix_error
                          ("failed to search for magic as firmware size was " +:+
                           fmt_0x streamsz +:+ " and limit was " +:+
                           fmt_0x FU_FIRMWARE_SEARCH_MAGIC_BUFSZ_MAX +:+ ": ") e), self)
              | Ok _ => (Ok offset, self)
              end
            else
              match List.find (fun offset_tmp => is_ok (validate self stream offset_tmp))
                      (seqZ offset (streamsz - offset)) with
              | Some offset_tmp => (Ok offset_tmp, fu_firmware_set_offset offset_tmp self)
              | None =>
                  (Err (mkGError FWUPD_ERROR_INVALID_FILE "did not find magic"), self)
              end
        end
  end.

(** The last step of [fu_firmware_parse_stream] when the class has no parse
    hook: [streamsz] is the size of the whole stream handed to the parse. *)
Definition verify_alignment (priv : FuFirmwarePrivate) (streamsz : Z) : result unit :=
  if negb (streamsz mod to_guint64 (Z.shiftl 1 (priv_alignment priv)) =? 0) then
    Err (mkGError FWUPD_ERROR_INVALID_FILE
           ("raw firmware is not aligned to " +:+
            fmt_0x (to_guint64 (Z.shiftl 1 (priv_alignment priv))) +:+ " (" +:+
            g_format_size_full (to_guint64 (Z.shiftl 1 (priv_alignment priv))) +:+ ")"))
  else Ok tt.

(** [fu_firmware_parse_stream]. *)
Definition fu_firmware_parse_stream (klass : FuFirmwareClass) (self : FuFirmwarePrivate)
    (stream : GInputStream) (offset flags : Z) (m : mem) : hook_result :=
  (* sanity check *)
  if fu_firmware_has_flag self FU_FIRMWARE_FLAG_DONE_PARSE then
    (Err (mkGError FWUPD_ERROR_NOT_SUPPORTED "firmware object cannot be reused"), self, m)
  else
  (* check size *)
  match fu_input_stream_size stream with
  | Err e => (Err e, self, m)
  | Ok streamsz =>
  if streamsz <=? offset then
    (Err (mkGError FWUPD_ERROR_NOT_SUPPORTED
            ("stream size " +:+ fmt_0x streamsz +:+ " is smaller than offset " +:+
             fmt_0x offset)), self, m)
  else
  (* optional *)
  match fu_firmware_validate_for_offset klass self stream offset flags with
  | (Err e, self) => (Err e, self, m)
  | (Ok offset, self) =>
  (* save stream size *)
  let self := with_streamsz (streamsz - offset) self in
  if priv_streamsz self =? 0 then
    (Err (mkGError FWUPD_ERROR_NOT_SUPPORTED "invalid firmware as zero sized"), self, m)
  else if (0 <? priv_size_max self) && (priv_size_max self <? priv_streamsz self) then
    (Err (mkGError FWUPD_ERROR_INVALID_FILE
            ("firmware is too large (" +:+ g_format_size (priv_streamsz self) +:+
             ", limit " +:+ g_format_size (priv_size_max self) +:+ ")")), self, m)
  else
  let self := fu_firmware_add_flag FU_FIRMWARE_FLAG_DONE_PARSE self in
  let self :=
    if klass_check_compatible klass
    then fu_firmware_add_flag FU_FIRMWARE_FLAG_HAS_CHECK_COMPATIBLE self else self in
  (* save stream *)
  match (if offset =? 0 then Ok stream
         else match fu_partial_input_stream_new stream offset (priv_streamsz self) with
              | Err e => Err (g_prefix_error "failed to cut firmware: " e)
              | Ok partial_stream => Ok partial_stream
              end) with
  | Err e => (Err e, self, m)
  | Ok partial_stream =>
  (* cache *)
  match (if flag_set flags FU_FIRMWARE_PARSE_FLAG_CACHE_BLOB then
           match fu_input_stream_read_bytes partial_stream 0 (priv_streamsz self) m with
           | (Err e, m) => (Err e, self, m)
           | (Ok blob, m) => (Ok tt, fu_firmware_set_bytes blob self, m)
           end
         else (Ok tt, self, m)) with
  | (Err e, self, m) => (Err e, self, m)
  | (Ok _, self, m) =>
  let self :=
    if flag_set flags FU_FIRMWARE_PARSE_FLAG_CACHE_STREAM
    then with_stream (Some partial_stream) self else self in
  (* optional *)
  match (match klass_tokenize klass with
         | Some tokenize => tokenize self partial_stream flags m
         | None => (Ok tt, self, m)
         end) with
  | (Err e, self, m) => (Err e, self, m)
  | (Ok _, self, m) =>
  (* optional *)
  match klass_parse klass with
  | Some parse => parse self partial_stream flags m
  | None =>
      (* verify alignment *)
      (verify_alignment self streamsz, self, m)
  end end end end end end.

(** [fu_firmware_parse_bytes]: the blob as a memory stream. *)
Definition fu_firmware_parse_bytes (klass : FuFirmwareClass) (self : FuFirmwarePrivate)
    (fw : positive) (offset flags : Z) (m : mem) : hook_result :=
  fu_firmware_parse_stream klass self (mkStream (mem_data m fw) true) offset flags m.

(** The loop of [fu_firmware_new_from_gtypes] from candidate [gtypes] on, with
    the errors gathered so far in [error_all]. As in C the outcome is the
    object returned, NULL being [None], and the error set. *)
Fixpoint new_from_gtypes_loop (gtypes : list FuFirmwareClass) (stream : GInputStream)
    (offset flags : Z) (error_all : option GError) (m : mem)
    : option (FuFirmwareClass * FuFirmwarePrivate) * option GError * mem :=
  match gtypes with
  | [] => (None, error_all, m)
  | gtype :: rest =>
      let firmware := klass_init gtype fu_firmware_init in
      match fu_firmware_parse_stream gtype firmware stream offset flags m with
      | (Err error_local, _, m) =>
          let error_all :=
            match error_all with
            | None => error_local
            | Some e => g_prefix_error (message error_local +:+ ": ") e
            end in
          new_from_gtypes_loop rest stream offset flags (Some error_all) m
      | (Ok _, firmware, m) => (Some (gtype, firmware), None, m)
      end
  end.

(** [fu_firmware_new_from_gtypes]. *)
Definition fu_firmware_new_from_gtypes (stream : GInputStream) (offset flags : Z)
    (gtypes : list FuFirmwareClass) (m : mem)
    : option (FuFirmwareClass * FuFirmwarePrivate) * option GError * mem :=
  if (length gtypes =? 0)%nat then
    (None, Some (mkGError FWUPD_ERROR_NOTHING_TO_DO "no GTypes specified"), m)
  else new_from_gtypes_loop gtypes stream offset flags None m.

End Parse.

(** ** The tree of images

    Firmware objects live in a heap; [self], [img] and the entries of
    [priv_images] are addresses in it. A function returns [None] when one of
    its [g_return_val_if_fail (FU_IS_FIRMWARE (...))] guards trips. *)

Abbreviation heap := (gmap positive FuFirmwarePrivate).

Definition FU_FIRMWARE_IMAGE_DEPTH_MAX : Z := 50.

(** [fu_firmware_new]: a fresh object of the base class. *)
Definition fu_firmware_new (h : heap) : positive * heap :=
  let self := fresh (dom h) in (self, <[self := fu_firmware_init]> h).

(** [fu_firmware_get_id]: the id, NULL also for what is no object. *)
Definition fu_firmware_get_id (h : heap) (self : positive) : option string :=
  match h !! self with
  | Some priv => priv_id priv
  | None => None
  end.

(** [fu_firmware_get_idx]. *)
Definition fu_firmware_get_idx (h : heap) (self : positive) : Z :=
  match h !! self with
  | Some priv => priv_idx priv
  | None => 2 ^ 64 - 1
  end.

(** [fu_firmware_set_id] on an object of the heap. *)
Definition fu_firmware_set_id (self : positive) (id : option string) (h : heap) : heap :=
  match h !! self with
  | Some priv => <[self := with_id id priv]> h
  | None => h
  end.

(** [fu_firmware_set_idx] on an object of the heap. *)
Definition fu_firmware_set_idx (self : positive) (idx : Z) (h : heap) : heap :=
  match h !! self with
  | Some priv => <[self := with_idx idx priv]> h
  | None => h
  end.

(** [fu_firmware_set_parent]. *)
Definition fu_firmware_set_parent (self : positive) (parent : option positive) (h : heap)
    : heap :=
  match h !! self with
  | Some priv => <[self := with_parent parent priv]> h
  | None => h
  end.

(** [fu_firmware_set_depth]; the depth is a [guint]. *)
Definition fu_firmware_set_depth (self : positive) (depth : Z) (h : heap) : heap :=
  match h !! self with
  | Some priv => <[self := with_depth depth priv]> h
  | None => h
  end.

(** [fu_firmware_get_depth]. *)
Definition fu_firmware_get_depth (h : heap) (self : positive) : Z :=
  match h !! self with
  | Some priv => priv_depth priv
  | None => G_MAXUINT
  end.

(** GLib: [g_strcmp0], which takes NULL and orders it first. *)
Definition g_strcmp0 (a b : option string) : Z :=
  match a, b with
  | None, None => 0
  | None, Some _ => -1
  | Some _, None => 1
  | Some x, Some y =>
      match String.compare x y with
      | Eq => 0
      | Lt => -1
      | Gt => 1
      end
  end.

(** A loop that removes, with [g_ptr_array_remove_index], the first element
    that passes the test and then breaks. *)
Fixpoint remove_first {A : Type} (test : A -> bool) (l : list A) : list A :=
  match l with
  | [] => []
  | x :: rest => if test x then rest else x :: remove_first test rest
  end.

(** [fu_firmware_add_image_full]. *)
Definition fu_firmware_add_image_full (self img : positive) (h : heap)
    : option (result unit * heap) :=
  match h !! self, h !! img with
  | Some priv, Some _ =>
      (* check depth *)
      if FU_FIRMWARE_IMAGE_DEPTH_MAX <? priv_depth priv then
        Some (Err (mkGError FWUPD_ERROR_INVALID_DATA
                     ("images are nested too deep, limit is " +:+
                      fmt_u FU_FIRMWARE_IMAGE_DEPTH_MAX)), h)
      else
        (* dedupe *)
        let images := priv_images priv in
        let images :=
          if flag_set (priv_flags priv) FU_FIRMWARE_FLAG_DEDUPE_ID then
            remove_first
              (fun img_tmp =>
                 g_strcmp0 (fu_firmware_get_id h img_tmp) (fu_firmware_get_id h img) =? 0)
              images
          else images in
        let images :=
          if flag_set (priv_flags priv) FU_FIRMWARE_FLAG_DEDUPE_IDX then
            remove_first
              (fun img_tmp => fu_firmware_get_idx h img_tmp =? fu_firmware_get_idx h img)
              images
          else images in
        let h := <[self := with_images images priv]> h in
        (* sanity check *)
        if (0 <? priv_images_max priv) &&
           (priv_images_max priv <=? Z.of_nat (length images)) then
          Some (Err (mkGError FWUPD_ERROR_INVALID_DATA
                       ("too many images, limit is " +:+ fmt_u (priv_images_max priv))), h)
        else
          let h := <[self := with_images (images ++ [img]) priv]> h in
          (* set the other way around *)
          let h := fu_firmware_set_parent img (Some self) h in
          let h := fu_firmware_set_depth img (to_guint (priv_depth priv + 1)) h in
          Some (Ok tt, h)
  | _, _ => None
  end.

(** GLib: [g_strsplit (string, delimiter, 0)] for a delimiter of one
    character; the empty string splits into no piece at all. *)
Fixpoint strsplit_pieces (delimiter : ascii) (s : string) : string * list string :=
  match s with
  | EmptyString => (EmptyString, [])
  | String c rest =>
      let (piece, pieces) := strsplit_pieces delimiter rest in
      if Ascii.eqb c delimiter then (EmptyString, piece :: pieces)
      else (String c piece, pieces)
  end.

Definition g_strsplit (s : string) (delimiter : ascii) : list string :=
  match s with
  | EmptyString => []
  | _ => let (piece, pieces) := strsplit_pieces delimiter s in piece :: pieces
  end.

(** GLib: [g_pattern_match_simple (pattern, string)], the glob match where
    [*] stands for any run of characters and [?] for any one character, here
    over single-byte characters. *)
Fixpoint g_pattern_match_simple (pattern : string) : string -> bool :=
  match pattern with
  | EmptyString => fun s => match s with EmptyString => true | _ => false end
  | String p pattern' =>
      if Ascii.eqb p "*" then
        fix star (s : string) : bool :=
          g_pattern_match_simple pattern' s ||
          match s with
          | EmptyString => false
          | String _ s' => star s'
          end
      else if Ascii.eqb p "?" then
        fun s => match s with
                 | EmptyString => false
                 | String _ s' => g_pattern_match_simple pattern' s'
                 end
      else
        fun s => match s with
                 | EmptyString => false
                 | String c s' => Ascii.eqb p c && g_pattern_match_simple pattern' s'
                 end
  end.

(** The test of the inner loop of [fu_firmware_get_image_by_id]: some piece of
    the split id matches the id of [img], which is not NULL. *)
Definition image_id_matches (h : heap) (split : list string) (img : positive) : bool :=
  existsb
    (fun piece =>
       match fu_firmware_get_id h img with
       | None => false
       | Some img_id => g_pattern_match_simple piece img_id
       end)
    split.

(** [fu_firmware_get_image_by_id]; [None] as [id] is the NULL id. *)
Definition fu_firmware_get_image_by_id (h : heap) (self : positive) (id : option string)
    : option (result positive) :=
  match h !! self with
  | None => None
  | Some priv =>
      match id with
      | Some id =>
          (* non-NULL *)
          let split := g_strsplit id "|" in
          match List.find (image_id_matches h split) (priv_images priv) with
          | Some img => Some (Ok img)
          | None =>
              Some (Err (mkGError FWUPD_ERROR_NOT_FOUND
                           ("no image id " +:+ id +:+ " found in firmware")))
          end
      | None =>
          (* NULL *)
          match List.find
                  (fun img => match fu_firmware_get_id h img with
                              | None => true
                              | Some _ => false
                              end)
                  (priv_images priv) with
          | Some img => Some (Ok img)
          | None =>
              Some (Err (mkGError FWUPD_ERROR_NOT_FOUND "no NULL image id found in firmware"))
          end
      end
  end.

(** The nesting of the depth test: [n] times over, a fresh object is added as
    an image to the deepest object so far. The result has the images added,
    outermost first, and what the last call of [fu_firmware_add_image_full]
    returned; the nesting stops at the first call that fails. *)
Fixpoint nest_images (n : nat) (deepest : positive) (h : heap)
    : option (list positive * result unit * heap) :=
  match n with
  | O => Some ([], Ok tt, h)
  | S n' =>
      let (img, h) := fu_firmware_new h in
      match fu_firmware_add_image_full deepest img h with
      | None => None
      | Some (Err e, h) => Some ([], Err e, h)
      | Some (Ok _, h) =>
          match nest_images n' img h with
          | None => None
          | Some (imgs, r, h) => Some (img :: imgs, r, h)
          end
      end
  end.

(** ** Helpers of fu-common.c *)

Definition G_MAXSIZE : Z := 2 ^ 64 - 1.

(** fu-firmware.h is not among the sources: the largest alignment is the
    [0x1F] that the comment of [fu_common_align_up] gives it. *)
Definition FU_FIRMWARE_ALIGNMENT_2G : Z := 31.

(** [fu_common_align_up]: [value] is a [gsize], [alignment] a [guint8]. *)
Definition fu_common_align_up (value alignment : Z) : Z :=
  let mask := to_guint64 (Z.shiftl 1 alignment) in
  if FU_FIRMWARE_ALIGNMENT_2G <? alignment then G_MAXSIZE
  else if Z.land value (mask - 1) =? 0 then value
  else
    let value_new := to_guint64 (value + mask) in
    let value_new := Z.land value_new (to_guint64 (Z.lnot (mask - 1))) in
    if value_new <? value then G_MAXSIZE else value_new.

(** [GError] as GLib has it, with its domain and a numeric code, for the
    functions that look at either. *)
Record GErrorRaw := mkGErrorRaw { raw_domain : Z; raw_code : Z; raw_message : string }.

(** [FuErrorMapEntry]; [None] is a NULL message. *)
Record FuErrorMapEntry := mkMapEntry {
  entry_value : Z;
  entry_code : Z;
  entry_message : option string
}.

(** [FuErrorConvertEntry]. *)
Record FuErrorConvertEntry := mkConvertEntry {
  convert_domain : Z;
  convert_code : Z;
  convert_error : Z
}.

Section ErrorMaps.

(** libfwupd is not among the sources: its error domain, the two codes the
    functions name and the two functions they call are taken as given. *)
Variable FWUPD_ERROR : Z.
Variable FWUPD_ERROR_INTERNAL_code : Z.
Variable FWUPD_ERROR_LAST : Z.
Variable fwupd_error_to_string : Z -> string.
Variable fwupd_error_convert : GErrorRaw -> GErrorRaw.

(** [fu_error_map_entry_to_gerror]: [None] is success, no error set. *)
Fixpoint fu_error_map_entry_to_gerror (value : Z) (entries : list FuErrorMapEntry)
    : option GErrorRaw :=
  match entries with
  | [] =>
      Some (mkGErrorRaw FWUPD_ERROR FWUPD_ERROR_INTERNAL_code
              ("generic failure [" +:+ fmt_0x value +:+ "]"))
  | entry :: rest =>
      if negb (entry_value entry =? value) then fu_error_map_entry_to_gerror value rest
      else if entry_code entry =? FWUPD_ERROR_LAST then None
      else
        Some (mkGErrorRaw FWUPD_ERROR (entry_code entry)
                (match entry_message entry with
                 | Some message => message
                 | None => fwupd_error_to_string (entry_value entry)
                 end +:+ " [" +:+ fmt_0x (entry_value entry) +:+ "]"))
  end.

(** GLib: [g_error_matches]. *)
Definition g_error_matches (error : GErrorRaw) (domain code : Z) : bool :=
  (raw_domain error =? domain) && (raw_code error =? code).

(** The loop of [fu_error_convert] over the entries, and its fallback. *)
Fixpoint fu_error_convert_loop (entries : list FuErrorConvertEntry) (error : GErrorRaw)
    : GErrorRaw :=
  match entries with
  | [] => mkGErrorRaw FWUPD_ERROR FWUPD_ERROR_INTERNAL_code (raw_message error)
  | entry :: rest =>
      if g_error_matches error (convert_domain entry) (convert_code entry)
      then mkGErrorRaw FWUPD_ERROR (convert_error entry) (raw_message error)
      else fu_error_convert_loop rest error
  end.

(** [fu_error_convert]: the value returned and the error [*perror] is left
    with; [None] is a NULL error. *)
Definition fu_error_convert (entries : list FuErrorConvertEntry) (perror : option GErrorRaw)
    : bool * option GErrorRaw :=
  match perror with
  | None => (true, None)
  | Some error =>
      let error := fwupd_error_convert error in
      if raw_domain error =? FWUPD_ERROR then (false, Some error)
      else (false, Some (fu_error_convert_loop entries error))
  end.

End ErrorMaps.

(** ** Helpers of the plugins *)

(** [fu_ch341a_device_reverse_uint8]. *)
Definition fu_ch341a_device_reverse_uint8 (value : Z) : Z :=
  let tmp := 0 in
  let tmp := if flag_set value 0x01 then 0x80 else tmp in
  let tmp := if flag_set value 0x02 then Z.lor tmp 0x40 else tmp in
  let tmp := if flag_set value 0x04 then Z.lor tmp 0x20 else tmp in
  let tmp := if flag_set value 0x08 then Z.lor tmp 0x10 else tmp in
  let tmp := if flag_set value 0x10 then Z.lor tmp 0x08 else tmp in
  let tmp := if flag_set value 0x20 then Z.lor tmp 0x04 else tmp in
  let tmp := if flag_set value 0x40 then Z.lor tmp 0x02 else tmp in
  let tmp := if flag_set value 0x80 then Z.lor tmp 0x01 else tmp in
  tmp.

(** The cast [(guint16) x] and the result type [guint16]. *)
Definition to_guint16 (x : Z) : Z := x mod 2 ^ 16.

(** The wrap-around of [guint32] arithmetic. *)
Definition to_guint32 (x : Z) : Z := x mod 2 ^ 32.

(** [fu_ccgx_hpi_device_reg_addr_gen], its three arguments [guint8]. *)
Definition fu_ccgx_hpi_device_reg_addr_gen (section part addr : Z) : Z :=
  to_guint16 (Z.lor (Z.lor (Z.shiftl (to_guint16 section) 12) (Z.shiftl (to_guint16 part) 8))
                addr).

(** [FuCcgxFwMode], of the generated fu-ccgx-struct.h. *)
Inductive FuCcgxFwMode :=
| FU_CCGX_FW_MODE_BOOT
| FU_CCGX_FW_MODE_FW1
| FU_CCGX_FW_MODE_FW2.

(** The two fields of [FuCcgxHpiDevice] that
    [fu_ccgx_hpi_device_get_metadata_offset] reads. *)
Record FuCcgxHpiDevice := mkHpiDevice { flash_row_size : Z; flash_size : Z }.

Section CcgxMetadata.

(** fu-ccgx-hpi-common.h is not among the sources. *)
Variable HPI_META_DATA_OFFSET_ROW_128 : Z.
Variable HPI_META_DATA_OFFSET_ROW_256 : Z.

(** [fu_ccgx_hpi_device_get_metadata_offset]: the outcome and what [*addr]
    and [*offset] hold afterwards. *)
Definition fu_ccgx_hpi_device_get_metadata_offset (self : FuCcgxHpiDevice)
    (fw_mode : FuCcgxFwMode) (addr offset : Z) : result unit * Z * Z :=
  if flash_row_size self =? 0 then
    (Err (mkGError FWUPD_ERROR_NOT_SUPPORTED "unset support row size"), addr, offset)
  else
    let addr_max := flash_size self / flash_row_size self in
    match (if flash_row_size self =? 128 then Some HPI_META_DATA_OFFSET_ROW_128
           else if flash_row_size self =? 256 then Some HPI_META_DATA_OFFSET_ROW_256
           else None) with
    | None =>
        (Err (mkGError FWUPD_ERROR_NOT_SUPPORTED
                ("unsupported support row size: " +:+ fmt_0x (flash_row_size self))),
         addr, offset)
    | Some offset =>
        match fw_mode with
        | FU_CCGX_FW_MODE_FW1 => (Ok tt, to_guint32 (addr_max - 1), offset)
        | FU_CCGX_FW_MODE_FW2 => (Ok tt, to_guint32 (addr_max - 2), offset)
        | _ =>
            (Err (mkGError FWUPD_ERROR_NOT_SUPPORTED "boot recovery not supported"),
             addr, offset)
        end
    end.

End CcgxMetadata.

(** ** Size and chunks of the payload *)

(** The conversion [%" G_GUINT64_FORMAT "] of a [guint64]. *)
Definition fmt_u64 (x : Z) : string :=
  NilZero.string_of_uint (N.to_uint (Z.to_N (to_guint64 x))).

Definition with_addr (v : Z) (p : FuFirmwarePrivate) : FuFirmwarePrivate :=
  mkPriv (priv_flags p) (priv_parent p) (priv_images p) (priv_bytes p) (priv_stream p)
    (priv_streamsz p) (priv_alignment p) (priv_id p) (priv_idx p) v
    (priv_offset p) (priv_size p) (priv_size_max p) (priv_images_max p)
    (priv_depth p) (priv_patches p).

Definition with_size (v : Z) (p : FuFirmwarePrivate) : FuFirmwarePrivate :=
  mkPriv (priv_flags p) (priv_parent p) (priv_images p) (priv_bytes p) (priv_stream p)
    (priv_streamsz p) (priv_alignment p) (priv_id p) (priv_idx p) (priv_addr p)
    (priv_offset p) v (priv_size_max p) (priv_images_max p)
    (priv_depth p) (priv_patches p).

(** [fu_firmware_set_addr]. *)
Definition fu_firmware_set_addr (addr : Z) (priv : FuFirmwarePrivate) : FuFirmwarePrivate :=
  with_addr addr priv.

(** [fu_firmware_set_size]. *)
Definition fu_firmware_set_size (size : Z) (priv : FuFirmwarePrivate) : FuFirmwarePrivate :=
  with_size size priv.

(** [fu_firmware_get_size]. *)
Definition fu_firmware_get_size (priv : FuFirmwarePrivate) (m : mem) : Z :=
  if negb (priv_size priv =? 0) then priv_size priv
  else if bool_decide (priv_stream priv <> None) && negb (priv_streamsz priv =? 0)
       then priv_streamsz priv
  else match priv_bytes priv with
       | Some bytes => g_bytes_get_size m bytes
       | None => 0
       end.

(** GLib: [g_bytes_get_size] of a pointer that may be NULL, which gives 0. *)
Definition g_bytes_get_size_nullable (m : mem) (bytes : option positive) : Z :=
  match bytes with
  | Some bytes => g_bytes_get_size m bytes
  | None => 0
  end.

(** Modelled from the spec: [fu_bytes_new_offset] (fu-bytes.c is not among
    the sources) gives a [GBytes] of the [length] bytes of [bytes] from
    [offset], and fails when they are not all there. The outcome is [None]
    when [bytes] is NULL, a guard that sets no error. [fu_firmware_write_chunk]
    only asks for a range inside the buffer. *)
Definition fu_bytes_new_offset (bytes : option positive) (offset length : Z) (m : mem)
    : option (result positive) * mem :=
  match bytes with
  | None => (None, m)
  | Some bytes =>
      if g_bytes_get_size m bytes <? offset + length then
        (Some (Err (mkGError FWUPD_ERROR_INVALID_DATA "cannot create bytes")), m)
      else
        let (r, m') := g_bytes_new (take (Z.to_nat length)
                                      (drop (Z.to_nat offset) (mem_data m bytes))) m in
        (Some (Ok r), m')
  end.

(** [fu_firmware_write_chunk]; [address] and [chunk_sz_max] are [guint64]. *)
Definition fu_firmware_write_chunk (priv : FuFirmwarePrivate) (address chunk_sz_max : Z)
    (m : mem) : option (result positive) * mem :=
  (* check address requested is larger than base address *)
  if address <? priv_addr priv then
    (Some (Err (mkGError FWUPD_ERROR_INTERNAL
                  ("requested address " +:+ fmt_0x address +:+
                   " less than base address " +:+ fmt_0x (priv_addr priv)))), m)
  else
    (* offset into data *)
    let offset := address - priv_addr priv in
    if g_bytes_get_size_nullable m (priv_bytes priv) <? offset then
      (Some (Err (mkGError FWUPD_ERROR_NOT_FOUND
                    ("offset " +:+ fmt_0x offset +:+ " larger than data size " +:+
                     fmt_0x (g_bytes_get_size_nullable m (priv_bytes priv))))), m)
    else
      (* if we have less data than requested *)
      let chunk_left := g_bytes_get_size_nullable m (priv_bytes priv) - offset in
      if chunk_left <? chunk_sz_max then
        fu_bytes_new_offset (priv_bytes priv) offset chunk_left m
      else
        (* check chunk *)
        fu_bytes_new_offset (priv_bytes priv) offset chunk_sz_max m.

(** [fu_firmware_write]; [write] is the hook [klass->write] of the class,
    [None] when it is NULL. The hook returns a [GByteArray], which is copied
    into the [GBytes] returned and then freed. *)
Definition fu_firmware_write
    (write : option (FuFirmwarePrivate -> mem -> result positive * mem))
    (priv : FuFirmwarePrivate) (m : mem) : result positive * mem :=
  match write with
  | Some write =>
      (* subclassed *)
      match write priv m with
      | (Err e, m) => (Err e, m)
      | (Ok buf, m) =>
          let (r, m) := g_bytes_new (mem_data m buf) m in (Ok r, g_byte_array_unref buf m)
      end
  | None =>
      (* just add default blob *)
      fu_firmware_get_bytes_with_patches priv m
  end.

(** ** Looking images up by idx and removing them

    The heap has no reference counts: an object that an array of images held
    the last reference to stays in the heap when it is removed. *)

(** GLib: [g_ptr_array_remove (array, data)] removes the first pointer equal
    to [data] and tells whether there was one. *)
Definition g_ptr_array_remove (array : list positive) (data : positive)
    : bool * list positive :=
  (existsb (Pos.eqb data) array, remove_first (Pos.eqb data) array).

(** [fu_firmware_get_images]: a new array with the same images. *)
Definition fu_firmware_get_images (h : heap) (self : positive) : option (list positive) :=
  match h !! self with
  | Some priv => Some (priv_images priv)
  | None => None
  end.

(** [fu_firmware_get_image_by_idx]. *)
Definition fu_firmware_get_image_by_idx (h : heap) (self : positive) (idx : Z)
    : option (result positive) :=
  match h !! self with
  | None => None
  | Some priv =>
      match List.find (fun img => fu_firmware_get_idx h img =? idx) (priv_images priv) with
      | Some img => Some (Ok img)
      | None =>
          Some (Err (mkGError FWUPD_ERROR_NOT_FOUND
                       ("no image idx " +:+ fmt_u64 idx +:+ " found in firmware")))
      end
  end.

(** [fu_firmware_remove_image]. The message has the id of the image as
    [%s] prints it, [(null)] for a NULL id. *)
Definition fu_firmware_remove_image (self img : positive) (h : heap)
    : option (result unit * heap) :=
  match h !! self, h !! img with
  | Some priv, Some _ =>
      let (found, images) := g_ptr_array_remove (priv_images priv) img in
      if found then Some (Ok tt, <[self := with_images images priv]> h)
      else
        (* did not exist *)
        Some (Err (mkGError FWUPD_ERROR_NOT_FOUND
                     ("image " +:+ default "(null)" (fu_firmware_get_id h img) +:+
                      " not found in firmware")), h)
  | _, _ => None
  end.

(** [fu_firmware_remove_image_by_idx]. *)
Definition fu_firmware_remove_image_by_idx (self : positive) (idx : Z) (h : heap)
    : option (result unit * heap) :=
  match h !! self with
  | None => None
  | Some priv =>
      match fu_firmware_get_image_by_idx h self idx with
      | None => None
      | Some (Err e) => Some (Err e, h)
      | Some (Ok img) =>
          let (_, images) := g_ptr_array_remove (priv_images priv) img in
          Some (Ok tt, <[self := with_images images priv]> h)
      end
  end.

(** [fu_firmware_remove_image_by_id]. *)
Definition fu_firmware_remove_image_by_id (self : positive) (id : option string) (h : heap)
    : option (result unit * heap) :=
  match h !! self with
  | None => None
  | Some priv =>
      match fu_firmware_get_image_by_id h self id with
      | None => None
      | Some (Err e) => Some (Err e, h)
      | Some (Ok img) =>
          let (_, images) := g_ptr_array_remove (priv_images priv) img in
          Some (Ok tt, <[self := with_images images priv]> h)
      end
  end.

(** ** ACPI tables (fu-acpi-table.c) *)

(** The conversion [0x%02x] of a [guint]: two hexadecimal digits at least. *)
Definition fmt_02x (x : Z) : string :=
  let digits := String.substring 2 (String.length (fmt_0x x) - 2) (fmt_0x x) in
  if (String.length digits <? 2)%nat then "0x0" +:+ digits else "0x" +:+ digits.

(** libxmlb: an [XbBuilderNode] is seen as the children it has, each an
    element with a text, in the order [xb_builder_node_insert_text] added
    them. *)
Definition XbBuilderNode : Type := list (string * string).

Definition xb_builder_node_insert_text (bn : XbBuilderNode) (element text : string)
    : XbBuilderNode :=
  bn ++ [(element, text)].

(** [fu_xmlb_builder_insert_kv]; [None] is a NULL value. *)
Definition fu_xmlb_builder_insert_kv (bn : XbBuilderNode) (key : string)
    (value : option string) : XbBuilderNode :=
  match value with
  | None => bn
  | Some value => xb_builder_node_insert_text bn key value
  end.

(** [fu_xmlb_builder_insert_kx]; [value] is a [guint64]. *)
Definition fu_xmlb_builder_insert_kx (bn : XbBuilderNode) (key : string) (value : Z)
    : XbBuilderNode :=
  if value =? 0 then bn
  else xb_builder_node_insert_text bn key (fmt_0x value).

(** [fu_xmlb_builder_insert_kb]. *)
Definition fu_xmlb_builder_insert_kb (bn : XbBuilderNode) (key : string) (value : bool)
    : XbBuilderNode :=
  xb_builder_node_insert_text bn key (if value then "true" else "false").

(** [FuAcpiTablePrivate]. *)
Record FuAcpiTablePrivate := mkAcpiPriv {
  acpi_revision : Z;
  acpi_oem_id : option string;
  acpi_oem_table_id : option string;
  acpi_oem_revision : Z
}.

(** [fu_acpi_table_export]. *)
Definition fu_acpi_table_export (priv : FuAcpiTablePrivate) (bn : XbBuilderNode)
    : XbBuilderNode :=
  let bn := fu_xmlb_builder_insert_kx bn "revision" (acpi_revision priv) in
  let bn := fu_xmlb_builder_insert_kv bn "oem_id" (acpi_oem_id priv) in
  let bn := fu_xmlb_builder_insert_kv bn "oem_table_id" (acpi_oem_table_id priv) in
  fu_xmlb_builder_insert_kx bn "oem_revision" (acpi_oem_revision priv).

(** What the getters of the generated [FuStructAcpiTable] give, and the
    length [st->len] of its buffer. *)
Record FuStructAcpiTable := mkStructAcpiTable {
  struct_signature : option string;
  struct_length : Z;
  struct_revision : Z;
  struct_checksum : Z;
  struct_oem_id : option string;
  struct_oem_table_id : option string;
  struct_oem_revision : Z;
  struct_len : Z
}.

Section AcpiTable.

(** The generated fu-acpi-table-struct.c, fu-input-stream.c and fu-firmware.h
    are not among the sources: the parser of the header, the sum of the bytes
    of a stream and the flag of the parse are taken as given. *)
Variable fu_struct_acpi_table_parse_stream : GInputStream -> Z -> result FuStructAcpiTable.
Variable fu_input_stream_compute_sum8 : GInputStream -> result Z.
Variable FU_FIRMWARE_PARSE_FLAG_IGNORE_CHECKSUM : Z.

(** [fu_acpi_table_parse]: the outcome, the instance data of the firmware
    and that of the table. *)
Definition fu_acpi_table_parse (firmware : FuFirmwarePrivate) (priv : FuAcpiTablePrivate)
    (stream : GInputStream) (flags : Z)
    : result unit * FuFirmwarePrivate * FuAcpiTablePrivate :=
  (* parse *)
  match fu_struct_acpi_table_parse_stream stream 0 with
  | Err e => (Err e, firmware, priv)
  | Ok st =>
      let firmware :=
        if g_strcmp0 (priv_id firmware) (struct_signature st) =? 0 then firmware
        else with_id (struct_signature st) firmware in
      let priv := mkAcpiPriv (struct_revision st) (struct_oem_id st)
                    (struct_oem_table_id st) (struct_oem_revision st) in
      (* length *)
      let length := struct_length st in
      match fu_input_stream_size stream with
      | Err e => (Err e, firmware, priv)
      | Ok streamsz =>
          if (streamsz <? length) || (length <? struct_len st) then
            (Err (mkGError FWUPD_ERROR_INVALID_DATA
                    ("table length not valid: got " +:+ fmt_0x streamsz +:+
                     " but expected " +:+ fmt_0x length)), firmware, priv)
          else
            let firmware := fu_firmware_set_size length firmware in
            (* checksum *)
            if Z.land flags FU_FIRMWARE_PARSE_FLAG_IGNORE_CHECKSUM =? 0 then
              match fu_input_stream_compute_sum8 stream with
              | Err e => (Err e, firmware, priv)
              | Ok checksum_actual =>
                  if negb (checksum_actual =? 0) then
                    (Err (mkGError FWUPD_ERROR_INTERNAL
                            ("CRC failed, expected " +:+
                             fmt_02x (struct_checksum st - checksum_actual) +:+
                             ", got " +:+ fmt_02x (struct_checksum st))), firmware, priv)
                  else (Ok tt, firmware, priv)
              end
            else (Ok tt, firmware, priv)
      end
  end.

End AcpiTable.

(** ** The SPI transfer of the CH341A (fu-ch341a-device.c) *)

Definition CH341A_EP_OUT : Z := 0x02.
Definition CH341A_EP_IN : Z := 0x82.

Section Ch341a.

(** fu-usb-device.c and the generated fu-ch341a-struct.h are not among the
    sources. [Device] is the state of the USB device;
    [fu_usb_device_bulk_transfer] on an endpoint and a buffer gives the
    number of bytes transferred or an error, the buffer as the transfer
    leaves it, and the state of the device afterwards. *)
Variable Device : Type.
Variable fu_usb_device_bulk_transfer :
  Device -> Z -> list Z -> result Z * list Z * Device.
Variable FU_CH341A_CMD_SPI_STREAM : Z.

(** [fu_ch341a_device_write]. *)
Definition fu_ch341a_device_write (self : Device) (buf : list Z)
    : result unit * list Z * Device :=
  let bufsz := Z.of_nat (length buf) in
  match fu_usb_device_bulk_transfer self CH341A_EP_OUT buf with
  | (Err e, buf, self) =>
      (Err (g_prefix_error ("failed to write " +:+ fmt_0x bufsz +:+ " bytes: ") e), buf, self)
  | (Ok actual_length, buf, self) =>
      if negb (bufsz =? actual_length) then
        (Err (mkGError FWUPD_ERROR_INTERNAL
                ("only wrote " +:+ fmt_0x actual_length +:+ " of " +:+ fmt_0x bufsz)),
         buf, self)
      else (Ok tt, buf, self)
  end.

(** [fu_ch341a_device_read]. *)
Definition fu_ch341a_device_read (self : Device) (buf : list Z)
    : result unit * list Z * Device :=
  let bufsz := Z.of_nat (length buf) in
  match fu_usb_device_bulk_transfer self CH341A_EP_IN buf with
  | (Err e, buf, self) =>
      (Err (g_prefix_error ("failed to read " +:+ fmt_0x bufsz +:+ " bytes: ") e), buf, self)
  | (Ok actual_length, buf, self) =>
      if negb (bufsz =? actual_length) then
        (Err (mkGError FWUPD_ERROR_INTERNAL
                ("only read " +:+ fmt_0x actual_length +:+ " of " +:+ fmt_0x bufsz)),
         buf, self)
      else (Ok tt, buf, self)
  end.

(** [fu_ch341a_device_spi_transfer]: the outcome, the buffer [buf] of the
    caller afterwards and the state of the device. *)
Definition fu_ch341a_device_spi_transfer (self : Device) (buf : list Z)
    : result unit * list Z * Device :=
  (* requires LSB first *)
  let buf2 := FU_CH341A_CMD_SPI_STREAM :: map fu_ch341a_device_reverse_uint8 buf in
  match fu_ch341a_device_write self buf2 with
  | (Err e, _, self) => (Err e, buf, self)
  | (Ok _, _, self) =>
      match fu_ch341a_device_read self buf with
      | (Err e, buf, self) => (Err e, buf, self)
      | (Ok _, buf, self) =>
          (* requires LSB first *)
          (Ok tt, map fu_ch341a_device_reverse_uint8 buf, self)
      end
  end.

End Ch341a.

(** ** Specification functions *)

(** What the patch loop computes, as a function of the bytes alone: the
    outcome and the bytes of the array when the loop ends. *)
Fixpoint patch_data (m : mem) (data : list byte) (patches : list FuFirmwarePatch)
    : result unit * list byte :=
  match patches with
  | [] => (Ok tt, data)
  | ptch :: rest =>
      let src := mem_data m (ptch_blob ptch) in
      if Z.of_nat (length data) <? ptch_offset ptch + Z.of_nat (length src) then
        (Err (g_prefix_error
                ("failed to apply patch @" +:+ fmt_0x (ptch_offset ptch) +:+ ": ")
                (fu_memchk_write_error (Z.of_nat (length data)) (ptch_offset ptch)
                   (Z.of_nat (length src)))), data)
      else patch_data m (overwrite data (Z.to_nat (ptch_offset ptch)) src) rest
  end.

(** The replacement range of a patch ends within a buffer of [len] bytes. *)
Definition patch_in_range (m : mem) (len : nat) (ptch : FuFirmwarePatch) : bool :=
  ptch_offset ptch + g_bytes_get_size m (ptch_blob ptch) <=? Z.of_nat len.

Definition is_live (m : mem) (a : positive) : bool :=
  match m !! a with Some _ => true | None => false end.

(** A patch as [fu_firmware_add_patch] gets it: the offset is a [gsize] and
    the blob a live [GBytes]. *)
Definition patch_wf (m : mem) (ptch : FuFirmwarePatch) : bool :=
  (0 <=? ptch_offset ptch) && is_live m (ptch_blob ptch).

(** The buffer of an object is a live [GBytes], and so are its patches. *)
Definition payload_wf (m : mem) (priv : FuFirmwarePrivate) : bool :=
  match priv_bytes priv with Some b => is_live m b | None => true end &&
  forallb (patch_wf m) (default [] (priv_patches priv)).

(** Two calls returned the same: the same error, or [GBytes] of equal bytes. *)
Definition same_payload (r1 : result positive * mem) (r2 : result positive * mem) : Prop :=
  match r1, r2 with
  | (Ok a1, m1), (Ok a2, m2) =>
      is_Some (m1 !! a1) /\ is_Some (m2 !! a2) /\ mem_data m1 a1 = mem_data m2 a2
  | (Err e1, _), (Err e2, _) => e1 = e2
  | _, _ => False
  end.

(** The key under which [fu_firmware_add_patch] looks a patch up. *)
Definition patch_key (m : mem) (ptch : FuFirmwarePatch) : Z * Z :=
  (ptch_offset ptch, g_bytes_get_size m (ptch_blob ptch)).

(** The probe chain, candidate by candidate. *)

Section ProbeFailures.

Variable g_format_size : Z -> string.
Variable g_format_size_full : Z -> string.
Variable stream : GInputStream.
Variable offset flags : Z.

(** Every candidate of [gtypes] fails to parse, one after the other from the
    store [m] on: the errors in the order of the candidates, and the store
    left. [None] when some candidate parses. *)
Fixpoint parse_failures (gtypes : list FuFirmwareClass) (m : mem)
    : option (list GError * mem) :=
  match gtypes with
  | [] => Some ([], m)
  | gtype :: rest =>
      match fu_firmware_parse_stream g_format_size g_format_size_full gtype
              (klass_init gtype fu_firmware_init) stream offset flags m with
      | (Err e, _, m1) =>
          match parse_failures rest m1 with
          | Some (errors, m2) => Some (e :: errors, m2)
          | None => None
          end
      | (Ok _, _, _) => None
      end
  end.

End ProbeFailures.

(** How the loop folds one more failure into [error_all]. *)
Definition aggregate (error_all : option GError) (error_local : GError) : option GError :=
  Some match error_all with
       | None => error_local
       | Some e => g_prefix_error (message error_local +:+ ": ") e
       end.

(** The address [g_bytes_new] hands out inside
    [fu_firmware_get_bytes_with_patches], while the array is still live. *)
Definition patched_addr (m : mem) : positive :=
  fresh (dom (<[fresh (dom m) := ([] : list byte)]> m)).

(** At most one of the two payload representations is set. *)
Definition payload_exclusive (priv : FuFirmwarePrivate) : bool :=
  match priv_bytes priv, priv_stream priv with
  | Some _, Some _ => false
  | _, _ => true
  end.

(** A hook leaves the done-parsing flag set; the API has no call that clears
    a flag. *)
Definition hook_keeps_done
    (hook : FuFirmwarePrivate -> GInputStream -> Z -> mem -> hook_result) : Prop :=
  forall self stream flags (m : mem),
    fu_firmware_has_flag self FU_FIRMWARE_FLAG_DONE_PARSE = true ->
    fu_firmware_has_flag (snd (fst (hook self stream flags m)))
      FU_FIRMWARE_FLAG_DONE_PARSE = true.

Definition klass_keeps_done (klass : FuFirmwareClass) : Prop :=
  (forall hook, klass_tokenize klass = Some hook -> hook_keeps_done hook) /\
  (forall hook, klass_parse klass = Some hook -> hook_keeps_done hook).

(** The hook made to fail, untouched, on an object whose done-parsing flag is
    clear. *)
Definition guard_done
    (hook : FuFirmwarePrivate -> GInputStream -> Z -> mem -> hook_result)
    : FuFirmwarePrivate -> GInputStream -> Z -> mem -> hook_result :=
  fun self stream flags m =>
    if fu_firmware_has_flag self FU_FIRMWARE_FLAG_DONE_PARSE then hook self stream flags m
    else (Err (mkGError FWUPD_ERROR_INTERNAL "hook called before done-parsing was set"),
          self, m).

Definition guarded_class (klass : FuFirmwareClass) : FuFirmwareClass :=
  mkClass (klass_init klass) (klass_check_compatible klass) (klass_validate klass)
    (option_map guard_done (klass_tokenize klass))
    (option_map guard_done (klass_parse klass)).

(** The parse is turned down before its done-parsing mark: by the size check,
    the validation, or the zero-size and [size_max] checks. *)
Definition rejected_early (klass : FuFirmwareClass) (self : FuFirmwarePrivate)
    (stream : GInputStream) (offset flags : Z) : bool :=
  match fu_input_stream_size stream with
  | Err _ => true
  | Ok streamsz =>
      (streamsz <=? offset) ||
      match fu_firmware_validate_for_offset klass self stream offset flags with
      | (Err _, _) => true
      | (Ok offset', self') =>
          (streamsz - offset' =? 0) ||
          ((0 <? priv_size_max self') && (priv_size_max self' <? streamsz - offset'))
      end
  end.

Definition reused_error : GError :=
  mkGError FWUPD_ERROR_NOT_SUPPORTED "firmware object cannot be reused".

(** From its done-parsing mark on, the parse as a function of the marked
    object [self], the offset validated and the size of the whole stream. *)
Definition parse_marked (g_format_size_full : Z -> string) (klass : FuFirmwareClass)
    (self : FuFirmwarePrivate) (stream : GInputStream) (streamsz offset flags : Z) (m : mem)
    : hook_result :=
  match (if offset =? 0 then Ok stream
         else match fu_partial_input_stream_new stream offset (priv_streamsz self) with
              | Err e => Err (g_prefix_error "failed to cut firmware: " e)
              | Ok partial_stream => Ok partial_stream
              end) with
  | Err e => (Err e, self, m)
  | Ok partial_stream =>
  match (if flag_set flags FU_FIRMWARE_PARSE_FLAG_CACHE_BLOB then
           match fu_input_stream_read_bytes partial_stream 0 (priv_streamsz self) m with
           | (Err e, m) => (Err e, self, m)
           | (Ok blob, m) => (Ok tt, fu_firmware_set_bytes blob self, m)
           end
         else (Ok tt, self, m)) with
  | (Err e, self, m) => (Err e, self, m)
  | (Ok _, self, m) =>
  let self :=
    if flag_set flags FU_FIRMWARE_PARSE_FLAG_CACHE_STREAM
    then with_stream (Some partial_stream) self else self in
  match (match klass_tokenize klass with
         | Some tokenize => tokenize self partial_stream flags m
         | None => (Ok tt, self, m)
         end) with
  | (Err e, self, m) => (Err e, self, m)
  | (Ok _, self, m) =>
  match klass_parse klass with
  | Some parse => parse self partial_stream flags m
  | None => (verify_alignment g_format_size_full self streamsz, self, m)
  end end end end.

(** The object the parse marks: the stream size saved, the done-parsing flag
    and, with a [check_compatible] hook, its flag. *)
Definition marked (klass : FuFirmwareClass) (self : FuFirmwarePrivate) (streamsz : Z)
    : FuFirmwarePrivate :=
  let self := fu_firmware_add_flag FU_FIRMWARE_FLAG_DONE_PARSE (with_streamsz streamsz self) in
  if klass_check_compatible klass
  then fu_firmware_add_flag FU_FIRMWARE_FLAG_HAS_CHECK_COMPATIBLE self else self.

(** The images of [priv] once the dedupe loops for [img] have run. *)
Definition deduped (h : heap) (priv : FuFirmwarePrivate) (img : positive) : list positive :=
  let images := priv_images priv in
  let images :=
    if flag_set (priv_flags priv) FU_FIRMWARE_FLAG_DEDUPE_ID then
      remove_first
        (fun img_tmp =>
           g_strcmp0 (fu_firmware_get_id h img_tmp) (fu_firmware_get_id h img) =? 0)
        images
    else images in
  if flag_set (priv_flags priv) FU_FIRMWARE_FLAG_DEDUPE_IDX then
    remove_first
      (fun img_tmp => fu_firmware_get_idx h img_tmp =? fu_firmware_get_idx h img)
      images
  else images.

Definition too_deep_error : GError :=
  mkGError FWUPD_ERROR_INVALID_DATA "images are nested too deep, limit is 50".


(** ** Sample objects, stores and classes *)

(** The buffer [00 01 02 03], a patch [ff] at offset 1 and a patch [aa bb] at
    offset 7, which is past the end. *)
Definition ex_patch_mem : mem :=
  <[3%positive := [xaa; xbb]]> (<[2%positive := [xff]]>
    (<[1%positive := [x00; x01; x02; x03]]> ∅)).

Definition ex_patch_priv : FuFirmwarePrivate :=
  fu_firmware_add_patch 7 3%positive ex_patch_mem
    (fu_firmware_add_patch 1 2%positive ex_patch_mem
       (fu_firmware_set_bytes 1%positive fu_firmware_init)).

(** An object holding a stream of three bytes, no buffer, and one patch. *)
Definition ex_stream_priv : FuFirmwarePrivate :=
  fu_firmware_add_patch 0 2%positive ex_patch_mem
    (snd (fu_firmware_set_stream (Some (mkStream [x10; x11; x12] true)) fu_firmware_init)).

(** Over [00 01 02 03]: the patch [ff] at offset 1, then the patch [ee] at the
    same offset. *)
Definition ex_repatch_mem : mem := <[4%positive := [xee]]> ex_patch_mem.

Definition ex_repatch_priv : FuFirmwarePrivate :=
  fu_firmware_set_bytes 1%positive fu_firmware_init.

Definition ex_stream3 : GInputStream := mkStream [x10; x11; x12] true.

(** [fu_firmware_set_bytes] and then [fu_firmware_set_stream]. *)
Definition ex_bytes_then_stream : FuFirmwarePrivate :=
  snd (fu_firmware_set_stream (Some ex_stream3)
         (fu_firmware_set_bytes 1%positive fu_firmware_init)).

(** Eight zero bytes, and their parse with both cache flags. *)
Definition ex_stream8 : GInputStream := mkStream (repeat x00 8) true.

Definition ex_parse_cached : hook_result :=
  fu_firmware_parse_stream (fun _ => EmptyString) (fun _ => EmptyString) fu_firmware_class
    fu_firmware_init ex_stream8 0
    (Z.lor FU_FIRMWARE_PARSE_FLAG_CACHE_BLOB FU_FIRMWARE_PARSE_FLAG_CACHE_STREAM) ∅.

(** A raw object with alignment 2, that is 4 bytes, as [fu_firmware_new] and
    [fu_firmware_set_alignment] leave it, and streams of [n] zero bytes. *)
Definition ex_raw_aligned4 : FuFirmwarePrivate := with_alignment 2 fu_firmware_init.

Definition ex_zeros (n : nat) : GInputStream := mkStream (repeat x00 n) true.

Definition ex_parse_raw (n : nat) (offset : Z) : result unit :=
  fst (fst (fu_firmware_parse_stream (fun _ => EmptyString) (fun _ => EmptyString)
              fu_firmware_class ex_raw_aligned4 (ex_zeros n) offset
              FU_FIRMWARE_PARSE_FLAG_NONE ∅)).

(** An object whose tokenize hook fails. *)
Definition ex_failing_class : FuFirmwareClass :=
  mkClass (fun priv => priv) false None
    (Some (fun self _ _ m => (Err (mkGError FWUPD_ERROR_INVALID_DATA "bad record"), self, m)))
    None.

(** A format that validates by the first byte at the offset. *)
Definition ex_magic_class (magic : byte) (rejection : string) : FuFirmwareClass :=
  mkClass (fun priv => priv) false
    (Some (fun _ stream offset =>
             match st_data stream !! Z.to_nat offset with
             | Some b =>
                 if Byte.eqb b magic then Ok tt
                 else Err (mkGError FWUPD_ERROR_INVALID_FILE rejection)
             | None => Err (mkGError FWUPD_ERROR_INVALID_FILE rejection)
             end))
    None None.

Definition ex_class_a : FuFirmwareClass := ex_magic_class x41 "not an A image".
Definition ex_class_b : FuFirmwareClass := ex_magic_class x42 "not a B image".
Definition ex_class_c : FuFirmwareClass := ex_magic_class x43 "not a C image".

Definition ex_stream_b : GInputStream := mkStream [x42; x00; x00; x00] true.

Definition ex_probe (stream : GInputStream)
    : option (FuFirmwareClass * FuFirmwarePrivate) * option GError * mem :=
  fu_firmware_new_from_gtypes (fun _ => EmptyString) (fun _ => EmptyString) stream 0
    FU_FIRMWARE_PARSE_FLAG_NO_SEARCH [ex_class_a; ex_class_b; ex_class_c] ∅.

(** Over [00 01 02 03]: the patch [ff] at the offset 2^32 + 1. *)
Definition ex_far_priv : FuFirmwarePrivate :=
  fu_firmware_add_patch (2 ^ 32 + 1) 2%positive ex_patch_mem
    (fu_firmware_set_bytes 1%positive fu_firmware_init).

(** Over [00 01 02 03] in [ex_repatch_mem]: the patch [ff] at offset 0, then
    the patch [aa bb] at the same offset. *)
Definition ex_two_patches_priv : FuFirmwarePrivate :=
  fu_firmware_add_patch 0 3%positive ex_repatch_mem
    (fu_firmware_add_patch 0 2%positive ex_repatch_mem
       (fu_firmware_set_bytes 1%positive fu_firmware_init)).

(** A parent with the dedupe-by-id flag and the images "y", "x" and "z", and
    two more objects with the id "x". *)
Definition ex_replace_heap : heap :=
  <[6%positive := with_id (Some "x"%string) fu_firmware_init]>
    (<[5%positive := with_id (Some "x"%string) fu_firmware_init]>
       (<[4%positive := with_id (Some "z"%string) fu_firmware_init]>
          (<[3%positive := with_id (Some "x"%string) fu_firmware_init]>
             (<[2%positive := with_id (Some "y"%string) fu_firmware_init]>
                (<[1%positive := with_images [2%positive; 3%positive; 4%positive]
                                   (fu_firmware_add_flag FU_FIRMWARE_FLAG_DEDUPE_ID
                                      fu_firmware_init)]> ∅))))).

(** A heap with one object, the root. *)
Definition ex_root_heap : heap := <[1%positive := fu_firmware_init]> ∅.

(** A parent with both dedupe flags and two objects with the id "x" and the
    idx 7. *)
Definition ex_dedupe_heap : heap :=
  <[3%positive := with_idx 7 (with_id (Some "x"%string) fu_firmware_init)]>
    (<[2%positive := with_idx 7 (with_id (Some "x"%string) fu_firmware_init)]>
       (<[1%positive := fu_firmware_add_flag FU_FIRMWARE_FLAG_DEDUPE_IDX
                          (fu_firmware_add_flag FU_FIRMWARE_FLAG_DEDUPE_ID fu_firmware_init)]>
          ∅)).

(** A firmware with the images "boot.bin", "app.elf" and one without id. *)
Definition ex_images_heap : heap :=
  <[4%positive := fu_firmware_init]>
    (<[3%positive := with_id (Some "app.elf"%string) fu_firmware_init]>
       (<[2%positive := with_id (Some "boot.bin"%string) fu_firmware_init]>
          (<[1%positive := with_images [2%positive; 3%positive; 4%positive] fu_firmware_init]>
             ∅))).


(** A parent that takes one image at most, and an object to add to it. *)
Definition ex_limited_heap : heap :=
  <[2%positive := fu_firmware_init]>
    (<[1%positive := with_images_max 1 fu_firmware_init]> ∅).

(** A stream with the magic of [ex_class_b] at offset 2, and the validator of
    that class. *)
Definition ex_magic_stream : GInputStream := mkStream [x00; x41; x42; x42] true.

Definition ex_validate_b : FuFirmwarePrivate -> GInputStream -> Z -> result unit :=
  match klass_validate ex_class_b with
  | Some validate => validate
  | None => fun _ _ _ => Ok tt
  end.

(** The blob [00 01 02 03] of [ex_patch_mem] parsed from offset 1 on, with
    the cache-blob flag. *)
Definition ex_parse_blob : hook_result :=
  fu_firmware_parse_bytes (fun _ => EmptyString) (fun _ => EmptyString) fu_firmware_class
    fu_firmware_init 1%positive 1 FU_FIRMWARE_PARSE_FLAG_CACHE_BLOB ex_patch_mem.

(** A device with an SPI loop-back: it keeps the bytes written to it after
    the command byte and returns them at the next read. *)
Definition ex_loopback (self : list Z) (endpoint : Z) (buf : list Z)
    : result Z * list Z * list Z :=
  if endpoint =? CH341A_EP_OUT then (Ok (Z.of_nat (length buf)), buf, tail buf)
  else (Ok (Z.of_nat (length self)), self, []).


(** ** The byte store: allocation and framing *)

Lemma mem_fresh (m : mem) : m !! fresh (dom m) = None.
Proof. apply not_elem_of_dom, is_fresh. Qed.

Lemma mem_data_insert_eq (m : mem) a d : mem_data (<[a := d]> m) a = d.
Proof. unfold mem_data. by rewrite lookup_insert_eq. Qed.

Lemma mem_data_insert_ne (m : mem) a b d : a <> b -> mem_data (<[a := d]> m) b = mem_data m b.
Proof. intros. unfold mem_data. by rewrite lookup_insert_ne. Qed.

Lemma is_live_Some (m : mem) a : is_live m a = true -> is_Some (m !! a).
Proof. unfold is_live. destruct (m !! a); [eauto | discriminate]. Qed.

Lemma is_live_insert (m : mem) a b d : is_live m a = true -> is_live (<[b := d]> m) a = true.
Proof.
  unfold is_live. destruct (decide (b = a)) as [->|Hne].
  - by rewrite lookup_insert_eq.
  - by rewrite lookup_insert_ne.
Qed.

Lemma live_ne_dead (m : mem) a b : is_live m a = true -> m !! b = None -> b <> a.
Proof. intros Ha Hb ->. unfold is_live in Ha. rewrite Hb in Ha. discriminate. Qed.

Lemma patch_data_ext (m m' : mem) patches :
  (forall ptch, ptch ∈ patches -> mem_data m' (ptch_blob ptch) = mem_data m (ptch_blob ptch)) ->
  forall data, patch_data m' data patches = patch_data m data patches.
Proof.
  induction patches as [|ptch rest IH]; intros Hblobs data; simpl; [done|].
  rewrite (Hblobs ptch) by apply list_elem_of_here.
  destruct (_ <? _); [done|].
  apply IH. intros p Hp. apply Hblobs. by apply list_elem_of_further.
Qed.

(** The loop over the store is [patch_data] over the bytes of [buf], as long
    as no blob is the array itself. *)
Lemma apply_patches_patch_data buf patches :
  (forall ptch, ptch ∈ patches -> ptch_blob ptch <> buf) ->
  forall (m : mem) data, m !! buf = Some data ->
    apply_patches buf patches m =
      (fst (patch_data m data patches), <[buf := snd (patch_data m data patches)]> m).
Proof.
  induction patches as [|ptch rest IH]; intros Hne m data Hbuf; simpl.
  - by rewrite insert_id.
  - assert (Hd : mem_data m buf = data) by (unfold mem_data; by rewrite Hbuf).
    unfold fu_memcpy_safe, g_bytes_get_size. rewrite Hd.
    replace (Z.of_nat (length (mem_data m (ptch_blob ptch))) <?
             0 + Z.of_nat (length (mem_data m (ptch_blob ptch)))) with false
      by (symmetry; apply Z.ltb_ge; lia).
    destruct (Z.of_nat (length data) <? _) eqn:Hrange; simpl.
    + by rewrite insert_id.
    + rewrite Nat2Z.id, drop_0, firstn_all.
      set (data' := overwrite data _ _).
      rewrite (IH (fun p Hp => Hne p (list_elem_of_further _ _ _ Hp))
                 (<[buf := data']> m) data') by apply lookup_insert_eq.
      rewrite insert_insert_eq.
      rewrite (patch_data_ext m (<[buf := data']> m)); [done|].
      intros p Hp. apply mem_data_insert_ne. intros Heq.
      apply (Hne p); [by apply list_elem_of_further | done].
Qed.

(** ** Payload with patches *)

Lemma patched_addr_fresh (m : mem) : m !! patched_addr m = None.
Proof.
  unfold patched_addr.
  pose proof (mem_fresh (<[fresh (dom m) := []]> m)) as H.
  destruct (decide (fresh (dom m) = fresh (dom (<[fresh (dom m) := []]> m)))) as [Heq|Hne].
  - rewrite <- Heq in H. by rewrite lookup_insert_eq in H.
  - by rewrite lookup_insert_ne in H.
Qed.

Lemma patched_addr_ne_buf (m : mem) : fresh (dom m) <> patched_addr m.
Proof.
  unfold patched_addr. intros Heq.
  pose proof (mem_fresh (<[fresh (dom m) := []]> m)) as H.
  rewrite <- Heq in H. by rewrite lookup_insert_eq in H.
Qed.

Lemma dom_insert_same_key (m : mem) a (d d' : list byte) :
  dom (<[a := d]> m) = dom (<[a := d']> m).
Proof. by rewrite !dom_insert_L. Qed.

Lemma payload_wf_bytes (m : mem) priv b :
  payload_wf m priv = true -> priv_bytes priv = Some b -> is_live m b = true.
Proof. unfold payload_wf. intros H Hb. rewrite Hb in H. by apply andb_prop in H as [? _]. Qed.

Lemma payload_wf_patches (m : mem) priv patches :
  payload_wf m priv = true -> priv_patches priv = Some patches ->
  Forall (fun ptch => 0 <= ptch_offset ptch /\ is_live m (ptch_blob ptch) = true) patches.
Proof.
  unfold payload_wf. intros H Hp. rewrite Hp in H. apply andb_prop in H as [_ H].
  simpl in H. rewrite forallb_forall in H. apply Forall_forall. intros p Hin.
  apply list_elem_of_In, H in Hin. unfold patch_wf in Hin.
  apply andb_prop in Hin as [H0 Hl]. split; [lia | done].
Qed.

Lemma payload_wf_insert (m : mem) priv a d :
  payload_wf m priv = true -> payload_wf (<[a := d]> m) priv = true.
Proof.
  unfold payload_wf. intros H. apply andb_prop in H as [Hb Hp].
  apply andb_true_intro. split.
  - destruct (priv_bytes priv); [by apply is_live_insert | done].
  - rewrite forallb_forall in Hp. apply forallb_forall. intros p Hin.
    specialize (Hp p Hin). unfold patch_wf in *. apply andb_prop in Hp as [H0 Hl].
    rewrite H0. simpl. by apply is_live_insert.
Qed.

(** With a buffer and a patch list, the call returns a new [GBytes] holding
    [patch_data] of the buffer, and leaves every other address as it was; when
    a patch fails the store is as before the call. *)
Lemma get_bytes_with_patches_patched priv (m : mem) b patches :
  priv_bytes priv = Some b ->
  priv_patches priv = Some patches ->
  payload_wf m priv = true ->
  fu_firmware_get_bytes_with_patches priv m =
    match patch_data m (mem_data m b) patches with
    | (Ok _, data) => (Ok (patched_addr m), <[patched_addr m := data]> m)
    | (Err e, _) => (Err e, m)
    end.
Proof.
  intros Hb Hp Hwf.
  pose proof (payload_wf_bytes m priv b Hwf Hb) as Hlb.
  pose proof (payload_wf_patches m priv patches Hwf Hp) as Hlp.
  rewrite Forall_forall in Hlp.
  unfold fu_firmware_get_bytes_with_patches, g_byte_array_new, mem_alloc.
  rewrite Hb, Hp. set (buf := fresh (dom m)).
  assert (Hbuf : m !! buf = None) by apply mem_fresh.
  assert (Hbne : buf <> b) by (by apply (live_ne_dead m)).
  assert (Hpne : forall p, p ∈ patches -> ptch_blob p <> buf).
  { intros p Hin Heq. destruct (Hlp p Hin) as [_ Hl].
    by apply (live_ne_dead m _ buf Hl Hbuf). }
  unfold fu_byte_array_append_bytes.
  rewrite mem_data_insert_eq, (mem_data_insert_ne _ buf b) by done.
  rewrite insert_insert_eq. simpl.
  rewrite (apply_patches_patch_data buf patches Hpne _ (mem_data m b))
    by apply lookup_insert_eq.
  rewrite (patch_data_ext m (<[buf := mem_data m b]> m)).
  2:{ intros p Hin. apply mem_data_insert_ne. intros Heq. by apply (Hpne p). }
  destruct (patch_data m (mem_data m b) patches) as [[[]|e] data]; simpl.
  - rewrite insert_insert_eq, mem_data_insert_eq.
    unfold g_bytes_new, mem_alloc, g_byte_array_unref.
    rewrite (dom_insert_same_key m buf data []). fold buf. fold (patched_addr m).
    rewrite delete_insert_ne by apply patched_addr_ne_buf.
    by rewrite delete_insert_id.
  - unfold g_byte_array_unref. rewrite insert_insert_eq. by rewrite delete_insert_id.
Qed.

(** Without a patch list the call returns the buffer itself. *)
Lemma get_bytes_with_patches_no_patches priv (m : mem) b :
  priv_bytes priv = Some b ->
  priv_patches priv = None ->
  fu_firmware_get_bytes_with_patches priv m = (Ok b, m).
Proof.
  intros Hb Hp.
  unfold fu_firmware_get_bytes_with_patches, g_byte_array_new, mem_alloc, fu_firmware_get_bytes.
  rewrite Hb, Hp. unfold g_byte_array_unref. by rewrite delete_insert_id by apply mem_fresh.
Qed.

Lemma overwrite_length (data src : list byte) (off : nat) :
  (off + length src <= length data)%nat -> length (overwrite data off src) = length data.
Proof. intros. unfold overwrite. rewrite !length_app, length_take, length_drop. lia. Qed.

(** [patch_data] stops at the first patch that is out of range, with the
    offset of that patch in front of the message. *)
Lemma patch_data_first_out_of_range (m : mem) pre ptch post :
  forall data,
    Forall (fun p => 0 <= ptch_offset p) pre ->
    forallb (patch_in_range m (length data)) pre = true ->
    patch_in_range m (length data) ptch = false ->
    exists inner,
      fst (patch_data m data (pre ++ ptch :: post)) =
        Err (mkGError FWUPD_ERROR_WRITE
               (("failed to apply patch @" +:+ fmt_0x (ptch_offset ptch) +:+ ": ") +:+ inner)).
Proof.
  induction pre as [|p pre IH]; intros data Hwf Hpre Hout; simpl.
  - unfold patch_in_range, g_bytes_get_size in Hout. apply Z.leb_gt in Hout.
    destruct (_ <? _) eqn:Hlt.
    + eexists. simpl. reflexivity.
    + apply Z.ltb_ge in Hlt. lia.
  - simpl in Hpre. apply andb_prop in Hpre as [Hp Hrest].
    inversion Hwf as [|? ? Hp0 Hwf']; subst.
    unfold patch_in_range, g_bytes_get_size in Hp. apply Z.leb_le in Hp.
    destruct (_ <? _) eqn:Hlt; [apply Z.ltb_lt in Hlt; lia|].
    assert (Hlen : length (overwrite data (Z.to_nat (ptch_offset p))
                             (mem_data m (ptch_blob p))) = length data)
      by (apply overwrite_length; lia).
    apply IH; [done | by rewrite Hlen | by rewrite Hlen].
Qed.

(** A list with a patch out of range splits at the first such patch. *)
Lemma first_out_of_range (m : mem) (len : nat) patches :
  forallb (patch_in_range m len) patches = false ->
  exists pre ptch post,
    patches = pre ++ ptch :: post /\
    forallb (patch_in_range m len) pre = true /\
    patch_in_range m len ptch = false.
Proof.
  induction patches as [|p rest IH]; simpl; [discriminate|].
  destruct (patch_in_range m len p) eqn:Hp; simpl.
  - intros H. destruct (IH H) as (pre & ptch & post & -> & Hpre & Hout).
    exists (p :: pre), ptch, post. simpl. rewrite Hp. done.
  - intros _. exists [], p, rest. done.
Qed.

Lemma fmt_0x_guint (x : Z) : 0 <= x < 2 ^ 32 -> fmt_0x x = HexString.of_Z x.
Proof. intros H. unfold fmt_0x, to_guint. by rewrite Z.mod_small. Qed.

Lemma same_payload_after_insert (m : mem) priv b patches :
  priv_bytes priv = Some b ->
  priv_patches priv = Some patches ->
  payload_wf m priv = true ->
  forall a data, m !! a = None ->
    patch_data (<[a := data]> m) (mem_data (<[a := data]> m) b) patches =
    patch_data m (mem_data m b) patches.
Proof.
  intros Hb Hp Hwf a data Ha.
  pose proof (payload_wf_bytes m priv b Hwf Hb) as Hlb.
  pose proof (payload_wf_patches m priv patches Hwf Hp) as Hlp.
  rewrite Forall_forall in Hlp.
  rewrite mem_data_insert_ne by (by apply (live_ne_dead m)).
  apply patch_data_ext. intros p Hin. apply mem_data_insert_ne.
  destruct (Hlp p Hin) as [_ Hl]. by apply (live_ne_dead m).
Qed.

(** The message of a patch at the offset 2^32 + 1, which is 0x100000001:
    the cast to [guint] leaves 0x1 of it. *)
Lemma patch_offset_truncated_counterexample :
  fst (fu_firmware_get_bytes_with_patches ex_far_priv ex_patch_mem) =
    Err (mkGError FWUPD_ERROR_WRITE
           ("failed to apply patch @0x1: attempted to write 0x1 bytes at offset 0x1, " +:+
            "this would overflow a destination buffer of size 0x4")) /\
  priv_patches ex_far_priv = Some [mkPatch 4294967297 2%positive] /\
  HexString.of_Z 4294967297 = "0x100000001"%string.
Proof. repeat split. Qed.

(** C5, as the code has it: for an object with a byte buffer [b] and any
    patch list, two calls of [fu_firmware_get_bytes_with_patches] in a row
    return the same (the same error, or two [GBytes] with the same bytes),
    the buffer [b] holds after each call what it held before, and when some
    patch ends beyond the buffer the call fails with a message that starts
    with "failed to apply patch @" and the offset of the first such patch as
    [%x] prints it after the cast to [guint]: the low 32 bits of the offset,
    which are the offset itself when it is below 2^32. *)
Theorem get_bytes_with_patches_twice priv (m : mem) b :
  priv_bytes priv = Some b ->
  payload_wf m priv = true ->
  let call1 := fu_firmware_get_bytes_with_patches priv m in
  let call2 := fu_firmware_get_bytes_with_patches priv (snd call1) in
  same_payload call1 call2 /\
  snd call1 !! b = m !! b /\
  snd call2 !! b = m !! b /\
  (forall patches,
     priv_patches priv = Some patches ->
     forallb (patch_in_range m (length (mem_data m b))) patches = false ->
     exists pre ptch post inner,
       patches = pre ++ ptch :: post /\
       forallb (patch_in_range m (length (mem_data m b))) pre = true /\
       patch_in_range m (length (mem_data m b)) ptch = false /\
       fst call1 =
         Err (mkGError FWUPD_ERROR_WRITE
                (("failed to apply patch @" +:+ fmt_0x (ptch_offset ptch) +:+ ": ") +:+ inner)) /\
       fmt_0x (ptch_offset ptch) = HexString.of_Z (ptch_offset ptch mod 2 ^ 32) /\
       (ptch_offset ptch < 2 ^ 32 -> fmt_0x (ptch_offset ptch) = HexString.of_Z (ptch_offset ptch))).
Proof.
  intros Hb Hwf call1 call2.
  pose proof (payload_wf_bytes m priv b Hwf Hb) as Hlb.
  destruct (priv_patches priv) as [patches|] eqn:Hp.
  - pose proof (get_bytes_with_patches_patched priv m b patches Hb Hp Hwf) as H1.
    pose proof (patched_addr_fresh m) as Hfresh.
    assert (Hcases :
      same_payload call1 call2 /\ snd call1 !! b = m !! b /\ snd call2 !! b = m !! b).
    { subst call2 call1. rewrite H1.
      destruct (patch_data m (mem_data m b) patches) as [[[]|e] data] eqn:Hpd; simpl.
      - rewrite (get_bytes_with_patches_patched priv _ b patches Hb Hp)
          by (by apply payload_wf_insert).
        rewrite (same_payload_after_insert m priv b patches Hb Hp Hwf) by done.
        rewrite Hpd. simpl.
        set (m1 := <[patched_addr m := data]> m).
        assert (Hb1 : m1 !! b = m !! b).
        { apply lookup_insert_ne. by apply (live_ne_dead m). }
        assert (Hb2 : <[patched_addr m1 := data]> m1 !! b = m1 !! b).
        { apply lookup_insert_ne. apply (live_ne_dead m1); [|apply patched_addr_fresh].
          subst m1. by apply is_live_insert. }
        split; [|split].
        + split; [subst m1; rewrite lookup_insert_eq; eauto|].
          split; [rewrite lookup_insert_eq; eauto|].
          subst m1. by rewrite !mem_data_insert_eq.
        + done.
        + by rewrite Hb2.
      - rewrite H1. simpl. done. }
    destruct Hcases as (Hsame & Hb1 & Hb2). repeat split; try done.
    intros patches' [= <-] Hout.
    destruct (first_out_of_range m _ patches Hout) as (pre & ptch & post & Hsplit & Hpre & Hptch).
    pose proof (payload_wf_patches m priv patches Hwf Hp) as Hlp.
    assert (Hoff : Forall (fun p => 0 <= ptch_offset p) patches).
    { eapply Forall_impl; [exact Hlp|]. by intros p [? _]. }
    rewrite Hsplit in Hoff. apply Forall_app in Hoff as [Hoffpre Hoffrest].
    inversion Hoffrest as [|? ? Hoffptch _]; subst.
    destruct (patch_data_first_out_of_range m pre ptch post (mem_data m b) Hoffpre Hpre Hptch)
      as [inner Hinner].
    exists pre, ptch, post, inner. repeat split; try done.
    + subst call1. rewrite H1.
      destruct (patch_data m (mem_data m b) (pre ++ ptch :: post)) as [[[]|e] data];
        simpl in *; congruence.
    + intros Hlt. apply fmt_0x_guint. lia.
  - pose proof (get_bytes_with_patches_no_patches priv m b Hb Hp) as H1.
    subst call2 call1. rewrite H1. simpl. rewrite H1. simpl.
    apply is_live_Some in Hlb. repeat split; try done.
Qed.

Lemma get_bytes_with_patches_twice_witness :
  priv_bytes ex_patch_priv = Some 1%positive /\
  payload_wf ex_patch_mem ex_patch_priv = true /\
  same_payload
    (fu_firmware_get_bytes_with_patches ex_patch_priv ex_patch_mem)
    (fu_firmware_get_bytes_with_patches ex_patch_priv
       (snd (fu_firmware_get_bytes_with_patches ex_patch_priv ex_patch_mem))) /\
  exists pre ptch post inner,
    [mkPatch 1 2%positive; mkPatch 7 3%positive] = pre ++ ptch :: post /\
    forallb (patch_in_range ex_patch_mem (length (mem_data ex_patch_mem 1))) pre = true /\
    patch_in_range ex_patch_mem (length (mem_data ex_patch_mem 1)) ptch = false /\
    fst (fu_firmware_get_bytes_with_patches ex_patch_priv ex_patch_mem) =
      Err (mkGError FWUPD_ERROR_WRITE
             (("failed to apply patch @" +:+ fmt_0x (ptch_offset ptch) +:+ ": ") +:+ inner)) /\
    fmt_0x (ptch_offset ptch) = HexString.of_Z (ptch_offset ptch mod 2 ^ 32) /\
    (ptch_offset ptch < 2 ^ 32 -> fmt_0x (ptch_offset ptch) = HexString.of_Z (ptch_offset ptch)).
Proof.
  split; [reflexivity|]. split; [reflexivity|].
  pose proof (get_bytes_with_patches_twice ex_patch_priv ex_patch_mem 1%positive
                eq_refl eq_refl) as H.
  cbv zeta in H. destruct H as (Hsame & _ & _ & Hrange).
  split; [exact Hsame|].
  exact (Hrange [mkPatch 1 2%positive; mkPatch 7 3%positive] eq_refl eq_refl).
Defined.

(** C7: an object with a stream and no buffer gets from
    [fu_firmware_get_bytes_with_patches] what [fu_firmware_get_bytes] gives
    (the same error, or [GBytes] with the same bytes), whatever its patch
    list: the patches are not looked at. *)
Theorem get_bytes_with_patches_stream_only priv (m : mem) stream :
  priv_bytes priv = None ->
  priv_stream priv = Some stream ->
  same_payload (fu_firmware_get_bytes_with_patches priv m) (fu_firmware_get_bytes priv m) /\
  (forall patches,
     fu_firmware_get_bytes_with_patches (with_patches patches priv) m =
     fu_firmware_get_bytes_with_patches priv m).
Proof.
  intros Hb Hs. split.
  - unfold fu_firmware_get_bytes_with_patches, fu_firmware_get_bytes, g_byte_array_new, mem_alloc.
    rewrite Hb, Hs.
    destruct (priv_streamsz priv =? 0); [simpl; done|].
    unfold fu_input_stream_read_bytes, g_bytes_new, mem_alloc.
    destruct (st_seekable stream); [|simpl; done].
    simpl. fold (patched_addr m). unfold g_byte_array_unref.
    rewrite delete_insert_ne by apply patched_addr_ne_buf.
    rewrite delete_insert_id by apply mem_fresh.
    rewrite !lookup_insert_eq, !mem_data_insert_eq. eauto.
  - intros patches. unfold fu_firmware_get_bytes_with_patches, fu_firmware_get_bytes.
    simpl. by rewrite Hb, Hs.
Qed.

Lemma get_bytes_with_patches_stream_only_witness :
  same_payload (fu_firmware_get_bytes_with_patches ex_stream_priv ex_patch_mem)
               (fu_firmware_get_bytes ex_stream_priv ex_patch_mem).
Proof.
  apply (get_bytes_with_patches_stream_only ex_stream_priv ex_patch_mem
           (mkStream [x10; x11; x12] true)); reflexivity.
Defined.

(** ** Adding patches *)

(** What the search of [fu_firmware_add_patch] does to the list: the first
    patch with the key of the new one is replaced where it stands, and without
    such a patch the new one goes to the end. *)
Lemma add_patch_loop_cases (m : mem) offset blob patches :
  (exists pre ptch post,
     patches = pre ++ ptch :: post /\
     patch_key m ptch = (offset, g_bytes_get_size m blob) /\
     Forall (fun p => patch_key m p <> (offset, g_bytes_get_size m blob)) pre /\
     add_patch_loop m offset blob patches = pre ++ mkPatch offset blob :: post) \/
  (Forall (fun p => patch_key m p <> (offset, g_bytes_get_size m blob)) patches /\
   add_patch_loop m offset blob patches = patches ++ [mkPatch offset blob]).
Proof.
  induction patches as [|p rest IH]; simpl.
  - right. split; [constructor | done].
  - destruct ((ptch_offset p =? offset) &&
              (g_bytes_get_size m (ptch_blob p) =? g_bytes_get_size m blob)) eqn:Htest.
    + apply andb_prop in Htest as [Ho Hs].
      apply Z.eqb_eq in Ho. apply Z.eqb_eq in Hs.
      left. exists [], p, rest. simpl. repeat split; try done.
      * unfold patch_key. by rewrite Ho, Hs.
      * by rewrite Ho.
    + assert (Hne : patch_key m p <> (offset, g_bytes_get_size m blob)).
      { unfold patch_key. intros [= Ho Hs]. rewrite Ho, Hs, !Z.eqb_refl in Htest. discriminate. }
      destruct IH as [(pre & ptch & post & -> & Hk & Hpre & ->) | [Hall ->]].
      * left. exists (p :: pre), ptch, post. simpl. repeat split; try done.
        by constructor.
      * right. split; [by constructor | done].
Qed.

Lemma add_patch_loop_twice (m : mem) offset blob1 blob2 patches :
  g_bytes_get_size m blob1 = g_bytes_get_size m blob2 ->
  add_patch_loop m offset blob2 (add_patch_loop m offset blob1 patches) =
  add_patch_loop m offset blob2 patches.
Proof.
  intros Hsz. induction patches as [|p rest IH]; simpl.
  - by rewrite Hsz, !Z.eqb_refl.
  - destruct ((ptch_offset p =? offset) &&
              (g_bytes_get_size m (ptch_blob p) =? g_bytes_get_size m blob1)) eqn:Htest; simpl.
    + rewrite Hsz in Htest. rewrite Htest.
      apply andb_prop in Htest as [Ho _]. by rewrite Ho, Hsz, Z.eqb_refl.
    + rewrite Hsz in Htest. by rewrite Htest, IH.
Qed.

Lemma patch_data_app (m : mem) patches1 patches2 :
  forall data,
    patch_data m data (patches1 ++ patches2) =
    match patch_data m data patches1 with
    | (Ok _, data') => patch_data m data' patches2
    | (Err e, data') => (Err e, data')
    end.
Proof.
  induction patches1 as [|p rest IH]; intros data; simpl; [done|].
  destruct (_ <? _); [done | apply IH].
Qed.

(** The first patch with the key of the new one gets the new blob where it
    stands: the patches before and after it stay. *)
Lemma add_patch_loop_replaces (m : mem) offset blob before old after :
  patch_key m old = (offset, g_bytes_get_size m blob) ->
  Forall (fun p => patch_key m p <> (offset, g_bytes_get_size m blob)) before ->
  add_patch_loop m offset blob (before ++ old :: after) =
  before ++ mkPatch offset blob :: after.
Proof.
  intros Hold Hbefore. induction Hbefore as [|p before Hp _ IH]; simpl.
  - unfold patch_key in Hold. injection Hold as Ho Hs.
    by rewrite Ho, Hs, !Z.eqb_refl.
  - replace ((ptch_offset p =? offset) &&
             (g_bytes_get_size m (ptch_blob p) =? g_bytes_get_size m blob)) with false.
    + by rewrite IH.
    + symmetry. apply andb_false_iff.
      destruct (Z.eqb_spec (ptch_offset p) offset) as [Ho|]; [|by left].
      right. apply Z.eqb_neq. intros Hs. apply Hp. unfold patch_key. by rewrite Ho, Hs.
Qed.

(** A patch with a key that no patch has goes to the end. *)
Lemma add_patch_loop_appends (m : mem) offset blob patches :
  Forall (fun p => patch_key m p <> (offset, g_bytes_get_size m blob)) patches ->
  add_patch_loop m offset blob patches = patches ++ [mkPatch offset blob].
Proof.
  intros Hall.
  destruct (add_patch_loop_cases m offset blob patches)
    as [(pre & ptch & post & -> & Hk & _ & _) | [_ Hloop]]; [|done].
  apply Forall_app in Hall as [_ Hall]. inversion Hall as [|? ? Hne _]; subst. done.
Qed.

(** Patches that all end within the buffer are written over it one after the
    other, from the head of the list on. *)
Lemma patch_data_in_range (m : mem) patches :
  forall data,
    Forall (fun p => 0 <= ptch_offset p) patches ->
    forallb (patch_in_range m (length data)) patches = true ->
    patch_data m data patches =
      (Ok tt,
       fold_left
         (fun data p =>
            take (Z.to_nat (ptch_offset p)) data ++ mem_data m (ptch_blob p) ++
            drop (Z.to_nat (ptch_offset p) + length (mem_data m (ptch_blob p))) data)
         patches data).
Proof.
  induction patches as [|p rest IH]; intros data Hoff Hin; simpl; [done|].
  simpl in Hin. apply andb_prop in Hin as [Hp Hrest].
  inversion Hoff as [|? ? Hp0 Hoff']; subst.
  unfold patch_in_range, g_bytes_get_size in Hp. apply Z.leb_le in Hp.
  destruct (_ <? _) eqn:Hlt; [apply Z.ltb_lt in Hlt; lia|].
  assert (Hlen : length (overwrite data (Z.to_nat (ptch_offset p))
                           (mem_data m (ptch_blob p))) = length data)
    by (apply overwrite_length; lia).
  rewrite IH by (done || by rewrite Hlen). done.
Qed.

Lemma patch_key_replaced (m : mem) offset blob ptch :
  patch_key m ptch = (offset, g_bytes_get_size m blob) ->
  patch_key m (mkPatch offset blob) = patch_key m ptch.
Proof. intros ->. done. Qed.

(** C6: [fu_firmware_add_patch] keeps at most one patch for each offset and
    length. After two calls with the same offset and blobs of the same length
    the list is the one a single call with the second blob gives. When the
    list had a patch of that offset and length, each call puts its blob at
    the place of the first such patch, and the patches before and after it
    stay where they are; when it had none, the patch goes to the end of the
    list. So the list has the second blob at the one place with that offset
    and length, and the patched payload is that of the latest patch alone.
    The patches are applied from the head of the list on, that is in the
    order they were added: when they all end within the buffer, the payload
    is the buffer with each patch in turn written over it. *)
Theorem add_patch_one_per_offset_and_length (m : mem) priv offset blob1 blob2 :
  g_bytes_get_size m blob1 = g_bytes_get_size m blob2 ->
  NoDup (map (patch_key m) (default [] (priv_patches priv))) ->
  let key := (offset, g_bytes_get_size m blob2) in
  let priv1 := fu_firmware_add_patch offset blob1 m priv in
  let priv2 := fu_firmware_add_patch offset blob2 m priv1 in
  NoDup (map (patch_key m) (default [] (priv_patches priv1))) /\
  NoDup (map (patch_key m) (default [] (priv_patches priv2))) /\
  priv2 = fu_firmware_add_patch offset blob2 m priv /\
  (forall before old after,
     default [] (priv_patches priv) = before ++ old :: after ->
     patch_key m old = key ->
     Forall (fun p => patch_key m p <> key) before ->
     priv_patches priv1 = Some (before ++ mkPatch offset blob1 :: after) /\
     priv_patches priv2 = Some (before ++ mkPatch offset blob2 :: after)) /\
  (Forall (fun p => patch_key m p <> key) (default [] (priv_patches priv)) ->
   priv_patches priv1 = Some (default [] (priv_patches priv) ++ [mkPatch offset blob1]) /\
   priv_patches priv2 = Some (default [] (priv_patches priv) ++ [mkPatch offset blob2])) /\
  (forall b patches2,
     priv_bytes priv2 = Some b ->
     priv_patches priv2 = Some patches2 ->
     payload_wf m priv2 = true ->
     forallb (patch_in_range m (length (mem_data m b))) patches2 = true ->
     fu_firmware_get_bytes_with_patches priv2 m =
       (Ok (patched_addr m),
        <[patched_addr m :=
            fold_left
              (fun data p =>
                 take (Z.to_nat (ptch_offset p)) data ++ mem_data m (ptch_blob p) ++
                 drop (Z.to_nat (ptch_offset p) + length (mem_data m (ptch_blob p))) data)
              patches2 (mem_data m b)]> m)) /\
  (exists pre post,
     priv_patches priv2 = Some (pre ++ mkPatch offset blob2 :: post) /\
     Forall (fun p => patch_key m p <> key) pre /\
     Forall (fun p => patch_key m p <> key) post /\
     (Forall (fun p => patch_key m p <> key) (default [] (priv_patches priv)) ->
      pre = default [] (priv_patches priv) /\ post = []) /\
     forall b,
       priv_bytes priv2 = Some b ->
       payload_wf m priv2 = true ->
       fu_firmware_get_bytes_with_patches priv2 m =
         match patch_data m (mem_data m b) pre with
         | (Ok _, data) =>
             match patch_data m data (mkPatch offset blob2 :: post) with
             | (Ok _, data') => (Ok (patched_addr m), <[patched_addr m := data']> m)
             | (Err e, _) => (Err e, m)
             end
         | (Err e, _) => (Err e, m)
         end).
Proof.
  intros Hsz Hnodup key priv1 priv2.
  set (patches := default [] (priv_patches priv)) in *.
  assert (Hkeys : forall blob, g_bytes_get_size m blob = g_bytes_get_size m blob2 ->
            NoDup (map (patch_key m) (add_patch_loop m offset blob patches))).
  { intros blob Hb.
    destruct (add_patch_loop_cases m offset blob patches)
      as [(pre & ptch & post & Hsplit & Hk & Hpre & ->) | [Hall ->]].
    - rewrite Hsplit in Hnodup. rewrite map_app in *. simpl in *.
      by rewrite (patch_key_replaced m offset blob ptch Hk).
    - rewrite map_app. simpl. apply NoDup_app. split; [done|]. split.
      + intros k Hin Hk. apply list_elem_of_singleton in Hk. subst k.
        apply list_elem_of_fmap in Hin as (p & Hp & Hin).
        rewrite Forall_forall in Hall. by apply (Hall p Hin).
      + apply NoDup_singleton. }
  assert (H2 : priv2 = fu_firmware_add_patch offset blob2 m priv).
  { subst priv2 priv1. unfold fu_firmware_add_patch. simpl.
    by rewrite add_patch_loop_twice. }
  split; [apply (Hkeys blob1 Hsz)|].
  split; [rewrite H2; apply (Hkeys blob2 eq_refl)|].
  split; [done|].
  split.
  { intros before old after Hsplit Hold Hbefore. rewrite H2. subst priv1.
    unfold fu_firmware_add_patch. simpl. fold patches. rewrite Hsplit.
    split; f_equal; apply add_patch_loop_replaces; try done; by rewrite Hsz. }
  split.
  { intros Hall. rewrite H2. subst priv1. unfold fu_firmware_add_patch. simpl. fold patches.
    split; f_equal; apply add_patch_loop_appends; try done; by rewrite Hsz. }
  split.
  { intros b patches2 Hb Hp2 Hwf Hin.
    rewrite (get_bytes_with_patches_patched priv2 m b patches2) by done.
    rewrite patch_data_in_range; [done| |done].
    pose proof (payload_wf_patches m priv2 patches2 Hwf Hp2) as Hlp.
    eapply Forall_impl; [exact Hlp|]. by intros p [? _]. }
  rewrite H2. unfold fu_firmware_add_patch. simpl. fold patches.
  destruct (add_patch_loop_cases m offset blob2 patches)
    as [(pre & ptch & post & Hsplit & Hk & Hpre & Hloop) | [Hall Hloop]].
  - exists pre, post. rewrite Hloop. split; [done|]. split; [done|].
    assert (Hpost : Forall (fun p => patch_key m p <> key) post).
    { rewrite Hsplit, map_app in Hnodup. simpl in Hnodup.
      apply NoDup_app in Hnodup as (_ & _ & Hnd). apply NoDup_cons in Hnd as [Hnotin _].
      apply Forall_forall. intros p Hin Hkp. apply Hnotin.
      rewrite Hk. fold key. rewrite <- Hkp. apply list_elem_of_fmap. eauto. }
    split; [done|]. split.
    + intros Hall. rewrite Hsplit in Hall. apply Forall_app in Hall as [_ Hall].
      inversion Hall as [|? ? Hne _]; subst. by destruct Hne.
    + intros b Hb Hwf.
      rewrite (get_bytes_with_patches_patched _ m b (pre ++ mkPatch offset blob2 :: post))
        by done.
      rewrite patch_data_app.
      destruct (patch_data m (mem_data m b) pre) as [[[]|e] data]; done.
  - exists patches, []. rewrite Hloop. split; [done|]. split; [done|].
    split; [constructor|]. split; [done|].
    intros b Hb Hwf.
    rewrite (get_bytes_with_patches_patched _ m b (patches ++ [mkPatch offset blob2]))
      by done.
    rewrite patch_data_app.
    destruct (patch_data m (mem_data m b) patches) as [[[]|e] data]; done.
Qed.

Lemma add_patch_one_per_offset_and_length_witness :
  priv_patches
    (fu_firmware_add_patch 0 4%positive ex_repatch_mem
       (fu_firmware_add_patch 0 2%positive ex_repatch_mem ex_two_patches_priv)) =
    Some ([] ++ mkPatch 0 4%positive :: [mkPatch 0 3%positive]) /\
  fu_firmware_get_bytes_with_patches
    (fu_firmware_add_patch 0 4%positive ex_repatch_mem
       (fu_firmware_add_patch 0 2%positive ex_repatch_mem ex_two_patches_priv))
    ex_repatch_mem =
    (Ok (patched_addr ex_repatch_mem),
     <[patched_addr ex_repatch_mem := [xaa; xbb; x02; x03]]> ex_repatch_mem).
Proof.
  assert (Hsz : g_bytes_get_size ex_repatch_mem 2%positive =
                g_bytes_get_size ex_repatch_mem 4%positive) by reflexivity.
  assert (Hnd : NoDup (map (patch_key ex_repatch_mem)
                         (default [] (priv_patches ex_two_patches_priv)))).
  { apply NoDup_cons. split; [|apply NoDup_singleton].
    intros Hin. apply list_elem_of_singleton in Hin. discriminate Hin. }
  pose proof (add_patch_one_per_offset_and_length ex_repatch_mem ex_two_patches_priv
                0 2%positive 4%positive Hsz Hnd) as H.
  cbv zeta in H. destruct H as (_ & _ & _ & Hplace & _ & Hpayload & _).
  split.
  - exact (proj2 (Hplace [] (mkPatch 0 2%positive) [mkPatch 0 3%positive]
                    eq_refl eq_refl (Forall_nil_2 _))).
  - exact (Hpayload 1%positive [mkPatch 0 4%positive; mkPatch 0 3%positive]
             eq_refl eq_refl eq_refl eq_refl).
Defined.

(** ** Buffer and stream together *)

(** An object holds a buffer and a stream at once after
    [fu_firmware_set_bytes] followed by [fu_firmware_set_stream]. *)
Lemma set_stream_keeps_bytes_counterexample :
  priv_bytes ex_bytes_then_stream = Some 1%positive /\
  priv_stream ex_bytes_then_stream = Some ex_stream3 /\
  payload_exclusive ex_bytes_then_stream = false.
Proof. repeat split. Qed.

(** The hook-free parse keeps the object of the cache step up to the end. *)
Lemma parse_stream_base_class_payload g_format_size g_format_size_full
    self stream offset flags (m : mem) self' m' :
  fu_firmware_parse_stream g_format_size g_format_size_full fu_firmware_class
    self stream offset flags m = (Ok tt, self', m') ->
  flag_set flags FU_FIRMWARE_PARSE_FLAG_CACHE_BLOB = true ->
  flag_set flags FU_FIRMWARE_PARSE_FLAG_CACHE_STREAM = true ->
  is_Some (priv_bytes self') /\ is_Some (priv_stream self').
Proof.
  unfold fu_firmware_parse_stream. intros H Hblob Hstream.
  rewrite Hblob, Hstream in H. simpl in H.
  destruct (fu_firmware_has_flag self _); [discriminate|].
  destruct (fu_input_stream_size stream) as [streamsz|]; [|discriminate].
  destruct (streamsz <=? offset); [discriminate|].
  unfold fu_firmware_validate_for_offset in H. simpl in H.
  destruct (streamsz - offset =? 0); [discriminate|].
  destruct (_ && _); [discriminate|].
  destruct (if offset =? 0 then _ else _) as [partial_stream|]; [|discriminate].
  destruct (fu_input_stream_read_bytes _ _ _ _) as [[blob|] m1]; [|discriminate].
  injection H as _ <- _. simpl. split; [|eauto].
  unfold fu_firmware_set_bytes. case_bool_decide as Hsame; simpl; eauto.
Qed.

(** C3, as the code has it: [fu_firmware_set_bytes] with a [GBytes] other
    than the one held stores it and drops the stream (with the one already
    held it changes nothing); [fu_firmware_set_stream] leaves the buffer as
    it is, whether it succeeds or fails; and a successful parse of a hook-free
    object with both cache flags leaves a buffer and a stream. So a buffer
    excludes a stream right after [fu_firmware_set_bytes] of a new buffer,
    and not in general. *)
Theorem set_bytes_drops_stream_set_stream_keeps_bytes
    g_format_size g_format_size_full priv bytes stream :
  (fu_firmware_set_bytes bytes priv =
     if bool_decide (priv_bytes priv = Some bytes) then priv
     else with_stream None (with_bytes (Some bytes) priv)) /\
  priv_bytes (fu_firmware_set_bytes bytes priv) = Some bytes /\
  (priv_bytes priv <> Some bytes ->
   priv_stream (fu_firmware_set_bytes bytes priv) = None /\
   payload_exclusive (fu_firmware_set_bytes bytes priv) = true) /\
  priv_bytes (snd (fu_firmware_set_stream stream priv)) = priv_bytes priv /\
  (forall s, stream = Some s -> st_seekable s = true ->
     priv_stream (snd (fu_firmware_set_stream stream priv)) = Some s) /\
  (forall self s offset flags (m : mem) self' m',
     fu_firmware_parse_stream g_format_size g_format_size_full fu_firmware_class
       self s offset flags m = (Ok tt, self', m') ->
     flag_set flags FU_FIRMWARE_PARSE_FLAG_CACHE_BLOB = true ->
     flag_set flags FU_FIRMWARE_PARSE_FLAG_CACHE_STREAM = true ->
     payload_exclusive self' = false).
Proof.
  split; [done|]. split.
  { unfold fu_firmware_set_bytes. by case_bool_decide. }
  split.
  { intros Hne. unfold fu_firmware_set_bytes, payload_exclusive.
    rewrite bool_decide_eq_false_2 by done. done. }
  split.
  { unfold fu_firmware_set_stream. destruct stream as [s|]; [|done].
    by destruct (fu_input_stream_size s). }
  split.
  { intros s -> Hseek. unfold fu_firmware_set_stream, fu_input_stream_size.
    by rewrite Hseek. }
  intros self s offset flags m self' m' H Hb Hs.
  destruct (parse_stream_base_class_payload _ _ _ _ _ _ _ _ _ H Hb Hs) as [[b Hb'] [s' Hs']].
  unfold payload_exclusive. by rewrite Hb', Hs'.
Qed.

Lemma set_bytes_drops_stream_set_stream_keeps_bytes_witness :
  priv_stream (fu_firmware_set_bytes 2%positive ex_bytes_then_stream) = None /\
  payload_exclusive (snd (fst ex_parse_cached)) = false.
Proof.
  pose proof (set_bytes_drops_stream_set_stream_keeps_bytes
                (fun _ => EmptyString) (fun _ => EmptyString)
                ex_bytes_then_stream 2%positive None) as (_ & _ & Hset & _ & _ & Hparse).
  split.
  - apply Hset. discriminate.
  - apply (Hparse fu_firmware_init ex_stream8 0
             (Z.lor FU_FIRMWARE_PARSE_FLAG_CACHE_BLOB FU_FIRMWARE_PARSE_FLAG_CACHE_STREAM)
             ∅ _ (snd ex_parse_cached)); reflexivity.
Defined.

(** ** Flags as bits *)

Lemma land_pow2 (f k : Z) :
  0 <= k -> Z.land f (2 ^ k) = if Z.testbit f k then 2 ^ k else 0.
Proof.
  intros Hk. apply Z.bits_inj'. intros n Hn.
  rewrite Z.land_spec, Z.pow2_bits_eqb by done.
  destruct (Z.testbit f k) eqn:Hbit.
  - rewrite Z.pow2_bits_eqb by done.
    destruct (Z.eqb_spec k n) as [->|]; [by rewrite Hbit | apply andb_false_r].
  - rewrite Z.bits_0.
    destruct (Z.eqb_spec k n) as [->|]; [by rewrite Hbit | apply andb_false_r].
Qed.

Lemma has_flag_testbit priv (k : Z) :
  0 <= k -> fu_firmware_has_flag priv (2 ^ k) = Z.testbit (priv_flags priv) k.
Proof.
  intros Hk. unfold fu_firmware_has_flag. rewrite land_pow2 by done.
  destruct (Z.testbit _ k); [|done].
  apply Z.ltb_lt. by apply Z.pow_pos_nonneg.
Qed.

Lemma has_flag_add_flag priv (j k : Z) :
  0 <= j -> 0 <= k ->
  fu_firmware_has_flag (fu_firmware_add_flag (2 ^ j) priv) (2 ^ k) =
  fu_firmware_has_flag priv (2 ^ k) || (j =? k).
Proof.
  intros Hj Hk. rewrite !has_flag_testbit by done. simpl.
  by rewrite Z.lor_spec, Z.pow2_bits_eqb.
Qed.

Lemma has_done_parse_add_done_parse priv :
  fu_firmware_has_flag (fu_firmware_add_flag FU_FIRMWARE_FLAG_DONE_PARSE priv)
    FU_FIRMWARE_FLAG_DONE_PARSE = true.
Proof.
  change FU_FIRMWARE_FLAG_DONE_PARSE with (2 ^ 4).
  rewrite has_flag_add_flag by lia. apply orb_true_r.
Qed.

Lemma has_done_parse_add_check_compatible priv :
  fu_firmware_has_flag (fu_firmware_add_flag FU_FIRMWARE_FLAG_HAS_CHECK_COMPATIBLE priv)
    FU_FIRMWARE_FLAG_DONE_PARSE = fu_firmware_has_flag priv FU_FIRMWARE_FLAG_DONE_PARSE.
Proof.
  change FU_FIRMWARE_FLAG_DONE_PARSE with (2 ^ 4).
  change FU_FIRMWARE_FLAG_HAS_CHECK_COMPATIBLE with (2 ^ 8).
  rewrite has_flag_add_flag by lia. apply orb_false_r.
Qed.

(** ** The alignment of raw firmware *)

Lemma alignment_size (al : Z) : 0 <= al < 64 -> to_guint64 (Z.shiftl 1 al) = 2 ^ al.
Proof.
  intros H. unfold to_guint64. rewrite Z.shiftl_1_l. apply Z.mod_small.
  split; [apply Z.pow_nonneg; lia | apply Z.pow_lt_mono_r; lia].
Qed.

(** With 4-byte alignment, eight bytes parsed from offset 3 leave five bytes,
    not a multiple of four, and the parse succeeds; nine bytes parsed from
    offset 1 leave eight, a multiple of four, and the parse fails. *)
Lemma alignment_of_whole_stream_counterexample :
  ex_parse_raw 8 3 = Ok tt /\
  (8 - 3) mod 2 ^ 2 = 1 /\
  ex_parse_raw 9 1 =
    Err (mkGError FWUPD_ERROR_INVALID_FILE "raw firmware is not aligned to 0x4 ()") /\
  (9 - 1) mod 2 ^ 2 = 0.
Proof. repeat split. Qed.

(** Without a parse hook, a parse that does not fail before its last step
    returns what the alignment test says of the size of the whole stream. *)
Lemma parse_stream_no_parse_hook g_format_size g_format_size_full
    klass self stream offset flags (m : mem) :
  klass_parse klass = None ->
  let r := fu_firmware_parse_stream g_format_size g_format_size_full klass
             self stream offset flags m in
  is_ok (fst (fst r)) = false \/
  (st_seekable stream = true /\
   fst (fst r) =
     verify_alignment g_format_size_full (snd (fst r)) (Z.of_nat (length (st_data stream)))).
Proof.
  intros Hp. unfold fu_firmware_parse_stream, fu_input_stream_size. rewrite Hp.
  destruct (fu_firmware_has_flag self _); [by left|].
  destruct (st_seekable stream); [|by left].
  destruct (_ <=? offset); [by left|].
  destruct (fu_firmware_validate_for_offset klass self stream offset flags)
    as [[offset'|] self1]; [|by left].
  cbn [priv_streamsz with_streamsz priv_size_max].
  destruct (_ =? 0); [by left|].
  destruct (_ && _); [by left|].
  destruct (if offset' =? 0 then _ else _) as [partial_stream|]; [|by left].
  destruct (if flag_set flags FU_FIRMWARE_PARSE_FLAG_CACHE_BLOB then _ else _)
    as [[[[]|e] self2] m2]; [|by left].
  destruct (match klass_tokenize klass with Some _ => _ | None => _ end)
    as [[[[]|e] self3] m3]; [|by left].
  by right.
Qed.

(** C2: what the alignment test of the code reads. A parse without a parse
    hook only succeeds when the size of the whole stream, the offset not
    taken off, is a multiple of [1 << alignment]. When the class has no
    validate and no tokenize hook either and the parse gets to its last step,
    it succeeds when that size is such a multiple and fails with
    [FWUPD_ERROR_INVALID_FILE] otherwise, while the stream size that the
    object keeps, and that the checks before the alignment test read, is the
    remaining size. The two are the same at offset 0 only. *)
Theorem parse_stream_raw_alignment g_format_size g_format_size_full
    klass self stream offset flags (m : mem) :
  klass_parse klass = None ->
  let streamsz := Z.of_nat (length (st_data stream)) in
  let r := fu_firmware_parse_stream g_format_size g_format_size_full klass
             self stream offset flags m in
  (fst (fst r) = Ok tt ->
   0 <= priv_alignment (snd (fst r)) < 64 ->
   streamsz mod 2 ^ priv_alignment (snd (fst r)) = 0) /\
  (klass_validate klass = None ->
   klass_tokenize klass = None ->
   fu_firmware_has_flag self FU_FIRMWARE_FLAG_DONE_PARSE = false ->
   st_seekable stream = true ->
   0 <= offset < streamsz ->
   priv_size_max self <= 0 \/ streamsz - offset <= priv_size_max self ->
   0 <= priv_alignment self < 64 ->
   (streamsz mod 2 ^ priv_alignment self = 0 -> fst (fst r) = Ok tt) /\
   (streamsz mod 2 ^ priv_alignment self <> 0 ->
    exists msg, fst (fst r) = Err (mkGError FWUPD_ERROR_INVALID_FILE msg)) /\
   priv_streamsz (snd (fst r)) = streamsz - offset).
Proof.
  intros Hp streamsz r. split.
  { intros Hok Hal.
    destruct (parse_stream_no_parse_hook g_format_size g_format_size_full klass self
                stream offset flags m Hp) as [Hfail | [_ Hlast]]; fold r in Hfail || fold r in Hlast.
    - by rewrite Hok in Hfail.
    - rewrite Hok in Hlast. unfold verify_alignment in Hlast.
      rewrite alignment_size in Hlast by done. fold streamsz in Hlast.
      destruct (streamsz mod 2 ^ priv_alignment (snd (fst r)) =? 0) eqn:Hmod;
        [by apply Z.eqb_eq | discriminate]. }
  intros Hv Ht Hdone Hseek Hoff Hmax Hal.
  assert (Hr : exists self' m',
             r = (verify_alignment g_format_size_full self' streamsz, self', m') /\
             priv_alignment self' = priv_alignment self /\
             priv_streamsz self' = streamsz - offset).
  { subst r. unfold fu_firmware_parse_stream, fu_firmware_validate_for_offset,
      fu_input_stream_size.
    rewrite Hdone, Hseek, Hv, Ht, Hp. fold streamsz.
    replace (streamsz <=? offset) with false by (symmetry; apply Z.leb_gt; lia).
    cbn [priv_streamsz with_streamsz priv_size_max].
    replace (streamsz - offset =? 0) with false by (symmetry; apply Z.eqb_neq; lia).
    replace ((0 <? priv_size_max self) && (priv_size_max self <? streamsz - offset))
      with false.
    2:{ symmetry. apply andb_false_iff.
        destruct Hmax; [left; apply Z.ltb_ge | right; apply Z.ltb_ge]; lia. }
    assert (Hpartial : exists partial_stream,
              (if offset =? 0 then Ok stream
               else match fu_partial_input_stream_new stream offset (streamsz - offset) with
                    | Err e => Err (g_prefix_error "failed to cut firmware: " e)
                    | Ok partial_stream => Ok partial_stream
                    end) = Ok partial_stream /\ st_seekable partial_stream = true).
    { destruct (offset =? 0); [eauto|].
      unfold fu_partial_input_stream_new. rewrite Hseek. simpl. fold streamsz.
      replace (streamsz <? offset + (streamsz - offset)) with false
        by (symmetry; apply Z.ltb_ge; lia).
      eauto. }
    destruct Hpartial as (partial_stream & Hps & Hpseek).
    destruct (klass_check_compatible klass);
      cbn [priv_streamsz fu_firmware_add_flag with_flags];
      change (priv_streamsz (with_streamsz (streamsz - offset) self))
        with (streamsz - offset);
      rewrite Hps;
      unfold fu_input_stream_read_bytes; rewrite Hpseek;
      destruct (flag_set flags FU_FIRMWARE_PARSE_FLAG_CACHE_BLOB);
      destruct (flag_set flags FU_FIRMWARE_PARSE_FLAG_CACHE_STREAM);
      cbn -[verify_alignment fu_firmware_set_bytes];
      eexists _, _; (split; [reflexivity|]);
      unfold fu_firmware_set_bytes; try case_bool_decide; done. }
  destruct Hr as (self' & m' & -> & Hal' & Hsz). simpl.
  unfold verify_alignment. rewrite Hal', alignment_size by done.
  split; [|split; [|done]].
  - intros ->. done.
  - intros Hne. apply Z.eqb_neq in Hne. rewrite Hne. simpl. eauto.
Qed.

Lemma parse_stream_raw_alignment_witness :
  ex_parse_raw 8 0 = Ok tt /\
  exists msg, ex_parse_raw 5 0 = Err (mkGError FWUPD_ERROR_INVALID_FILE msg).
Proof.
  split.
  - apply (proj2 (parse_stream_raw_alignment (fun _ => EmptyString) (fun _ => EmptyString)
                    fu_firmware_class ex_raw_aligned4 (ex_zeros 8) 0
                    FU_FIRMWARE_PARSE_FLAG_NONE ∅ eq_refl));
      try reflexivity; simpl; lia.
  - apply (proj2 (parse_stream_raw_alignment (fun _ => EmptyString) (fun _ => EmptyString)
                    fu_firmware_class ex_raw_aligned4 (ex_zeros 5) 0
                    FU_FIRMWARE_PARSE_FLAG_NONE ∅ eq_refl));
      try reflexivity; simpl; try lia. discriminate.
Defined.

(** ** Parsing once *)

Lemma parse_stream_reused g_format_size g_format_size_full klass self stream offset flags
    (m : mem) :
  fu_firmware_has_flag self FU_FIRMWARE_FLAG_DONE_PARSE = true ->
  fu_firmware_parse_stream g_format_size g_format_size_full klass self stream offset flags m =
    (Err reused_error, self, m).
Proof. intros H. unfold fu_firmware_parse_stream. by rewrite H. Qed.

Lemma validate_for_offset_flags klass self stream offset flags :
  priv_flags (snd (fu_firmware_validate_for_offset klass self stream offset flags)) =
  priv_flags self /\
  priv_size_max (snd (fu_firmware_validate_for_offset klass self stream offset flags)) =
  priv_size_max self.
Proof.
  unfold fu_firmware_validate_for_offset.
  destruct (klass_validate klass) as [validate|]; [|done].
  destruct (_ && _).
  - by destruct (validate self stream offset).
  - destruct (fu_input_stream_size stream) as [streamsz|]; [|done].
    destruct (_ <? _).
    + by destruct (validate self stream offset).
    + by destruct (List.find _ _).
Qed.

Lemma set_bytes_has_flag bytes priv flag :
  fu_firmware_has_flag (fu_firmware_set_bytes bytes priv) flag =
  fu_firmware_has_flag priv flag.
Proof. unfold fu_firmware_set_bytes. by case_bool_decide. Qed.

(** A parse that is not turned down early is [parse_marked] of the marked
    object. *)
Lemma parse_stream_marked g_format_size g_format_size_full klass self stream offset flags
    (m : mem) :
  fu_firmware_has_flag self FU_FIRMWARE_FLAG_DONE_PARSE = false ->
  rejected_early klass self stream offset flags = false ->
  exists streamsz offset' self',
    fu_input_stream_size stream = Ok streamsz /\
    fu_firmware_validate_for_offset klass self stream offset flags = (Ok offset', self') /\
    fu_firmware_parse_stream g_format_size g_format_size_full klass self stream offset flags m =
      parse_marked g_format_size_full klass (marked klass self' (streamsz - offset'))
        stream streamsz offset' flags m.
Proof.
  intros Hdone Hrej. unfold rejected_early in Hrej.
  unfold fu_firmware_parse_stream. rewrite Hdone.
  destruct (fu_input_stream_size stream) as [streamsz|]; [|discriminate].
  apply orb_false_elim in Hrej as [Hsz Hrej]. rewrite Hsz.
  destruct (fu_firmware_validate_for_offset klass self stream offset flags)
    as [[offset'|] self']; [|discriminate].
  apply orb_false_elim in Hrej as [Hzero Hmax].
  exists streamsz, offset', self'. split; [done|]. split; [done|].
  cbn [priv_streamsz with_streamsz priv_size_max]. rewrite Hzero, Hmax.
  unfold parse_marked, marked.
  destruct (klass_check_compatible klass); reflexivity.
Qed.

Lemma marked_has_done klass self streamsz :
  fu_firmware_has_flag (marked klass self streamsz) FU_FIRMWARE_FLAG_DONE_PARSE = true.
Proof.
  unfold marked. destruct (klass_check_compatible klass).
  - rewrite has_done_parse_add_check_compatible. apply has_done_parse_add_done_parse.
  - apply has_done_parse_add_done_parse.
Qed.

(** Once marked, the object stays marked through the rest of the parse. *)
Lemma parse_marked_keeps_done g_format_size_full klass self stream streamsz offset flags
    (m : mem) :
  klass_keeps_done klass ->
  fu_firmware_has_flag self FU_FIRMWARE_FLAG_DONE_PARSE = true ->
  fu_firmware_has_flag
    (snd (fst (parse_marked g_format_size_full klass self stream streamsz offset flags m)))
    FU_FIRMWARE_FLAG_DONE_PARSE = true.
Proof.
  intros [Htok Hprs] Hdone. unfold parse_marked.
  destruct (if offset =? 0 then _ else _) as [partial_stream|]; [|done].
  assert (Hcache : forall self1 m1,
            (if flag_set flags FU_FIRMWARE_PARSE_FLAG_CACHE_BLOB then
               match fu_input_stream_read_bytes partial_stream 0 (priv_streamsz self) m with
               | (Err e, m) => (Err e, self, m)
               | (Ok blob, m) => (Ok tt, fu_firmware_set_bytes blob self, m)
               end
             else (Ok tt, self, m)) = (Ok tt, self1, m1) ->
            fu_firmware_has_flag self1 FU_FIRMWARE_FLAG_DONE_PARSE = true).
  { intros self1 m1. destruct (flag_set flags _).
    - destruct (fu_input_stream_read_bytes _ _ _ _) as [[blob|] m2]; [|discriminate].
      intros [= <- _]. by rewrite set_bytes_has_flag.
    - by intros [= <- _]. }
  destruct (if flag_set flags FU_FIRMWARE_PARSE_FLAG_CACHE_BLOB then _ else _)
    as [[[[]|e] self1] m1] eqn:Hc.
  2:{ destruct (flag_set flags FU_FIRMWARE_PARSE_FLAG_CACHE_BLOB); [|discriminate].
      destruct (fu_input_stream_read_bytes _ _ _ _) as [[blob|] m2]; [discriminate|].
      by injection Hc as _ <- _. }
  specialize (Hcache self1 m1 eq_refl).
  set (self2 := if flag_set flags FU_FIRMWARE_PARSE_FLAG_CACHE_STREAM
                then with_stream (Some partial_stream) self1 else self1).
  assert (Hdone2 : fu_firmware_has_flag self2 FU_FIRMWARE_FLAG_DONE_PARSE = true).
  { subst self2. by destruct (flag_set flags FU_FIRMWARE_PARSE_FLAG_CACHE_STREAM). }
  destruct (klass_tokenize klass) as [tokenize|] eqn:Ht.
  - pose proof (Htok tokenize eq_refl self2 partial_stream flags m1 Hdone2) as Hdone3.
    destruct (tokenize self2 partial_stream flags m1) as [[[[]|e] self3] m3]; [|done].
    simpl in Hdone3.
    destruct (klass_parse klass) as [parse|] eqn:Hp; [|done].
    apply (Hprs parse eq_refl). done.
  - destruct (klass_parse klass) as [parse|] eqn:Hp; [|done].
    apply (Hprs parse eq_refl). done.
Qed.

(** The hooks are only called on a marked object: guarding them changes
    nothing. *)
Lemma parse_marked_guarded g_format_size_full klass self stream streamsz offset flags
    (m : mem) :
  klass_keeps_done klass ->
  fu_firmware_has_flag self FU_FIRMWARE_FLAG_DONE_PARSE = true ->
  parse_marked g_format_size_full (guarded_class klass) self stream streamsz offset flags m =
  parse_marked g_format_size_full klass self stream streamsz offset flags m.
Proof.
  intros [Hkeep _] Hdone. unfold parse_marked.
  destruct (if offset =? 0 then _ else _) as [partial_stream|]; [|done].
  destruct (if flag_set flags FU_FIRMWARE_PARSE_FLAG_CACHE_BLOB then _ else _)
    as [[[[]|e] self1] m1] eqn:Hc; [|done].
  assert (Hdone1 : fu_firmware_has_flag self1 FU_FIRMWARE_FLAG_DONE_PARSE = true).
  { destruct (flag_set flags FU_FIRMWARE_PARSE_FLAG_CACHE_BLOB).
    - destruct (fu_input_stream_read_bytes _ _ _ _) as [[blob|] m2]; [|discriminate].
      injection Hc as <- _. by rewrite set_bytes_has_flag.
    - by injection Hc as <- _. }
  set (self2 := if flag_set flags FU_FIRMWARE_PARSE_FLAG_CACHE_STREAM
                then with_stream (Some partial_stream) self1 else self1).
  assert (Hdone2 : fu_firmware_has_flag self2 FU_FIRMWARE_FLAG_DONE_PARSE = true).
  { subst self2. by destruct (flag_set flags FU_FIRMWARE_PARSE_FLAG_CACHE_STREAM). }
  cbn [guarded_class klass_tokenize klass_parse].
  destruct (klass_tokenize klass) as [tokenize|] eqn:Ht; simpl.
  - unfold guard_done at 1. rewrite Hdone2.
    pose proof (Hkeep tokenize eq_refl self2 partial_stream flags m1 Hdone2) as Hdone3.
    destruct (tokenize self2 partial_stream flags m1) as [[[[]|e] self3] m3]; [|done].
    simpl in Hdone3.
    destruct (klass_parse klass) as [parse|]; [|done]. simpl. unfold guard_done.
    by rewrite Hdone3.
  - destruct (klass_parse klass) as [parse|]; [|done]. simpl. unfold guard_done.
    by rewrite Hdone2.
Qed.

(** C4: a parse of an object whose done-parsing flag is set fails with
    [FWUPD_ERROR_NOT_SUPPORTED], "firmware object cannot be reused", and
    changes nothing. On an object whose flag is clear, a parse turned down by
    the size check, the validation or the [size_max] check fails with the
    flags as they were, so the flag still clear; any other parse sets the flag
    before the tokenize and parse hooks are called (guarding the hooks against
    an unmarked object changes no result), and whatever the hooks return, the
    flag is set afterwards and a second parse fails as reused. The hooks are
    taken not to clear the flag. *)
Theorem parse_stream_done_parse g_format_size g_format_size_full
    klass self stream offset flags (m : mem) :
  klass_keeps_done klass ->
  let r := fu_firmware_parse_stream g_format_size g_format_size_full
             klass self stream offset flags m in
  (fu_firmware_has_flag self FU_FIRMWARE_FLAG_DONE_PARSE = true ->
   r = (Err (mkGError FWUPD_ERROR_NOT_SUPPORTED "firmware object cannot be reused"), self, m)) /\
  (fu_firmware_has_flag self FU_FIRMWARE_FLAG_DONE_PARSE = false ->
   rejected_early klass self stream offset flags = true ->
   is_ok (fst (fst r)) = false /\
   priv_flags (snd (fst r)) = priv_flags self /\
   fu_firmware_has_flag (snd (fst r)) FU_FIRMWARE_FLAG_DONE_PARSE = false /\
   snd r = m) /\
  (fu_firmware_has_flag self FU_FIRMWARE_FLAG_DONE_PARSE = false ->
   rejected_early klass self stream offset flags = false ->
   fu_firmware_has_flag (snd (fst r)) FU_FIRMWARE_FLAG_DONE_PARSE = true /\
   forall stream2 offset2 flags2 (m2 : mem),
     fu_firmware_parse_stream g_format_size g_format_size_full
       klass (snd (fst r)) stream2 offset2 flags2 m2 =
     (Err (mkGError FWUPD_ERROR_NOT_SUPPORTED "firmware object cannot be reused"),
      snd (fst r), m2)) /\
  fu_firmware_parse_stream g_format_size g_format_size_full
    (guarded_class klass) self stream offset flags m = r.
Proof.
  intros Hkeep r. split; [|split; [|split]].
  - intros Hdone. subst r. by apply parse_stream_reused.
  - intros Hdone Hrej. subst r. unfold fu_firmware_parse_stream. rewrite Hdone.
    unfold rejected_early in Hrej.
    destruct (fu_input_stream_size stream) as [streamsz|]; [|done].
    destruct (streamsz <=? offset); [done|]. simpl in Hrej.
    pose proof (validate_for_offset_flags klass self stream offset flags) as [Hfl Hmax].
    destruct (fu_firmware_validate_for_offset klass self stream offset flags)
      as [[offset'|] self']; simpl in Hfl, Hmax.
    + cbn [priv_streamsz with_streamsz priv_size_max].
      assert (Hfl' : fu_firmware_has_flag (with_streamsz (streamsz - offset') self')
                       FU_FIRMWARE_FLAG_DONE_PARSE = false).
      { unfold fu_firmware_has_flag in *. simpl. by rewrite Hfl. }
      destruct (streamsz - offset' =? 0); [done|]. simpl in Hrej. rewrite Hrej. done.
    + simpl. unfold fu_firmware_has_flag in *. by rewrite Hfl.
  - intros Hdone Hrej.
    destruct (parse_stream_marked g_format_size g_format_size_full klass self stream
                offset flags m Hdone Hrej) as (streamsz & offset' & self' & _ & _ & Hr).
    assert (Hmarked :
      fu_firmware_has_flag (snd (fst r)) FU_FIRMWARE_FLAG_DONE_PARSE = true).
    { subst r. rewrite Hr. apply parse_marked_keeps_done; [done|apply marked_has_done]. }
    split; [done|]. intros. by apply parse_stream_reused.
  - subst r.
    destruct (fu_firmware_has_flag self FU_FIRMWARE_FLAG_DONE_PARSE) eqn:Hdone.
    { by rewrite !parse_stream_reused. }
    destruct (rejected_early klass self stream offset flags) eqn:Hrej.
    + unfold fu_firmware_parse_stream. rewrite Hdone.
      unfold rejected_early in Hrej.
      change (fu_firmware_validate_for_offset (guarded_class klass))
        with (fu_firmware_validate_for_offset klass).
      destruct (fu_input_stream_size stream) as [streamsz|]; [|done].
      destruct (streamsz <=? offset); [done|]. simpl in Hrej.
      destruct (fu_firmware_validate_for_offset klass self stream offset flags)
        as [[offset'|] self']; [|done].
      cbn [priv_streamsz with_streamsz priv_size_max].
      destruct (streamsz - offset' =? 0); [done|]. simpl in Hrej. by rewrite Hrej.
    + destruct (parse_stream_marked g_format_size g_format_size_full klass self stream
                  offset flags m Hdone Hrej) as (streamsz & offset' & self' & Hs & Hv & Hr).
      destruct (parse_stream_marked g_format_size g_format_size_full (guarded_class klass)
                  self stream offset flags m Hdone Hrej)
        as (streamsz2 & offset2 & self2 & Hs2 & Hv2 & Hr2).
      change (fu_firmware_validate_for_offset (guarded_class klass))
        with (fu_firmware_validate_for_offset klass) in Hv2.
      rewrite Hs in Hs2. rewrite Hv in Hv2.
      injection Hs2 as <-. injection Hv2 as <- <-.
      rewrite Hr, Hr2.
      change (marked (guarded_class klass)) with (marked klass).
      apply parse_marked_guarded; [done | apply marked_has_done].
Qed.

Lemma ex_failing_class_keeps_done : klass_keeps_done ex_failing_class.
Proof. split; intros hook [= <-]. intros self stream flags m H. exact H. Qed.

Lemma parse_stream_done_parse_witness :
  fst (fst (fu_firmware_parse_stream (fun _ => EmptyString) (fun _ => EmptyString)
              ex_failing_class fu_firmware_init ex_stream8 0 FU_FIRMWARE_PARSE_FLAG_NONE ∅)) =
    Err (mkGError FWUPD_ERROR_INVALID_DATA "bad record") /\
  fst (fst (fu_firmware_parse_stream (fun _ => EmptyString) (fun _ => EmptyString)
              ex_failing_class
              (snd (fst (fu_firmware_parse_stream (fun _ => EmptyString) (fun _ => EmptyString)
                           ex_failing_class fu_firmware_init ex_stream8 0
                           FU_FIRMWARE_PARSE_FLAG_NONE ∅)))
              ex_stream8 0 FU_FIRMWARE_PARSE_FLAG_NONE ∅)) =
    Err (mkGError FWUPD_ERROR_NOT_SUPPORTED "firmware object cannot be reused").
Proof.
  split; [reflexivity|].
  pose proof (parse_stream_done_parse (fun _ => EmptyString) (fun _ => EmptyString)
                ex_failing_class fu_firmware_init ex_stream8 0 FU_FIRMWARE_PARSE_FLAG_NONE ∅
                ex_failing_class_keeps_done) as H.
  cbv zeta in H. destruct H as (_ & _ & H & _).
  destruct (H eq_refl eq_refl) as [_ Hsecond]. by rewrite Hsecond.
Defined.

(** ** The probe chain *)

Section Probe.

Variable g_format_size : Z -> string.
Variable g_format_size_full : Z -> string.
Variable stream : GInputStream.
Variable offset flags : Z.

Local Abbreviation failures :=
  (parse_failures g_format_size g_format_size_full stream offset flags).

Lemma new_from_gtypes_loop_failures gtypes :
  forall (m : mem) error_all errors m1,
    failures gtypes m = Some (errors, m1) ->
    new_from_gtypes_loop g_format_size g_format_size_full gtypes stream offset flags
      error_all m = (None, fold_left aggregate errors error_all, m1).
Proof.
  induction gtypes as [|gtype rest IH]; intros m error_all errors m1; simpl.
  - by intros [= <- <-].
  - destruct (fu_firmware_parse_stream _ _ _ _ _ _ _ _) as [[[[]|e] fw] m2]; [done|].
    destruct (failures rest m2) as [[errors' m3]|] eqn:Hrest; [|done].
    intros [= <- <-]. simpl. by apply IH.
Qed.

Lemma new_from_gtypes_loop_first_success pre gtype post :
  forall (m : mem) error_all errors m1 firmware m2,
    failures pre m = Some (errors, m1) ->
    fu_firmware_parse_stream g_format_size g_format_size_full gtype
      (klass_init gtype fu_firmware_init) stream offset flags m1 = (Ok tt, firmware, m2) ->
    new_from_gtypes_loop g_format_size g_format_size_full (pre ++ gtype :: post)
      stream offset flags error_all m = (Some (gtype, firmware), None, m2).
Proof.
  induction pre as [|k pre IH]; intros m error_all errors m1 firmware m2; simpl.
  - intros [= <- <-] ->. done.
  - destruct (fu_firmware_parse_stream _ _ k _ _ _ _ _) as [[[[]|e] fw] m3]; [done|].
    destruct (failures pre m3) as [[errors' m4]|] eqn:Hrest; [|done].
    intros [= <- <-] Hok. by apply (IH m3 _ errors' m4).
Qed.

End Probe.

Lemma append_assoc (s1 s2 s3 : string) : (s1 +:+ s2) +:+ s3 = s1 +:+ (s2 +:+ s3).
Proof.
  induction s1 as [|c s1 IH]; [done|].
  change (String c ((s1 +:+ s2) +:+ s3) = String c (s1 +:+ (s2 +:+ s3))). by rewrite IH.
Qed.

Lemma contains_refl (s : string) : contains s s.
Proof.
  exists EmptyString, EmptyString. induction s as [|c s IH]; [done|].
  change (String c s = String c (EmptyString +:+ s +:+ EmptyString)). by rewrite <- IH.
Qed.

Lemma contains_prefixed (p t s : string) : contains t s -> contains (p +:+ t) s.
Proof. intros (a & b & ->). exists (p +:+ a), b. by rewrite append_assoc. Qed.

(** The message gathered holds the message gathered before and every message
    folded in. *)
Lemma aggregate_contains errors :
  forall error_all,
    exists e,
      fold_left aggregate errors (Some error_all) = Some e /\
      code e = code error_all /\
      contains (message e) (message error_all) /\
      Forall (fun error_local => contains (message e) (message error_local)) errors.
Proof.
  induction errors as [|error_local rest IH]; intros error_all; simpl.
  - exists error_all. repeat split; [apply contains_refl | constructor].
  - destruct (IH (g_prefix_error (message error_local +:+ ": ") error_all))
      as (e & He & Hcode & Hall & Hrest).
    exists e. split; [done|]. split; [done|]. simpl in Hall. split.
    + destruct Hall as (a & b & Hall). rewrite Hall.
      exists (a +:+ message error_local +:+ ": "), b. by rewrite !append_assoc.
    + constructor; [|done].
      destruct Hall as (a & b & Hall). rewrite Hall.
      exists a, (": " +:+ message error_all +:+ b). by rewrite !append_assoc.
Qed.

(** C8: with no candidate the probe chain fails with
    [FWUPD_ERROR_NOTHING_TO_DO]. When the candidates before [gtype] all fail
    to parse and [gtype] parses, the chain returns the object [gtype] parsed,
    whatever candidates come after it. When every candidate fails, the chain
    fails with the code of the first failure and a message that holds the
    message of every candidate's failure. *)
Theorem new_from_gtypes_probe_chain g_format_size g_format_size_full
    stream offset flags (m : mem) :
  fu_firmware_new_from_gtypes g_format_size g_format_size_full stream offset flags [] m =
    (None, Some (mkGError FWUPD_ERROR_NOTHING_TO_DO "no GTypes specified"), m) /\
  (forall pre gtype post errors m1 firmware m2,
     parse_failures g_format_size g_format_size_full stream offset flags pre m =
       Some (errors, m1) ->
     fu_firmware_parse_stream g_format_size g_format_size_full gtype
       (klass_init gtype fu_firmware_init) stream offset flags m1 = (Ok tt, firmware, m2) ->
     fu_firmware_new_from_gtypes g_format_size g_format_size_full stream offset flags
       (pre ++ gtype :: post) m = (Some (gtype, firmware), None, m2)) /\
  (forall gtypes error_first errors m1,
     parse_failures g_format_size g_format_size_full stream offset flags gtypes m =
       Some (error_first :: errors, m1) ->
     exists e,
       fu_firmware_new_from_gtypes g_format_size g_format_size_full stream offset flags
         gtypes m = (None, Some e, m1) /\
       code e = code error_first /\
       length (error_first :: errors) = length gtypes /\
       Forall (fun error_local => contains (message e) (message error_local))
         (error_first :: errors)).
Proof.
  split; [done|]. split.
  - intros pre gtype post errors m1 firmware m2 Hpre Hok.
    unfold fu_firmware_new_from_gtypes.
    replace (length (pre ++ gtype :: post) =? 0)%nat with false
      by (rewrite length_app; simpl; symmetry; apply Nat.eqb_neq; lia).
    by apply (new_from_gtypes_loop_first_success _ _ _ _ _ _ _ _ _ _ errors m1).
  - intros gtypes error_first errors m1 Hfail.
    unfold fu_firmware_new_from_gtypes.
    destruct gtypes as [|gtype rest]; [discriminate|].
    rewrite (new_from_gtypes_loop_failures _ _ _ _ _ _ _ _ _ _ Hfail).
    change (fold_left aggregate (error_first :: errors) None)
      with (fold_left aggregate errors (Some error_first)).
    destruct (aggregate_contains errors error_first) as (e & He & Hcode & Hfirst & Hrest).
    exists e. split; [by rewrite He|]. split; [done|]. split.
    + clear -Hfail. revert m error_first errors m1 Hfail.
      generalize (gtype :: rest) as gtypes.
      induction gtypes as [|k gtypes IH]; intros m error_first errors m1 Hfail;
        simpl in Hfail; [discriminate|].
      destruct (fu_firmware_parse_stream _ _ k _ _ _ _ _) as [[[[]|e] fw] m3]; [done|].
      destruct (parse_failures _ _ _ _ _ gtypes m3) as [[errors' m4]|] eqn:Hrest; [|done].
      injection Hfail as <- <- <-. simpl. f_equal.
      destruct gtypes as [|k' gtypes'].
      * simpl in Hrest. by injection Hrest as <- _.
      * destruct errors' as [|e' errors''].
        { simpl in Hrest.
          destruct (fu_firmware_parse_stream _ _ k' _ _ _ _ _) as [[[[]|?] ?] ?]; [done|].
          by destruct (parse_failures _ _ _ _ _ gtypes' _) as [[? ?]|]. }
        by apply (IH m3 e' errors'' m4).
    + by constructor.
Qed.

Lemma new_from_gtypes_probe_chain_witness :
  ex_probe ex_stream_b =
    (Some (ex_class_b, marked ex_class_b fu_firmware_init 4), None, ∅) /\
  exists e,
    ex_probe ex_stream8 = (None, Some e, ∅) /\
    code e = FWUPD_ERROR_INVALID_FILE /\
    length [mkGError FWUPD_ERROR_INVALID_FILE "not an A image";
            mkGError FWUPD_ERROR_INVALID_FILE "not a B image";
            mkGError FWUPD_ERROR_INVALID_FILE "not a C image"] = 3%nat /\
    Forall (fun error_local => contains (message e) (message error_local))
      [mkGError FWUPD_ERROR_INVALID_FILE "not an A image";
       mkGError FWUPD_ERROR_INVALID_FILE "not a B image";
       mkGError FWUPD_ERROR_INVALID_FILE "not a C image"].
Proof.
  split.
  - apply (proj1 (proj2 (new_from_gtypes_probe_chain (fun _ => EmptyString)
                           (fun _ => EmptyString) ex_stream_b 0
                           FU_FIRMWARE_PARSE_FLAG_NO_SEARCH ∅))
             [ex_class_a] ex_class_b [ex_class_c]
             [mkGError FWUPD_ERROR_INVALID_FILE "not an A image"] ∅); reflexivity.
  - exact (proj2 (proj2 (new_from_gtypes_probe_chain (fun _ => EmptyString)
                           (fun _ => EmptyString) ex_stream8 0
                           FU_FIRMWARE_PARSE_FLAG_NO_SEARCH ∅))
             [ex_class_a; ex_class_b; ex_class_c]
             (mkGError FWUPD_ERROR_INVALID_FILE "not an A image")
             [mkGError FWUPD_ERROR_INVALID_FILE "not a B image";
              mkGError FWUPD_ERROR_INVALID_FILE "not a C image"] ∅ eq_refl).
Defined.

(** ** Adding an image *)

Lemma add_image_full_too_deep (h : heap) self img priv :
  h !! self = Some priv -> is_Some (h !! img) ->
  FU_FIRMWARE_IMAGE_DEPTH_MAX < priv_depth priv ->
  fu_firmware_add_image_full self img h = Some (Err too_deep_error, h).
Proof.
  intros Hself [ipriv Himg] Hdepth. unfold fu_firmware_add_image_full.
  rewrite Hself, Himg. by rewrite (proj2 (Z.ltb_lt _ _) Hdepth).
Qed.

(** A child other than the parent goes in when the parent is not deeper than
    the limit and has room: it comes last, after the dedupe, with the parent
    and the depth of the parent plus one; nothing else changes. *)
Lemma add_image_full_ok (h : heap) self img priv ipriv :
  h !! self = Some priv -> h !! img = Some ipriv -> img <> self ->
  priv_depth priv <= FU_FIRMWARE_IMAGE_DEPTH_MAX ->
  (priv_images_max priv <= 0 \/
   Z.of_nat (length (deduped h priv img)) < priv_images_max priv) ->
  fu_firmware_add_image_full self img h =
    Some (Ok tt,
          <[img := with_depth (to_guint (priv_depth priv + 1))
                     (with_parent (Some self) ipriv)]>
            (<[self := with_images (deduped h priv img ++ [img]) priv]> h)).
Proof.
  intros Hself Himg Hne Hdepth Hmax. unfold fu_firmware_add_image_full.
  rewrite Hself, Himg.
  rewrite (proj2 (Z.ltb_ge _ _) Hdepth).
  fold (deduped h priv img).
  replace ((0 <? priv_images_max priv) &&
           (priv_images_max priv <=? Z.of_nat (length (deduped h priv img)))) with false.
  2:{ symmetry. apply andb_false_iff.
      destruct Hmax; [left; apply Z.ltb_ge | right; apply Z.leb_gt]; lia. }
  rewrite insert_insert_eq.
  unfold fu_firmware_set_parent. rewrite lookup_insert_ne by done. rewrite Himg.
  unfold fu_firmware_set_depth. rewrite lookup_insert_eq. by rewrite insert_insert_eq.
Qed.

Lemma fresh_object (h : heap) : h !! fresh (dom h) = None.
Proof. apply not_elem_of_dom, is_fresh. Qed.

(** The nesting from an object at depth [d]: every call succeeds while the
    parent is at depth 50 or less, so the images get the depths [d + 1] up to
    51, and the first call on a parent at depth 51 fails. The depth of the
    objects that were there before stays. *)
Lemma nest_images_depths (n : nat) :
  forall (h : heap) deepest priv,
    h !! deepest = Some priv ->
    0 <= priv_depth priv <= 51 ->
    priv_images_max priv <= 0 ->
    exists imgs r h',
      nest_images n deepest h = Some (imgs, r, h') /\
      (forall p, is_Some (h !! p) -> fu_firmware_get_depth h' p = fu_firmware_get_depth h p) /\
      (priv_depth priv + Z.of_nat n <= 51 ->
       r = Ok tt /\
       map (fu_firmware_get_depth h') imgs = seqZ (priv_depth priv + 1) (Z.of_nat n)) /\
      (51 < priv_depth priv + Z.of_nat n ->
       r = Err too_deep_error /\
       map (fu_firmware_get_depth h') imgs =
         seqZ (priv_depth priv + 1) (51 - priv_depth priv)).
Proof.
  induction n as [|n IH]; intros h deepest priv Hdeepest Hd Hmax.
  - exists [], (Ok tt), h. simpl. split; [done|]. split; [done|]. split; [done|]. lia.
  - simpl nest_images. unfold fu_firmware_new.
    set (img := fresh (dom h)). set (h1 := <[img := fu_firmware_init]> h).
    assert (Himg : h !! img = None) by apply fresh_object.
    assert (Hne : img <> deepest) by (intros Heq; rewrite Heq in Himg; congruence).
    assert (Hdeepest1 : h1 !! deepest = Some priv) by (subst h1; by rewrite lookup_insert_ne).
    assert (Himg1 : h1 !! img = Some fu_firmware_init) by apply lookup_insert_eq.
    assert (Hframe1 : forall p, is_Some (h !! p) ->
              fu_firmware_get_depth h1 p = fu_firmware_get_depth h p).
    { intros p [pp Hp]. unfold fu_firmware_get_depth. subst h1.
      rewrite lookup_insert_ne; [done|]. intros Heq. rewrite Heq in Himg. congruence. }
    destruct (decide (priv_depth priv = 51)) as [H51|Hlt].
    + rewrite (add_image_full_too_deep h1 deepest img priv) by
        (try done; try eauto; unfold FU_FIRMWARE_IMAGE_DEPTH_MAX; lia).
      exists [], (Err too_deep_error), h1. split; [done|]. split; [done|].
      split; [lia|]. intros _. split; [done|]. rewrite H51. done.
    + rewrite (add_image_full_ok h1 deepest img priv fu_firmware_init) by
        (try done; unfold FU_FIRMWARE_IMAGE_DEPTH_MAX; lia).
      set (ipriv := with_depth _ _).
      set (h2 := <[img := ipriv]> _).
      assert (Hdepth : priv_depth ipriv = priv_depth priv + 1).
      { subst ipriv. simpl. unfold to_guint. apply Z.mod_small. lia. }
      assert (Himg2 : h2 !! img = Some ipriv) by apply lookup_insert_eq.
      destruct (IH h2 img ipriv Himg2) as (imgs & r & h3 & Hnest & Hframe & Hok & Hfail);
        [lia | done |].
      rewrite Hnest. exists (img :: imgs), r, h3. split; [done|].
      assert (Hframe2 : forall p, is_Some (h !! p) ->
                fu_firmware_get_depth h2 p = fu_firmware_get_depth h p).
      { intros p Hp. rewrite <- (Hframe1 p Hp). unfold fu_firmware_get_depth. subst h2.
        assert (p <> img) by (intros ->; destruct Hp; congruence).
        rewrite lookup_insert_ne by done.
        destruct (decide (p = deepest)) as [->|Hpd].
        - by rewrite lookup_insert_eq, Hdeepest1.
        - by rewrite lookup_insert_ne. }
      assert (Hhead : fu_firmware_get_depth h3 img = priv_depth priv + 1).
      { rewrite Hframe by eauto. unfold fu_firmware_get_depth. by rewrite Himg2. }
      split.
      { intros p Hp. rewrite <- (Hframe2 p Hp). apply Hframe. subst h2.
        destruct (decide (p = img)) as [->|]; [by rewrite lookup_insert_eq|].
        rewrite lookup_insert_ne by done.
        destruct (decide (p = deepest)) as [->|]; [by rewrite lookup_insert_eq|].
        rewrite lookup_insert_ne by done. subst h1. by rewrite lookup_insert_ne. }
      rewrite Hdepth in Hok, Hfail. split.
      * intros Hle. destruct Hok as [-> Hds]; [lia|]. split; [done|].
        simpl. rewrite Hhead, Hds.
        rewrite (seqZ_cons (priv_depth priv + 1)) by lia. f_equal. f_equal; lia.
      * intros Hgt. destruct Hfail as [-> Hds]; [lia|]. split; [done|].
        simpl. rewrite Hhead, Hds.
        rewrite (seqZ_cons (priv_depth priv + 1)) by lia. f_equal. f_equal; lia.
Qed.

(** C1, what the code does: from a root at depth 0 the 51st nested
    [fu_firmware_add_image_full] succeeds and gives its image the depth 51,
    above [FU_FIRMWARE_IMAGE_DEPTH_MAX]; the first call to fail is the 52nd,
    on the parent at depth 51. *)
Theorem nest_images_51_levels (h : heap) root priv :
  h !! root = Some priv ->
  priv_depth priv = 0 ->
  priv_images_max priv = 0 ->
  (exists imgs h',
     nest_images 51 root h = Some (imgs, Ok tt, h') /\
     map (fu_firmware_get_depth h') imgs = seqZ 1 51 /\
     last (map (fu_firmware_get_depth h') imgs) = Some (FU_FIRMWARE_IMAGE_DEPTH_MAX + 1)) /\
  (exists imgs h',
     nest_images 52 root h = Some (imgs, Err too_deep_error, h') /\
     map (fu_firmware_get_depth h') imgs = seqZ 1 51).
Proof.
  intros Hroot Hdepth Hmax. split.
  - destruct (nest_images_depths 51 h root priv Hroot) as (imgs & r & h' & Hnest & _ & Hok & _);
      [lia | lia |].
    rewrite Hdepth in Hok. destruct Hok as [-> Hds]; [lia|].
    exists imgs, h'. split; [done|]. split; [done|]. by rewrite Hds.
  - destruct (nest_images_depths 52 h root priv Hroot) as (imgs & r & h' & Hnest & _ & _ & Hfail);
      [lia | lia |].
    rewrite Hdepth in Hfail. destruct Hfail as [-> Hds]; [lia|].
    exists imgs, h'. done.
Qed.

Lemma nest_images_51_levels_witness :
  exists imgs h',
    nest_images 51 1%positive ex_root_heap = Some (imgs, Ok tt, h') /\
    map (fu_firmware_get_depth h') imgs = seqZ 1 51 /\
    last (map (fu_firmware_get_depth h') imgs) = Some 51.
Proof.
  apply (nest_images_51_levels ex_root_heap 1%positive fu_firmware_init); reflexivity.
Defined.

(** ** Dedupe *)

Section RemoveFirst.

Context {A : Type}.
Implicit Types (test other : A -> bool) (l : list A).

Lemma remove_first_none test l :
  Forall (fun x => test x = false) l -> remove_first test l = l.
Proof.
  induction l as [|x l IH]; [done|]. intros Hall. inversion Hall as [|? ? Hx Hl]; subst.
  simpl. rewrite Hx. by rewrite IH.
Qed.

Lemma remove_first_Forall (P : A -> Prop) test l :
  Forall P l -> Forall P (remove_first test l).
Proof.
  induction l as [|x l IH]; [done|]. intros Hall. inversion Hall; subst.
  simpl. destruct (test x); [done|]. constructor; auto.
Qed.

Lemma remove_first_length test l : (length (remove_first test l) <= length l)%nat.
Proof.
  induction l as [|x l IH]; [done|]. simpl. destruct (test x); simpl; lia.
Qed.

Lemma remove_first_last test l x :
  Forall (fun y => test y = false) l -> test x = true ->
  remove_first test (l ++ [x]) = l.
Proof.
  induction l as [|y l IH]; intros Hall Hx; simpl.
  - by rewrite Hx.
  - inversion Hall as [|? ? Hy Hl]; subst. rewrite Hy. by rewrite IH.
Qed.

(** Whatever a first loop with [other] removed from [l ++ [x]], a loop with
    [test] leaves no element that passes [test], when [x] is the only one of
    [l ++ [x]] that does. *)
Lemma remove_first_after test other l x :
  Forall (fun y => test y = false) l -> test x = true ->
  Forall (fun y => test y = false) (remove_first test (remove_first other (l ++ [x]))) /\
  (length (remove_first test (remove_first other (l ++ [x]))) <= length l)%nat.
Proof.
  induction l as [|y l IH]; intros Hall Hx; simpl.
  - destruct (other x); simpl; [done|]. rewrite Hx. done.
  - inversion Hall as [|? ? Hy Hl]; subst.
    destruct (other y).
    + rewrite remove_first_last by done. split; [done | lia].
    + simpl. rewrite Hy. destruct (IH Hl Hx) as [Hf Hlen].
      split; [by constructor | simpl; lia].
Qed.

Lemma filter_none (keep : A -> bool) l x :
  Forall (fun y => keep y = false) l -> keep x = true ->
  List.filter keep (l ++ [x]) = [x].
Proof.
  induction l as [|y l IH]; intros Hall Hx; simpl.
  - by rewrite Hx.
  - inversion Hall as [|? ? Hy Hl]; subst. rewrite Hy. by apply IH.
Qed.

End RemoveFirst.

(** The loop takes out the first element that passes the test, and leaves
    what comes before and after it. *)
Lemma remove_first_split {A : Type} (test : A -> bool) (before after : list A) (x : A) :
  Forall (fun y => test y = false) before -> test x = true ->
  remove_first test (before ++ x :: after) = before ++ after.
Proof.
  intros Hbefore Hx. induction Hbefore as [|y before Hy _ IH]; simpl.
  - by rewrite Hx.
  - by rewrite Hy, IH.
Qed.

(** When no two elements have the same key, the loop takes out every element
    with the key [v]. *)
Lemma remove_first_unique {A B : Type} (f : A -> B) (test : A -> bool) (v : B)
    (l : list A) :
  (forall y, test y = true <-> f y = v) ->
  NoDup (map f l) ->
  remove_first test l = List.filter (fun y => negb (test y)) l.
Proof.
  intros Htest. induction l as [|x l IH]; simpl; [done|].
  intros [Hnot Hnd]%NoDup_cons. destruct (test x) eqn:Hx; simpl.
  - apply Htest in Hx. symmetry. apply forallb_filter_id, forallb_forall.
    intros y Hy. apply negb_true_iff. destruct (test y) eqn:Hty; [|done].
    apply Htest in Hty. exfalso. apply Hnot. rewrite Hx, <- Hty.
    apply list_elem_of_In, in_map. exact Hy.
  - by rewrite IH.
Qed.

Lemma filter_not_Forall {A : Type} (test : A -> bool) (l : list A) :
  Forall (fun y => test y = false) (List.filter (fun y => negb (test y)) l).
Proof.
  apply Forall_forall. intros y Hy%list_elem_of_In%filter_In. destruct Hy as [_ Hy].
  by apply negb_true_iff.
Qed.

Lemma g_strcmp0_eq (a b : option string) : (g_strcmp0 a b =? 0) = bool_decide (a = b).
Proof.
  destruct a as [x|], b as [y|]; simpl; try done.
  - destruct (String.compare x y) eqn:Hc.
    + apply String.compare_eq_iff in Hc. subst. by rewrite bool_decide_eq_true_2.
    + rewrite bool_decide_eq_false_2; [done|]. intros [= ->].
      pose proof (String.compare_antisym y y) as Ha. rewrite Hc in Ha. discriminate.
    + rewrite bool_decide_eq_false_2; [done|]. intros [= ->].
      pose proof (String.compare_antisym y y) as Ha. rewrite Hc in Ha. discriminate.
Qed.

(** The id and the idx of every object stay as they are when an image is
    added. *)
Lemma add_image_heap_id (h : heap) self img new_self new_img priv ipriv :
  h !! self = Some priv -> h !! img = Some ipriv ->
  priv_id new_self = priv_id priv -> priv_id new_img = priv_id ipriv ->
  forall p, fu_firmware_get_id (<[img := new_img]> (<[self := new_self]> h)) p =
            fu_firmware_get_id h p.
Proof.
  intros Hself Himg Hs Hi p. unfold fu_firmware_get_id.
  destruct (decide (p = img)) as [->|]; [by rewrite lookup_insert_eq, Himg|].
  rewrite lookup_insert_ne by done.
  destruct (decide (p = self)) as [->|]; [by rewrite lookup_insert_eq, Hself|].
  by rewrite lookup_insert_ne.
Qed.

Lemma add_image_heap_idx (h : heap) self img new_self new_img priv ipriv :
  h !! self = Some priv -> h !! img = Some ipriv ->
  priv_idx new_self = priv_idx priv -> priv_idx new_img = priv_idx ipriv ->
  forall p, fu_firmware_get_idx (<[img := new_img]> (<[self := new_self]> h)) p =
            fu_firmware_get_idx h p.
Proof.
  intros Hself Himg Hs Hi p. unfold fu_firmware_get_idx.
  destruct (decide (p = img)) as [->|]; [by rewrite lookup_insert_eq, Himg|].
  rewrite lookup_insert_ne by done.
  destruct (decide (p = self)) as [->|]; [by rewrite lookup_insert_eq, Hself|].
  by rewrite lookup_insert_ne.
Qed.

Lemma deduped_length (h : heap) priv img :
  (length (deduped h priv img) <= length (priv_images priv))%nat.
Proof.
  unfold deduped.
  destruct (flag_set _ FU_FIRMWARE_FLAG_DEDUPE_ID), (flag_set _ FU_FIRMWARE_FLAG_DEDUPE_IDX);
    repeat (etrans; [apply remove_first_length|]); done.
Qed.

Lemma deduped_Forall (P : positive -> Prop) (h : heap) priv img :
  Forall P (priv_images priv) -> Forall P (deduped h priv img).
Proof.
  intros H. unfold deduped.
  destruct (flag_set _ FU_FIRMWARE_FLAG_DEDUPE_ID), (flag_set _ FU_FIRMWARE_FLAG_DEDUPE_IDX);
    repeat apply remove_first_Forall; done.
Qed.

Lemma remove_first_ext {A : Type} (test test' : A -> bool) (l : list A) :
  (forall x, test x = test' x) -> remove_first test l = remove_first test' l.
Proof.
  intros H. induction l as [|x l IH]; [done|]. simpl. by rewrite H, IH.
Qed.

Lemma deduped_ext (h h' : heap) priv img :
  (forall p, fu_firmware_get_id h' p = fu_firmware_get_id h p) ->
  (forall p, fu_firmware_get_idx h' p = fu_firmware_get_idx h p) ->
  deduped h' priv img = deduped h priv img.
Proof.
  intros Hid Hidx. unfold deduped.
  rewrite (remove_first_ext
             (fun img_tmp => g_strcmp0 (fu_firmware_get_id h' img_tmp)
                               (fu_firmware_get_id h' img) =? 0)
             (fun img_tmp => g_strcmp0 (fu_firmware_get_id h img_tmp)
                               (fu_firmware_get_id h img) =? 0))
    by (intros x; by rewrite !Hid).
  destruct (flag_set _ FU_FIRMWARE_FLAG_DEDUPE_ID), (flag_set _ FU_FIRMWARE_FLAG_DEDUPE_IDX);
    try done; apply remove_first_ext; intros x; by rewrite !Hidx.
Qed.

(** Two images added one after the other to a parent with room. *)
Lemma add_image_twice (h : heap) parent priv c1 c2 p1 p2 :
  h !! parent = Some priv -> h !! c1 = Some p1 -> h !! c2 = Some p2 ->
  c1 <> parent -> c2 <> parent ->
  priv_depth priv <= FU_FIRMWARE_IMAGE_DEPTH_MAX ->
  (priv_images_max priv <= 0 \/ Z.of_nat (length (priv_images priv)) < priv_images_max priv) ->
  (length (deduped h (with_images (deduped h priv c1 ++ [c1]) priv) c2)
   <= length (priv_images priv))%nat ->
  exists h1 h2,
    fu_firmware_add_image_full parent c1 h = Some (Ok tt, h1) /\
    fu_firmware_add_image_full parent c2 h1 = Some (Ok tt, h2) /\
    h2 !! parent =
      Some (with_images
              (deduped h (with_images (deduped h priv c1 ++ [c1]) priv) c2 ++ [c2]) priv) /\
    (forall p, fu_firmware_get_id h2 p = fu_firmware_get_id h p) /\
    (forall p, fu_firmware_get_idx h2 p = fu_firmware_get_idx h p).
Proof.
  intros Hparent Hc1 Hc2 Hne1 Hne2 Hdepth Hmax Hlen.
  set (priv1 := with_images (deduped h priv c1 ++ [c1]) priv) in *.
  set (p1' := with_depth (to_guint (priv_depth priv + 1)) (with_parent (Some parent) p1)).
  set (h1 := <[c1 := p1']> (<[parent := priv1]> h)).
  assert (Hadd1 : fu_firmware_add_image_full parent c1 h = Some (Ok tt, h1)).
  { apply add_image_full_ok; try done.
    pose proof (deduped_length h priv c1). destruct Hmax; [by left | right; lia]. }
  assert (Hid1 : forall p, fu_firmware_get_id h1 p = fu_firmware_get_id h p)
    by (by apply (add_image_heap_id h parent c1 priv1 p1' priv p1)).
  assert (Hidx1 : forall p, fu_firmware_get_idx h1 p = fu_firmware_get_idx h p)
    by (by apply (add_image_heap_idx h parent c1 priv1 p1' priv p1)).
  assert (Hparent1 : h1 !! parent = Some priv1).
  { subst h1. rewrite lookup_insert_ne by done. apply lookup_insert_eq. }
  assert (Hc2' : exists p2', h1 !! c2 = Some p2').
  { subst h1. destruct (decide (c2 = c1)) as [->|].
    - rewrite lookup_insert_eq. eauto.
    - rewrite !lookup_insert_ne by done. eauto. }
  destruct Hc2' as [p2' Hc2'].
  set (images2 := deduped h priv1 c2) in *.
  set (p2'' := with_depth (to_guint (priv_depth priv1 + 1)) (with_parent (Some parent) p2')).
  set (h2 := <[c2 := p2'']> (<[parent := with_images (images2 ++ [c2]) priv1]> h1)).
  assert (Hadd2 : fu_firmware_add_image_full parent c2 h1 = Some (Ok tt, h2)).
  { subst h2 images2. rewrite <- (deduped_ext h h1 priv1 c2 Hid1 Hidx1).
    apply add_image_full_ok; try done.
    rewrite (deduped_ext h h1 priv1 c2 Hid1 Hidx1).
    destruct Hmax; [by left | right; simpl; lia]. }
  exists h1, h2. split; [done|]. split; [done|]. split.
  { subst h2. rewrite lookup_insert_ne by done. by rewrite lookup_insert_eq. }
  split.
  - intros p. rewrite <- Hid1.
    by apply (add_image_heap_id h1 parent c2 _ p2'' priv1 p2').
  - intros p. rewrite <- Hidx1.
    by apply (add_image_heap_idx h1 parent c2 _ p2'' priv1 p2').
Qed.

(** C9: on a parent with the dedupe-by-id flag, adding an image whose id an
    image of the parent has takes out the first such image, leaves the other
    images where they are and puts the new image last (the dedupe-by-idx
    flag is not set, or no image has the idx of the new one). So when two
    images with one id are added one after the other, both calls succeed and
    the parent is left with exactly one image of that id, the second one:
    on a parent that had no image of that id, and on a parent whose images
    have pairwise different ids, where the images of other ids all stay, in
    their order. The same holds with the dedupe-by-idx flag for the idx.
    The images are objects other than the parent, which is not deeper than
    the limit and has room. *)
Theorem add_image_dedupe (h : heap) parent priv c1 c2 p1 p2 :
  h !! parent = Some priv -> h !! c1 = Some p1 -> h !! c2 = Some p2 ->
  c1 <> parent -> c2 <> parent ->
  priv_depth priv <= FU_FIRMWARE_IMAGE_DEPTH_MAX ->
  (priv_images_max priv <= 0 \/ Z.of_nat (length (priv_images priv)) < priv_images_max priv) ->
  (flag_set (priv_flags priv) FU_FIRMWARE_FLAG_DEDUPE_ID = true ->
   priv_id p1 = priv_id p2 ->
   Forall (fun c => fu_firmware_get_id h c <> priv_id p2) (priv_images priv) ->
   exists h1 h2 priv2,
     fu_firmware_add_image_full parent c1 h = Some (Ok tt, h1) /\
     fu_firmware_add_image_full parent c2 h1 = Some (Ok tt, h2) /\
     h2 !! parent = Some priv2 /\
     List.filter (fun c => bool_decide (fu_firmware_get_id h2 c = priv_id p2))
       (priv_images priv2) = [c2]) /\
  (flag_set (priv_flags priv) FU_FIRMWARE_FLAG_DEDUPE_IDX = true ->
   priv_idx p1 = priv_idx p2 ->
   Forall (fun c => fu_firmware_get_idx h c <> priv_idx p2) (priv_images priv) ->
   exists h1 h2 priv2,
     fu_firmware_add_image_full parent c1 h = Some (Ok tt, h1) /\
     fu_firmware_add_image_full parent c2 h1 = Some (Ok tt, h2) /\
     h2 !! parent = Some priv2 /\
     List.filter (fun c => bool_decide (fu_firmware_get_idx h2 c = priv_idx p2))
       (priv_images priv2) = [c2]) /\
  (flag_set (priv_flags priv) FU_FIRMWARE_FLAG_DEDUPE_ID = true ->
   (flag_set (priv_flags priv) FU_FIRMWARE_FLAG_DEDUPE_IDX = false \/
    Forall (fun c => fu_firmware_get_idx h c <> priv_idx p1) (priv_images priv)) ->
   forall before old after,
     priv_images priv = before ++ old :: after ->
     fu_firmware_get_id h old = priv_id p1 ->
     Forall (fun c => fu_firmware_get_id h c <> priv_id p1) before ->
     exists h1 priv1,
       fu_firmware_add_image_full parent c1 h = Some (Ok tt, h1) /\
       h1 !! parent = Some priv1 /\
       priv_images priv1 = before ++ after ++ [c1]) /\
  (flag_set (priv_flags priv) FU_FIRMWARE_FLAG_DEDUPE_IDX = true ->
   (flag_set (priv_flags priv) FU_FIRMWARE_FLAG_DEDUPE_ID = false \/
    Forall (fun c => fu_firmware_get_id h c <> priv_id p1) (priv_images priv)) ->
   forall before old after,
     priv_images priv = before ++ old :: after ->
     fu_firmware_get_idx h old = priv_idx p1 ->
     Forall (fun c => fu_firmware_get_idx h c <> priv_idx p1) before ->
     exists h1 priv1,
       fu_firmware_add_image_full parent c1 h = Some (Ok tt, h1) /\
       h1 !! parent = Some priv1 /\
       priv_images priv1 = before ++ after ++ [c1]) /\
  (flag_set (priv_flags priv) FU_FIRMWARE_FLAG_DEDUPE_ID = true ->
   flag_set (priv_flags priv) FU_FIRMWARE_FLAG_DEDUPE_IDX = false ->
   priv_id p1 = priv_id p2 ->
   NoDup (map (fu_firmware_get_id h) (priv_images priv)) ->
   exists h1 h2 priv2,
     fu_firmware_add_image_full parent c1 h = Some (Ok tt, h1) /\
     fu_firmware_add_image_full parent c2 h1 = Some (Ok tt, h2) /\
     h2 !! parent = Some priv2 /\
     priv_images priv2 =
       List.filter (fun c => negb (bool_decide (fu_firmware_get_id h c = priv_id p2)))
         (priv_images priv) ++ [c2]) /\
  (flag_set (priv_flags priv) FU_FIRMWARE_FLAG_DEDUPE_IDX = true ->
   flag_set (priv_flags priv) FU_FIRMWARE_FLAG_DEDUPE_ID = false ->
   priv_idx p1 = priv_idx p2 ->
   NoDup (map (fu_firmware_get_idx h) (priv_images priv)) ->
   exists h1 h2 priv2,
     fu_firmware_add_image_full parent c1 h = Some (Ok tt, h1) /\
     fu_firmware_add_image_full parent c2 h1 = Some (Ok tt, h2) /\
     h2 !! parent = Some priv2 /\
     priv_images priv2 =
       List.filter (fun c => negb (fu_firmware_get_idx h c =? priv_idx p2))
         (priv_images priv) ++ [c2]).
Proof.
  intros Hparent Hc1 Hc2 Hne1 Hne2 Hdepth Hmax.
  assert (Hid1 : fu_firmware_get_id h c1 = priv_id p1)
    by (unfold fu_firmware_get_id; by rewrite Hc1).
  assert (Hid2 : fu_firmware_get_id h c2 = priv_id p2)
    by (unfold fu_firmware_get_id; by rewrite Hc2).
  assert (Hidx1 : fu_firmware_get_idx h c1 = priv_idx p1)
    by (unfold fu_firmware_get_idx; by rewrite Hc1).
  assert (Hidx2 : fu_firmware_get_idx h c2 = priv_idx p2)
    by (unfold fu_firmware_get_idx; by rewrite Hc2).
  split; [|split; [|split; [|split; [|split]]]].
  - intros Hflag Hsame Hnone.
    set (test := fun c => bool_decide (fu_firmware_get_id h c = priv_id p2)).
    assert (Hnone' : Forall (fun c => test c = false) (priv_images priv)).
    { eapply Forall_impl; [exact Hnone|]. intros c Hc. by apply bool_decide_eq_false_2. }
    pose proof (deduped_Forall _ h priv c1 Hnone') as Hd1.
    assert (Hd2 : deduped h (with_images (deduped h priv c1 ++ [c1]) priv) c2 =
                  (if flag_set (priv_flags priv) FU_FIRMWARE_FLAG_DEDUPE_IDX
                   then remove_first
                          (fun c => fu_firmware_get_idx h c =? fu_firmware_get_idx h c2)
                          (deduped h priv c1)
                   else deduped h priv c1)).
    { unfold deduped at 1. cbn [priv_flags priv_images with_images]. rewrite Hflag.
      rewrite (remove_first_ext
                 (fun c => g_strcmp0 (fu_firmware_get_id h c) (fu_firmware_get_id h c2) =? 0)
                 test)
        by (intros c; rewrite Hid2; apply g_strcmp0_eq).
      rewrite remove_first_last; [done | done |].
      subst test. simpl. apply bool_decide_eq_true_2. congruence. }
    assert (Hd2all : Forall (fun c => test c = false)
                       (deduped h (with_images (deduped h priv c1 ++ [c1]) priv) c2)).
    { rewrite Hd2. destruct (flag_set (priv_flags priv) FU_FIRMWARE_FLAG_DEDUPE_IDX);
        [by apply remove_first_Forall | done]. }
    destruct (add_image_twice h parent priv c1 c2 p1 p2) as (h1 & h2 & Ha1 & Ha2 & Hp2 & Hids & _);
      try done.
    { rewrite Hd2. pose proof (deduped_length h priv c1).
      destruct (flag_set (priv_flags priv) FU_FIRMWARE_FLAG_DEDUPE_IDX); [|done].
      etrans; [apply remove_first_length | done]. }
    eexists h1, h2, _. split; [done|]. split; [done|]. split; [exact Hp2|].
    cbn [priv_images with_images].
    rewrite (filter_ext _ test) by (intros c; by rewrite Hids).
    apply filter_none; [done|]. subst test. simpl. by apply bool_decide_eq_true_2.
  - intros Hflag Hsame Hnone.
    set (test := fun c => fu_firmware_get_idx h c =? fu_firmware_get_idx h c2).
    assert (Hnone' : Forall (fun c => test c = false) (priv_images priv)).
    { eapply Forall_impl; [exact Hnone|]. intros c Hc. subst test. simpl.
      apply Z.eqb_neq. by rewrite Hidx2. }
    pose proof (deduped_Forall _ h priv c1 Hnone') as Hd1.
    assert (Htest1 : test c1 = true).
    { subst test. simpl. apply Z.eqb_eq. congruence. }
    assert (Hd2 : Forall (fun c => test c = false)
                    (deduped h (with_images (deduped h priv c1 ++ [c1]) priv) c2) /\
                  (length (deduped h (with_images (deduped h priv c1 ++ [c1]) priv) c2)
                   <= length (deduped h priv c1))%nat).
    { unfold deduped at 1 3. cbn [priv_flags priv_images with_images]. rewrite Hflag.
      fold test. destruct (flag_set (priv_flags priv) FU_FIRMWARE_FLAG_DEDUPE_ID).
      - by apply remove_first_after.
      - rewrite remove_first_last by done. done. }
    destruct Hd2 as [Hd2all Hd2len].
    destruct (add_image_twice h parent priv c1 c2 p1 p2) as (h1 & h2 & Ha1 & Ha2 & Hp2 & _ & Hidxs);
      try done.
    { pose proof (deduped_length h priv c1). lia. }
    eexists h1, h2, _. split; [done|]. split; [done|]. split; [exact Hp2|].
    cbn [priv_images with_images].
    rewrite (filter_ext _ test).
    2:{ intros c. rewrite Hidxs. subst test. simpl. rewrite Hidx2.
        destruct (Z.eqb_spec (fu_firmware_get_idx h c) (priv_idx p2)).
        - by apply bool_decide_eq_true_2.
        - by apply bool_decide_eq_false_2. }
    apply filter_none; [done|]. subst test. simpl. apply Z.eqb_refl.
  - (* one image added, by id *)
    intros Hflag Hother before old after Himages Hold Hbefore.
    assert (Hded : deduped h priv c1 = before ++ after).
    { unfold deduped. rewrite Hflag, Himages.
      rewrite (remove_first_ext
                 (fun c => g_strcmp0 (fu_firmware_get_id h c) (fu_firmware_get_id h c1) =? 0)
                 (fun c => bool_decide (fu_firmware_get_id h c = priv_id p1)))
        by (intros c; rewrite Hid1; apply g_strcmp0_eq).
      rewrite remove_first_split.
      - destruct Hother as [-> | Hnone]; [done|].
        destruct (flag_set (priv_flags priv) FU_FIRMWARE_FLAG_DEDUPE_IDX); [|done].
        apply remove_first_none. rewrite Himages in Hnone.
        apply Forall_app in Hnone as [Hn1 Hn2]. inversion Hn2 as [|? ? _ Hn3]; subst.
        apply Forall_app.
        split; [eapply Forall_impl; [exact Hn1|] | eapply Forall_impl; [exact Hn3|]];
          intros c Hc; apply Z.eqb_neq; by rewrite Hidx1.
      - eapply Forall_impl; [exact Hbefore|]. intros c Hc. by apply bool_decide_eq_false_2.
      - by apply bool_decide_eq_true_2. }
    eexists _, _. split.
    + apply add_image_full_ok; try done. rewrite Hded.
      destruct Hmax as [Hmax | Hmax]; [by left | right].
      rewrite Himages in Hmax. rewrite !length_app in *. simpl in Hmax. lia.
    + split.
      * rewrite lookup_insert_ne by done. apply lookup_insert_eq.
      * simpl. by rewrite Hded, <- app_assoc.
  - (* one image added, by idx *)
    intros Hflag Hother before old after Himages Hold Hbefore.
    assert (Hded : deduped h priv c1 = before ++ after).
    { unfold deduped. rewrite Hflag, Himages.
      assert (Hids : (if flag_set (priv_flags priv) FU_FIRMWARE_FLAG_DEDUPE_ID
                      then remove_first
                             (fun c => g_strcmp0 (fu_firmware_get_id h c)
                                         (fu_firmware_get_id h c1) =? 0)
                             (before ++ old :: after)
                      else before ++ old :: after) = before ++ old :: after).
      { destruct Hother as [-> | Hnone]; [done|].
        destruct (flag_set (priv_flags priv) FU_FIRMWARE_FLAG_DEDUPE_ID); [|done].
        apply remove_first_none. rewrite Himages in Hnone.
        eapply Forall_impl; [exact Hnone|]. intros c Hc.
        rewrite g_strcmp0_eq, Hid1. by apply bool_decide_eq_false_2. }
      rewrite Hids. apply remove_first_split.
      - eapply Forall_impl; [exact Hbefore|]. intros c Hc. apply Z.eqb_neq. by rewrite Hidx1.
      - apply Z.eqb_eq. by rewrite Hidx1. }
    eexists _, _. split.
    + apply add_image_full_ok; try done. rewrite Hded.
      destruct Hmax as [Hmax | Hmax]; [by left | right].
      rewrite Himages in Hmax. rewrite !length_app in *. simpl in Hmax. lia.
    + split.
      * rewrite lookup_insert_ne by done. apply lookup_insert_eq.
      * simpl. by rewrite Hded, <- app_assoc.
  - (* two images added, by id *)
    intros Hflag Hnoidx Hsame Hnd.
    set (test := fun c => bool_decide (fu_firmware_get_id h c = priv_id p2)).
    set (rest := List.filter (fun c => negb (test c)) (priv_images priv)).
    assert (Hd1 : deduped h priv c1 = rest).
    { unfold deduped. rewrite Hflag, Hnoidx.
      rewrite (remove_first_ext
                 (fun c => g_strcmp0 (fu_firmware_get_id h c) (fu_firmware_get_id h c1) =? 0)
                 test)
        by (intros c; rewrite Hid1, Hsame; apply g_strcmp0_eq).
      apply (remove_first_unique (fu_firmware_get_id h) test (priv_id p2)); [|done].
      intros c. subst test. simpl. apply bool_decide_eq_true. }
    assert (Hd2 : deduped h (with_images (deduped h priv c1 ++ [c1]) priv) c2 = rest).
    { unfold deduped at 1. cbn [priv_flags priv_images with_images]. rewrite Hflag, Hnoidx.
      rewrite (remove_first_ext
                 (fun c => g_strcmp0 (fu_firmware_get_id h c) (fu_firmware_get_id h c2) =? 0)
                 test)
        by (intros c; rewrite Hid2; apply g_strcmp0_eq).
      rewrite Hd1. apply remove_first_last; [apply filter_not_Forall|].
      subst test. simpl. apply bool_decide_eq_true_2. congruence. }
    assert (Hlen : (length rest <= length (priv_images priv))%nat).
    { rewrite <- Hd1. apply deduped_length. }
    destruct (add_image_twice h parent priv c1 c2 p1 p2) as (h1 & h2 & Ha1 & Ha2 & Hp2 & _ & _);
      try done.
    { by rewrite Hd2. }
    eexists h1, h2, _. split; [done|]. split; [done|]. split; [exact Hp2|].
    cbn [priv_images with_images]. by rewrite Hd2.
  - (* two images added, by idx *)
    intros Hflag Hnoid Hsame Hnd.
    set (test := fun c => fu_firmware_get_idx h c =? priv_idx p2).
    set (rest := List.filter (fun c => negb (test c)) (priv_images priv)).
    assert (Hd1 : deduped h priv c1 = rest).
    { unfold deduped. rewrite Hflag, Hnoid.
      rewrite (remove_first_ext
                 (fun c => fu_firmware_get_idx h c =? fu_firmware_get_idx h c1) test)
        by (intros c; by rewrite Hidx1, Hsame).
      apply (remove_first_unique (fu_firmware_get_idx h) test (priv_idx p2)); [|done].
      intros c. subst test. simpl. apply Z.eqb_eq. }
    assert (Hd2 : deduped h (with_images (deduped h priv c1 ++ [c1]) priv) c2 = rest).
    { unfold deduped at 1. cbn [priv_flags priv_images with_images]. rewrite Hflag, Hnoid.
      rewrite (remove_first_ext
                 (fun c => fu_firmware_get_idx h c =? fu_firmware_get_idx h c2) test)
        by (intros c; by rewrite Hidx2).
      rewrite Hd1. apply remove_first_last; [apply filter_not_Forall|].
      subst test. simpl. apply Z.eqb_eq. congruence. }
    assert (Hlen : (length rest <= length (priv_images priv))%nat).
    { rewrite <- Hd1. apply deduped_length. }
    destruct (add_image_twice h parent priv c1 c2 p1 p2) as (h1 & h2 & Ha1 & Ha2 & Hp2 & _ & _);
      try done.
    { by rewrite Hd2. }
    eexists h1, h2, _. split; [done|]. split; [done|]. split; [exact Hp2|].
    cbn [priv_images with_images]. by rewrite Hd2.
Qed.

Lemma add_image_dedupe_witness :
  exists h1 h2 priv2,
    fu_firmware_add_image_full 1%positive 5%positive ex_replace_heap = Some (Ok tt, h1) /\
    fu_firmware_add_image_full 1%positive 6%positive h1 = Some (Ok tt, h2) /\
    h2 !! 1%positive = Some priv2 /\
    priv_images priv2 = [2%positive; 4%positive; 6%positive].
Proof.
  assert (Hroom : priv_images_max
                    (with_images [2%positive; 3%positive; 4%positive]
                       (fu_firmware_add_flag FU_FIRMWARE_FLAG_DEDUPE_ID fu_firmware_init))
                  <= 0 \/
                  Z.of_nat (length (priv_images
                    (with_images [2%positive; 3%positive; 4%positive]
                       (fu_firmware_add_flag FU_FIRMWARE_FLAG_DEDUPE_ID fu_firmware_init))))
                  < priv_images_max
                      (with_images [2%positive; 3%positive; 4%positive]
                         (fu_firmware_add_flag FU_FIRMWARE_FLAG_DEDUPE_ID fu_firmware_init)))
    by (left; simpl; lia).
  assert (Hdepth : priv_depth
                     (with_images [2%positive; 3%positive; 4%positive]
                        (fu_firmware_add_flag FU_FIRMWARE_FLAG_DEDUPE_ID fu_firmware_init))
                   <= FU_FIRMWARE_IMAGE_DEPTH_MAX) by (vm_compute; discriminate).
  assert (Hnd : NoDup (map (fu_firmware_get_id ex_replace_heap)
                         [2%positive; 3%positive; 4%positive])).
  { change (NoDup [Some "y"%string; Some "x"%string; Some "z"%string]).
    repeat (apply NoDup_cons; split;
            [intros Hin; repeat (apply elem_of_cons in Hin as [Hin | Hin]; [discriminate|]);
             by apply not_elem_of_nil in Hin|]).
    apply NoDup_nil_2. }
  exact (proj1 (proj2 (proj2 (proj2 (proj2
           (add_image_dedupe ex_replace_heap 1%positive
              (with_images [2%positive; 3%positive; 4%positive]
                 (fu_firmware_add_flag FU_FIRMWARE_FLAG_DEDUPE_ID fu_firmware_init))
              5%positive 6%positive
              (with_id (Some "x"%string) fu_firmware_init)
              (with_id (Some "x"%string) fu_firmware_init)
              eq_refl eq_refl eq_refl ltac:(done) ltac:(done) Hdepth Hroom)))))
           eq_refl eq_refl eq_refl Hnd).
Defined.

(** ** Looking an image up by id *)

Lemma find_first {A : Type} (test : A -> bool) (l : list A) :
  match List.find test l with
  | Some x =>
      exists pre post,
        l = pre ++ x :: post /\ test x = true /\ Forall (fun y => test y = false) pre
  | None => Forall (fun y => test y = false) l
  end.
Proof.
  induction l as [|y l IH]; simpl; [constructor|].
  destruct (test y) eqn:Hy.
  - exists [], l. done.
  - destruct (List.find test l) as [x|].
    + destruct IH as (pre & post & -> & Hx & Hpre).
      exists (y :: pre), post. split; [done|]. split; [done|]. by constructor.
    + by constructor.
Qed.









(** ** Aligning up *)

Lemma land_low_bits (x a : Z) : 0 <= a -> Z.land x (2 ^ a - 1) = x mod 2 ^ a.
Proof.
  intros Ha. rewrite <- Z.land_ones by done. f_equal. rewrite Z.ones_equiv. lia.
Qed.

Lemma land_high_bits (x a : Z) :
  0 <= x < 2 ^ 64 -> 0 <= a ->
  Z.land x (to_guint64 (Z.lnot (2 ^ a - 1))) = x - x mod 2 ^ a.
Proof.
  intros Hx Ha. unfold to_guint64.
  rewrite <- (Z.land_ones _ 64) by lia.
  rewrite (Z.land_comm (Z.lnot _)), Z.land_assoc.
  rewrite (Z.land_ones x), (Z.mod_small x) by lia.
  rewrite <- Z.ldiff_land.
  replace (2 ^ a - 1) with (Z.ones a) by (rewrite Z.ones_equiv; lia).
  rewrite Z.ldiff_ones_r, Z.shiftr_div_pow2, Z.shiftl_mul_pow2 by lia.
  pose proof (Z.pow_pos_nonneg 2 a).
  rewrite (Z.div_mod x (2 ^ a)) at 2 by lia. lia.
Qed.

(** What [fu_common_align_up] computes, by cases. *)
Lemma align_up_cases (value alignment : Z) :
  0 <= value < 2 ^ 64 -> 0 <= alignment <= 31 ->
  fu_common_align_up value alignment =
    if value mod 2 ^ alignment =? 0 then value
    else if value + 2 ^ alignment <? 2 ^ 64
         then value + 2 ^ alignment - value mod 2 ^ alignment
         else G_MAXSIZE.
Proof.
  intros Hv Ha. unfold fu_common_align_up, FU_FIRMWARE_ALIGNMENT_2G.
  rewrite alignment_size by lia.
  replace (31 <? alignment) with false by (symmetry; apply Z.ltb_ge; lia).
  rewrite land_low_bits by lia.
  destruct (value mod 2 ^ alignment =? 0) eqn:Hmod; [done|].
  apply Z.eqb_neq in Hmod.
  assert (Hpow : 0 < 2 ^ alignment <= 2 ^ 31).
  { split; [apply Z.pow_pos_nonneg; lia | apply Z.pow_le_mono_r; lia]. }
  pose proof (Z.mod_pos_bound value (2 ^ alignment)) as Hrem.
  assert (Hto : 0 <= to_guint64 (value + 2 ^ alignment) < 2 ^ 64)
    by (apply Z.mod_pos_bound; lia).
  rewrite land_high_bits by (done || lia).
  unfold to_guint64.
  destruct (value + 2 ^ alignment <? 2 ^ 64) eqn:Hfit.
  - apply Z.ltb_lt in Hfit. rewrite (Z.mod_small (value + 2 ^ alignment)) by lia.
    replace ((value + 2 ^ alignment) mod 2 ^ alignment) with (value mod 2 ^ alignment).
    2:{ rewrite <- (Z.mul_1_l (2 ^ alignment)) at 2. by rewrite Z.mod_add by lia. }
    replace (_ <? value) with false by (symmetry; apply Z.ltb_ge; lia). done.
  - apply Z.ltb_ge in Hfit.
    replace ((value + 2 ^ alignment) mod 2 ^ 64) with (value + 2 ^ alignment - 2 ^ 64).
    2:{ symmetry. rewrite <- (Z.mod_small (value + 2 ^ alignment - 2 ^ 64) (2 ^ 64)) by lia.
        replace (value + 2 ^ alignment - 2 ^ 64)
          with (value + 2 ^ alignment + (-1) * 2 ^ 64) by lia.
        by rewrite Z.mod_add by lia. }
    rewrite (Z.mod_small (value + 2 ^ alignment - 2 ^ 64)) by lia.
    replace (_ <? value) with true by (symmetry; apply Z.ltb_lt; lia). done.
Qed.

(** X1: for a [gsize] value and an alignment up to 0x1F,
    [fu_common_align_up] returns the value itself when it is a multiple of
    [1 << alignment]; otherwise the one multiple of it in the next
    [1 << alignment] values, as long as that is below 2^64; and [G_MAXSIZE]
    when it is not. An alignment above 0x1F gives [G_MAXSIZE]. *)
Theorem align_up_least_multiple (value alignment : Z) :
  0 <= value < 2 ^ 64 ->
  0 <= alignment ->
  let r := fu_common_align_up value alignment in
  (31 < alignment -> r = G_MAXSIZE) /\
  (alignment <= 31 ->
   (value mod 2 ^ alignment = 0 -> r = value) /\
   (value <= 2 ^ 64 - 2 ^ alignment ->
    r mod 2 ^ alignment = 0 /\ value <= r < value + 2 ^ alignment) /\
   (2 ^ 64 - 2 ^ alignment < value -> r = G_MAXSIZE)).
Proof.
  intros Hv Ha r. split.
  { intros Hbig. subst r. unfold fu_common_align_up, FU_FIRMWARE_ALIGNMENT_2G.
    by rewrite (proj2 (Z.ltb_lt _ _) Hbig). }
  intros Hsmall. subst r. rewrite align_up_cases by lia.
  assert (Hpow : 0 < 2 ^ alignment <= 2 ^ 31).
  { split; [apply Z.pow_pos_nonneg; lia | apply Z.pow_le_mono_r; lia]. }
  pose proof (Z.mod_pos_bound value (2 ^ alignment)) as Hrem.
  split; [|split].
  - intros ->. done.
  - intros Hfit. destruct (value mod 2 ^ alignment =? 0) eqn:Hmod.
    + apply Z.eqb_eq in Hmod. lia.
    + apply Z.eqb_neq in Hmod.
      replace (value + 2 ^ alignment <? 2 ^ 64) with true.
      2:{ symmetry. apply Z.ltb_lt.
          (* the multiples of the alignment end at 2^64 - 2^alignment *)
          assert ((2 ^ 64 - 2 ^ alignment) mod 2 ^ alignment = 0).
          { replace (2 ^ 64) with (2 ^ (64 - alignment) * 2 ^ alignment)
              by (rewrite <- Z.pow_add_r by lia; f_equal; lia).
            replace (2 ^ (64 - alignment) * 2 ^ alignment - 2 ^ alignment)
              with ((2 ^ (64 - alignment) - 1) * 2 ^ alignment) by lia.
            apply Z.mod_mul. lia. }
          destruct (decide (value = 2 ^ 64 - 2 ^ alignment)); [congruence | lia]. }
      split; [|lia].
      replace (value + 2 ^ alignment - value mod 2 ^ alignment)
        with ((value / 2 ^ alignment + 1) * 2 ^ alignment).
      * apply Z.mod_mul. lia.
      * rewrite (Z.div_mod value (2 ^ alignment)) at 2 by lia. lia.
  - intros Hover.
    assert (Hmod : value mod 2 ^ alignment <> 0).
    { intros Hmod. apply Z.mod_divide in Hmod as [k Hk]; [|lia].
      assert (H64 : 2 ^ 64 = 2 ^ (64 - alignment) * 2 ^ alignment)
        by (rewrite <- Z.pow_add_r by lia; f_equal; lia).
      subst value. clear Hrem.
      remember (2 ^ alignment) as P eqn:HeqP. remember (2 ^ (64 - alignment)) as Q eqn:HeqQ.
      clear HeqP HeqQ. rewrite H64 in Hover, Hv.
      assert (k < Q) by nia. assert (Q - 1 < k) by nia. lia. }
    apply Z.eqb_neq in Hmod. rewrite Hmod.
    replace (value + 2 ^ alignment <? 2 ^ 64) with false
      by (symmetry; apply Z.ltb_ge; lia).
    done.
Qed.

Lemma align_up_least_multiple_witness :
  fu_common_align_up 5 2 mod 2 ^ 2 = 0 /\ 5 <= fu_common_align_up 5 2 < 5 + 2 ^ 2.
Proof.
  apply (proj1 (proj2 (proj2 (align_up_least_multiple 5 2 ltac:(lia) ltac:(lia))
                         ltac:(lia)))). lia.
Defined.

(** X2: aligning a second time changes nothing, also when the first call
    returned [G_MAXSIZE] for an overflow. *)
Theorem align_up_idempotent (value alignment : Z) :
  0 <= value < 2 ^ 64 ->
  0 <= alignment <= 31 ->
  fu_common_align_up (fu_common_align_up value alignment) alignment =
  fu_common_align_up value alignment.
Proof.
  intros Hv Ha.
  assert (Hpow : 0 < 2 ^ alignment <= 2 ^ 31).
  { split; [apply Z.pow_pos_nonneg; lia | apply Z.pow_le_mono_r; lia]. }
  pose proof (Z.mod_pos_bound value (2 ^ alignment)) as Hrem.
  rewrite (align_up_cases value) by done.
  destruct (value mod 2 ^ alignment =? 0) eqn:Hmod.
  - rewrite align_up_cases by done. by rewrite Hmod.
  - apply Z.eqb_neq in Hmod. destruct (value + 2 ^ alignment <? 2 ^ 64) eqn:Hfit.
    + apply Z.ltb_lt in Hfit. rewrite align_up_cases by lia.
      replace ((value + 2 ^ alignment - value mod 2 ^ alignment) mod 2 ^ alignment) with 0.
      * done.
      * symmetry.
        replace (value + 2 ^ alignment - value mod 2 ^ alignment)
          with ((value / 2 ^ alignment + 1) * 2 ^ alignment).
        { apply Z.mod_mul. lia. }
        rewrite (Z.div_mod value (2 ^ alignment)) at 2 by lia. lia.
    + rewrite align_up_cases by (unfold G_MAXSIZE; lia).
      destruct (G_MAXSIZE mod 2 ^ alignment =? 0); [done|].
      replace (G_MAXSIZE + 2 ^ alignment <? 2 ^ 64) with false; [done|].
      symmetry. apply Z.ltb_ge. unfold G_MAXSIZE. lia.
Qed.

Lemma align_up_idempotent_witness :
  fu_common_align_up (fu_common_align_up (2 ^ 64 - 3) 4) 4 =
  fu_common_align_up (2 ^ 64 - 3) 4.
Proof. apply align_up_idempotent; lia. Defined.

(** ** Bit helpers of the plugins *)

(** X3: on a byte, [fu_ch341a_device_reverse_uint8] mirrors the bits, bit
    [i] of the result being bit [7 - i] of the value; the result is a byte
    again and reversing it gives the value back. *)
Theorem reverse_uint8_mirror (value : Z) :
  0 <= value < 256 ->
  let r := fu_ch341a_device_reverse_uint8 value in
  0 <= r < 256 /\
  (forall i, 0 <= i < 8 -> Z.testbit r i = Z.testbit value (7 - i)) /\
  fu_ch341a_device_reverse_uint8 r = value.
Proof.
  intros Hv.
  pose (bits := fun v r : Z =>
          forallb (fun i => eqb (Z.testbit r i) (Z.testbit v (7 - i)))
                  (map Z.of_nat (seq 0 8))).
  pose (check := fun v : Z =>
          let r := fu_ch341a_device_reverse_uint8 v in
          (0 <=? r) && (r <? 256) && bits v r
          && (fu_ch341a_device_reverse_uint8 r =? v)).
  assert (Hall : forallb check (map Z.of_nat (seq 0 256)) = true)
    by (vm_compute; reflexivity).
  rewrite forallb_forall in Hall.
  specialize (Hall value). cbv zeta.
  assert (Hin : In value (map Z.of_nat (seq 0 256))).
  { apply in_map_iff. exists (Z.to_nat value). split; [lia|]. apply in_seq. lia. }
  apply Hall in Hin. unfold check in Hin. cbv zeta in Hin.
  apply andb_prop in Hin as [Hin Hinv]. apply andb_prop in Hin as [Hin Hbits].
  apply andb_prop in Hin as [Hlo Hhi].
  apply Z.leb_le in Hlo. apply Z.ltb_lt in Hhi. apply Z.eqb_eq in Hinv.
  split; [lia|]. split; [|done].
  intros i Hi. unfold bits in Hbits. rewrite forallb_forall in Hbits.
  apply eqb_prop, Hbits. apply in_map_iff. exists (Z.to_nat i).
  split; [lia|]. apply in_seq. lia.
Qed.

Lemma reverse_uint8_mirror_witness :
  fu_ch341a_device_reverse_uint8 (fu_ch341a_device_reverse_uint8 0x1D) = 0x1D.
Proof. apply (reverse_uint8_mirror 0x1D). lia. Defined.

Lemma lor_shiftl_add (hi lo n : Z) :
  0 <= n -> 0 <= lo < 2 ^ n -> Z.lor (Z.shiftl hi n) lo = hi * 2 ^ n + lo.
Proof.
  intros Hn Hlo. pose proof (Z.add_lor_land (Z.shiftl hi n) lo) as Hadd.
  assert (Hdisjoint : Z.land (Z.shiftl hi n) lo = 0).
  { apply Z.bits_inj'. intros i Hi. rewrite Z.land_spec, Z.bits_0.
    destruct (Z.lt_ge_cases i n) as [Hlt | Hge].
    - by rewrite Z.shiftl_spec_low.
    - rewrite <- (Z.mod_small lo (2 ^ n)) by done.
      rewrite Z.mod_pow2_bits_high by lia. apply andb_false_r. }
  rewrite Z.shiftl_mul_pow2 in * by done. lia.
Qed.

(** X4: for three bytes, [fu_ccgx_hpi_device_reg_addr_gen] puts the address
    in bits 0 to 7, the low four bits of the part in bits 8 to 11 and, in
    bits 12 to 15, the low four bits of the section or-ed with the high four
    bits of the part; the high four bits of the section are lost. With a
    section and a part below 16 the result is
    [section * 4096 + part * 256 + addr]. *)
Theorem reg_addr_gen_fields (section part addr : Z) :
  0 <= section < 256 -> 0 <= part < 256 -> 0 <= addr < 256 ->
  let r := fu_ccgx_hpi_device_reg_addr_gen section part addr in
  r = Z.lor (section mod 16) (part / 16) * 4096 + (part mod 16) * 256 + addr /\
  (section < 16 -> part < 16 -> r = section * 4096 + part * 256 + addr).
Proof.
  intros Hs Hp Ha r.
  assert (Hr : r = Z.lor (section mod 16) (part / 16) * 4096 + (part mod 16) * 256 + addr).
  { subst r. unfold fu_ccgx_hpi_device_reg_addr_gen, to_guint16.
    rewrite (Z.mod_small section), (Z.mod_small part) by lia.
    replace (Z.shiftl section 12) with (Z.shiftl (Z.shiftl section 4) 8)
      by (rewrite Z.shiftl_shiftl by lia; done).
    rewrite <- Z.shiftl_lor.
    rewrite (lor_shiftl_add _ addr 8) by lia.
    pose proof (Z.mod_pos_bound part 16 ltac:(lia)) as Hpm.
    assert (Hpart : Z.lor (Z.shiftl section 4) part =
                    Z.lor section (part / 16) * 2 ^ 4 + part mod 16).
    { rewrite <- lor_shiftl_add by lia. rewrite Z.shiftl_lor, <- Z.lor_assoc.
      f_equal. rewrite lor_shiftl_add by lia. change (2 ^ 4) with 16.
      rewrite (Z.div_mod part 16) at 1 by lia. lia. }
    rewrite Hpart.
    assert (Hlow : Z.lor (section mod 16) (part / 16) = Z.lor section (part / 16) mod 16).
    { change 16 with (2 ^ 4). rewrite <- !Z.land_ones by lia.
      rewrite Z.land_lor_distr_l. f_equal.
      rewrite Z.land_ones by lia. symmetry. apply Z.mod_small.
      split; [apply Z.div_pos; lia | apply Z.div_lt_upper_bound; lia]. }
    rewrite Hlow.
    pose proof (Z.mod_pos_bound (Z.lor section (part / 16)) 16 ltac:(lia)) as Hlm.
    set (l := Z.lor section (part / 16)) in *.
    set (pm := part mod 16) in *.
    change (2 ^ 4) with 16. change (2 ^ 8) with 256. change (2 ^ 16) with 65536.
    rewrite (Z.div_mod l 16) at 1 by lia.
    replace (((16 * (l / 16) + l mod 16) * 16 + pm) * 256 + addr)
      with (l mod 16 * 4096 + pm * 256 + addr + (l / 16) * 65536) by lia.
    rewrite Z.mod_add by lia. apply Z.mod_small. lia. }
  split; [done|].
  intros Hs16 Hp16. rewrite Hr.
  rewrite (Z.mod_small section), (Z.mod_small part), (Z.div_small part) by lia.
  by rewrite Z.lor_0_r.
Qed.

Lemma reg_addr_gen_fields_witness :
  fu_ccgx_hpi_device_reg_addr_gen 0x2 0x3 0x45 = 0x2 * 4096 + 0x3 * 256 + 0x45.
Proof.
  apply (proj2 (reg_addr_gen_fields 0x2 0x3 0x45 ltac:(lia) ltac:(lia) ltac:(lia))); lia.
Defined.

Section CcgxMetadataFacts.

Variable HPI_META_DATA_OFFSET_ROW_128 : Z.
Variable HPI_META_DATA_OFFSET_ROW_256 : Z.

Local Abbreviation get_metadata_offset :=
  (fu_ccgx_hpi_device_get_metadata_offset HPI_META_DATA_OFFSET_ROW_128
     HPI_META_DATA_OFFSET_ROW_256).

Local Ltac solve_rows :=
  repeat split; intros;
  repeat match goal with
         | H : _ /\ _ |- _ => destruct H
         | H : _ \/ _ |- _ => destruct H
         end;
  try done; try lia; eauto.

(** X5: [fu_ccgx_hpi_device_get_metadata_offset] succeeds exactly for a
    flash row size of 128 or 256 and a mode FW1 or FW2. On success the row is
    the last row of the flash for FW1 and the one before it for FW2 (as
    [guint32]) and the offset is the one of the row size; on failure the
    error is [NOT_SUPPORTED] and [*addr] is unchanged. *)
Theorem get_metadata_offset_rows (self : FuCcgxHpiDevice) (fw_mode : FuCcgxFwMode)
    (addr offset : Z) :
  let r := get_metadata_offset self fw_mode addr offset in
  let rows := flash_size self / flash_row_size self in
  (is_ok (r.1.1) = true <->
   (flash_row_size self = 128 \/ flash_row_size self = 256) /\
   (fw_mode = FU_CCGX_FW_MODE_FW1 \/ fw_mode = FU_CCGX_FW_MODE_FW2)) /\
  (is_ok (r.1.1) = true ->
   r.1.2 = to_guint32 (rows - match fw_mode with FU_CCGX_FW_MODE_FW2 => 2 | _ => 1 end) /\
   r.2 = (if flash_row_size self =? 128 then HPI_META_DATA_OFFSET_ROW_128
          else HPI_META_DATA_OFFSET_ROW_256)) /\
  (is_ok (r.1.1) = false ->
   (exists msg, r.1.1 = Err (mkGError FWUPD_ERROR_NOT_SUPPORTED msg)) /\ r.1.2 = addr).
Proof.
  cbv zeta. unfold fu_ccgx_hpi_device_get_metadata_offset.
  destruct (flash_row_size self =? 0) eqn:Hzero.
  { apply Z.eqb_eq in Hzero. simpl; solve_rows. }
  destruct (flash_row_size self =? 128) eqn:Hrow128.
  { apply Z.eqb_eq in Hrow128. destruct fw_mode; simpl; solve_rows. }
  destruct (flash_row_size self =? 256) eqn:Hrow256.
  { apply Z.eqb_eq in Hrow256. destruct fw_mode; simpl; solve_rows. }
  apply Z.eqb_neq in Hrow128, Hrow256. simpl; solve_rows.
Qed.

End CcgxMetadataFacts.

Lemma get_metadata_offset_rows_witness :
  is_ok (fu_ccgx_hpi_device_get_metadata_offset 0x3c0 0x1fc (mkHpiDevice 256 0x20000)
           FU_CCGX_FW_MODE_FW2 0 0).1.1 = true /\
  (fu_ccgx_hpi_device_get_metadata_offset 0x3c0 0x1fc (mkHpiDevice 256 0x20000)
     FU_CCGX_FW_MODE_FW2 0 0).1.2 = to_guint32 (0x20000 / 256 - 2).
Proof.
  pose proof (get_metadata_offset_rows 0x3c0 0x1fc (mkHpiDevice 256 0x20000)
                FU_CCGX_FW_MODE_FW2 0 0) as (Hok & Hrow & _).
  assert (Hdone : is_ok (fu_ccgx_hpi_device_get_metadata_offset 0x3c0 0x1fc
                           (mkHpiDevice 256 0x20000) FU_CCGX_FW_MODE_FW2 0 0).1.1 = true).
  { apply Hok. split; [by right | by right]. }
  split; [exact Hdone|]. exact (proj1 (Hrow Hdone)).
Defined.

(** ** Error maps *)

Section ErrorMapFacts.

Variable FWUPD_ERROR : Z.
Variable FWUPD_ERROR_INTERNAL_code : Z.
Variable FWUPD_ERROR_LAST : Z.
Variable fwupd_error_to_string : Z -> string.
Variable fwupd_error_convert : GErrorRaw -> GErrorRaw.

Local Abbreviation map_entry_to_gerror :=
  (fu_error_map_entry_to_gerror FWUPD_ERROR FWUPD_ERROR_INTERNAL_code FWUPD_ERROR_LAST
     fwupd_error_to_string).
Local Abbreviation error_convert :=
  (fu_error_convert FWUPD_ERROR FWUPD_ERROR_INTERNAL_code fwupd_error_convert).

(** X6: [fu_error_map_entry_to_gerror] is decided by the first entry of the
    map that has the value, whatever follows it: success when its code is
    [FWUPD_ERROR_LAST], else an error of that code whose message is the
    entry's (or the name of the value, for a NULL message) followed by the
    value in hexadecimal. A value that no entry has is an internal error
    "generic failure". *)
Theorem error_map_first_entry (value : Z) (entries : list FuErrorMapEntry) :
  (Forall (fun entry => entry_value entry <> value) entries ->
   map_entry_to_gerror value entries =
     Some (mkGErrorRaw FWUPD_ERROR FWUPD_ERROR_INTERNAL_code
             ("generic failure [" +:+ fmt_0x value +:+ "]"))) /\
  (forall before entry after,
     entries = before ++ entry :: after ->
     Forall (fun entry => entry_value entry <> value) before ->
     entry_value entry = value ->
     map_entry_to_gerror value entries =
       if entry_code entry =? FWUPD_ERROR_LAST then None
       else Some (mkGErrorRaw FWUPD_ERROR (entry_code entry)
                    (match entry_message entry with
                     | Some message => message
                     | None => fwupd_error_to_string value
                     end +:+ " [" +:+ fmt_0x value +:+ "]"))).
Proof.
  split.
  - induction 1 as [|entry rest Hne _ IH]; [done|].
    simpl. by rewrite (proj2 (Z.eqb_neq _ _) Hne).
  - intros before entry after -> Hbefore Hvalue.
    induction Hbefore as [|first rest Hne _ IH].
    + simpl. rewrite (proj2 (Z.eqb_eq _ _) Hvalue). simpl. by rewrite Hvalue.
    + simpl. by rewrite (proj2 (Z.eqb_neq _ _) Hne).
Qed.

(** X7: [fu_error_convert] returns TRUE only when there is no error. An
    error it is given always leaves in the domain [FWUPD_ERROR]: as
    [fwupd_error_convert] left it when that already is in the domain, and
    otherwise with its message kept and the code of the first entry that
    matches its domain and code, or the internal code when none does. *)
Theorem error_convert_domain (entries : list FuErrorConvertEntry) (error : GErrorRaw) :
  let converted := fwupd_error_convert error in
  let r := error_convert entries (Some error) in
  (error_convert entries None = (true, None)) /\
  r.1 = false /\
  exists e, r.2 = Some e /\ raw_domain e = FWUPD_ERROR /\
    (raw_domain converted = FWUPD_ERROR -> e = converted) /\
    (raw_domain converted <> FWUPD_ERROR ->
     raw_message e = raw_message converted /\
     ((Forall (fun entry => g_error_matches converted (convert_domain entry)
                              (convert_code entry) = false) entries /\
       raw_code e = FWUPD_ERROR_INTERNAL_code) \/
      (exists before entry after,
         entries = before ++ entry :: after /\
         Forall (fun entry => g_error_matches converted (convert_domain entry)
                                (convert_code entry) = false) before /\
         g_error_matches converted (convert_domain entry) (convert_code entry) = true /\
         raw_code e = convert_error entry))).
Proof.
  cbv zeta. split; [done|]. unfold fu_error_convert.
  destruct (raw_domain (fwupd_error_convert error) =? FWUPD_ERROR) eqn:Hdomain.
  { apply Z.eqb_eq in Hdomain. split; [done|]. eexists. split; [done|].
    split; [done|]. split; [done|]. intros Hne. done. }
  apply Z.eqb_neq in Hdomain. split; [done|]. eexists. split; [done|].
  set (converted := fwupd_error_convert error) in *.
  assert (Hloop :
    raw_domain (fu_error_convert_loop FWUPD_ERROR FWUPD_ERROR_INTERNAL_code entries converted)
      = FWUPD_ERROR /\
    raw_message (fu_error_convert_loop FWUPD_ERROR FWUPD_ERROR_INTERNAL_code entries converted)
      = raw_message converted /\
    ((Forall (fun entry => g_error_matches converted (convert_domain entry)
                             (convert_code entry) = false) entries /\
      raw_code (fu_error_convert_loop FWUPD_ERROR FWUPD_ERROR_INTERNAL_code entries converted)
        = FWUPD_ERROR_INTERNAL_code) \/
     (exists before entry after,
        entries = before ++ entry :: after /\
        Forall (fun entry => g_error_matches converted (convert_domain entry)
                               (convert_code entry) = false) before /\
        g_error_matches converted (convert_domain entry) (convert_code entry) = true /\
        raw_code (fu_error_convert_loop FWUPD_ERROR FWUPD_ERROR_INTERNAL_code entries converted)
          = convert_error entry))).
  { induction entries as [|entry rest IH]; simpl.
    - split; [done|]. split; [done|]. left. done.
    - destruct (g_error_matches converted (convert_domain entry) (convert_code entry))
        eqn:Hmatch; simpl.
      + split; [done|]. split; [done|]. right. exists [], entry, rest. done.
      + destruct IH as (Hd & Hm & [[Hall Hcode] | (before & e & after & -> & Hall & He & Hcode)]).
        * split; [done|]. split; [done|]. left. split; [by constructor | done].
        * split; [done|]. split; [done|]. right. exists (entry :: before), e, after.
          split; [done|]. split; [by constructor | done]. }
  destruct Hloop as (Hd & Hm & Hcases).
  split; [done|]. split; [done|]. intros _. split; done.
Qed.

End ErrorMapFacts.

Lemma error_map_first_entry_witness :
  fu_error_map_entry_to_gerror 1 2 3 (fun _ => "unknown"%string) 5
    ([mkMapEntry 4 9 None] ++ mkMapEntry 5 3 None :: [mkMapEntry 5 2 (Some "bad"%string)])
  = None.
Proof.
  assert (Hbefore : Forall (fun entry => entry_value entry <> 5) [mkMapEntry 4 9 None])
    by (repeat constructor; discriminate).
  exact (proj2 (error_map_first_entry 1 2 3 (fun _ => "unknown"%string) 5 _)
           [mkMapEntry 4 9 None] (mkMapEntry 5 3 None) [mkMapEntry 5 2 (Some "bad"%string)]
           eq_refl Hbefore eq_refl).
Defined.

Lemma error_convert_domain_witness :
  (fu_error_convert 1 2 (fun e => e) [mkConvertEntry 7 8 9] (Some (mkGErrorRaw 7 8 "io"))).1
  = false.
Proof.
  exact (proj1 (proj2 (error_convert_domain 1 2 (fun e => e) [mkConvertEntry 7 8 9]
                         (mkGErrorRaw 7 8 "io")))).
Defined.

(** ** Removing an image and looking one up by idx *)

Lemma find_split {A : Type} (test : A -> bool) (before after : list A) (x : A) :
  Forall (fun y => test y = false) before -> test x = true ->
  List.find test (before ++ x :: after) = Some x.
Proof.
  intros Hbefore Hx. induction Hbefore as [|y before Hy _ IH]; simpl.
  - by rewrite Hx.
  - by rewrite Hy.
Qed.

Lemma find_none {A : Type} (test : A -> bool) (l : list A) :
  Forall (fun y => test y = false) l -> List.find test l = None.
Proof.
  induction 1 as [|y l Hy _ IH]; simpl; [done|]. by rewrite Hy.
Qed.

Lemma existsb_none {A : Type} (test : A -> bool) (l : list A) :
  Forall (fun y => test y = false) l -> existsb test l = false.
Proof.
  induction 1 as [|y l Hy _ IH]; simpl; [done|]. by rewrite Hy.
Qed.

Lemma existsb_split {A : Type} (test : A -> bool) (before after : list A) (x : A) :
  test x = true -> existsb test (before ++ x :: after) = true.
Proof.
  intros Hx. rewrite existsb_app. simpl. rewrite Hx. apply orb_true_r.
Qed.

Lemma pointer_test (img : positive) (l : list positive) :
  img ∉ l -> Forall (fun y => Pos.eqb img y = false) l.
Proof.
  intros Hnot. apply Forall_forall. intros y Hy. apply Pos.eqb_neq. intros ->. done.
Qed.

(** The idx of the objects does not depend on the array of images of one. *)
Lemma get_idx_with_images (h : heap) self priv images p :
  h !! self = Some priv ->
  fu_firmware_get_idx (<[self := with_images images priv]> h) p = fu_firmware_get_idx h p.
Proof.
  intros Hself. unfold fu_firmware_get_idx.
  destruct (decide (p = self)) as [->|].
  - by rewrite lookup_insert_eq, Hself.
  - by rewrite lookup_insert_ne.
Qed.

(** Removing an image that is in the array, at the first place it has. *)
Lemma remove_image_at (h : heap) self img priv before after :
  h !! self = Some priv -> is_Some (h !! img) ->
  priv_images priv = before ++ img :: after -> img ∉ before ->
  fu_firmware_remove_image self img h =
    Some (Ok tt, <[self := with_images (before ++ after) priv]> h).
Proof.
  intros Hself [ipriv Himg] Himages Hnot.
  unfold fu_firmware_remove_image, g_ptr_array_remove.
  rewrite Hself, Himg, Himages.
  rewrite existsb_split by apply Pos.eqb_refl.
  by rewrite remove_first_split by first [apply pointer_test; done | apply Pos.eqb_refl].
Qed.

(** X8: [fu_firmware_remove_image] takes out the first place the image has
    in the array and leaves the other images in their order; the object
    removed keeps its parent and its depth. An image that is not in the array
    is [NOT_FOUND], with its id in the message, and nothing changes. *)
Theorem remove_image_first_place (h : heap) self img priv ipriv :
  h !! self = Some priv -> h !! img = Some ipriv ->
  (img ∉ priv_images priv ->
   exists text,
     fu_firmware_remove_image self img h =
       Some (Err (mkGError FWUPD_ERROR_NOT_FOUND text), h) /\
     (forall id, priv_id ipriv = Some id ->
        text = "image " +:+ id +:+ " not found in firmware")) /\
  (forall before after,
     priv_images priv = before ++ img :: after -> img ∉ before ->
     exists h',
       fu_firmware_remove_image self img h = Some (Ok tt, h') /\
       fu_firmware_get_images h' self = Some (before ++ after) /\
       (img <> self -> h' !! img = Some ipriv) /\
       (forall p, p <> self -> h' !! p = h !! p)).
Proof.
  intros Hself Himg. split.
  - intros Hnot. unfold fu_firmware_remove_image, g_ptr_array_remove.
    rewrite Hself, Himg. rewrite existsb_none by by apply pointer_test.
    unfold fu_firmware_get_id. rewrite Himg. eexists. split; [done|].
    by intros id ->.
  - intros before after Himages Hnot.
    eexists. split; [by apply remove_image_at|]. split; [|split].
    + unfold fu_firmware_get_images. by rewrite lookup_insert_eq.
    + intros Hne. by rewrite lookup_insert_ne.
    + intros p Hp. by rewrite lookup_insert_ne.
Qed.

Lemma remove_image_first_place_witness :
  exists h',
    fu_firmware_remove_image 1 3 ex_images_heap = Some (Ok tt, h') /\
    fu_firmware_get_images h' 1 = Some ([2%positive] ++ [4%positive]) /\
    (3%positive <> 1%positive ->
     h' !! 3%positive = Some (with_id (Some "app.elf"%string) fu_firmware_init)) /\
    (forall p, p <> 1%positive -> h' !! p = ex_images_heap !! p).
Proof.
  assert (Hnot : 3%positive ∉ [2%positive])
    by (apply not_elem_of_cons; split; [done | apply not_elem_of_nil]).
  exact (proj2 (remove_image_first_place ex_images_heap 1 3
                  (with_images [2%positive; 3%positive; 4%positive] fu_firmware_init)
                  (with_id (Some "app.elf"%string) fu_firmware_init) eq_refl eq_refl)
           [2%positive] [4%positive] eq_refl Hnot).
Defined.

(** What [g_ptr_array_remove] does with the pointer a [find] returned. *)
Lemma remove_found (test : positive -> bool) (before after : list positive) (img : positive) :
  Forall (fun y => test y = false) before -> test img = true ->
  (img ∉ before) /\
  g_ptr_array_remove (before ++ img :: after) img = (true, before ++ after).
Proof.
  intros Hbefore Himg.
  assert (Hnot : img ∉ before).
  { intros Hin. rewrite Forall_forall in Hbefore. specialize (Hbefore _ Hin). congruence. }
  split; [done|]. unfold g_ptr_array_remove.
  rewrite existsb_split by apply Pos.eqb_refl.
  by rewrite remove_first_split by first [apply pointer_test; done | apply Pos.eqb_refl].
Qed.

(** X9: [fu_firmware_remove_image_by_idx] removes the first image that has
    the idx, and only that one: the images before and after it stay in their
    order. When no image after it has the idx, a lookup of the idx then
    fails. When no image has the idx the call is [NOT_FOUND] and nothing
    changes. *)
Theorem remove_image_by_idx_first (h : heap) self priv idx :
  h !! self = Some priv ->
  (Forall (fun img => fu_firmware_get_idx h img <> idx) (priv_images priv) ->
   fu_firmware_remove_image_by_idx self idx h =
     Some (Err (mkGError FWUPD_ERROR_NOT_FOUND
                  ("no image idx " +:+ fmt_u64 idx +:+ " found in firmware")), h)) /\
  (forall before img after,
     priv_images priv = before ++ img :: after ->
     Forall (fun img => fu_firmware_get_idx h img <> idx) before ->
     fu_firmware_get_idx h img = idx ->
     let h' := <[self := with_images (before ++ after) priv]> h in
     fu_firmware_remove_image_by_idx self idx h = Some (Ok tt, h') /\
     (Forall (fun img => fu_firmware_get_idx h img <> idx) after ->
      fu_firmware_get_image_by_idx h' self idx =
        Some (Err (mkGError FWUPD_ERROR_NOT_FOUND
                     ("no image idx " +:+ fmt_u64 idx +:+ " found in firmware"))))).
Proof.
  intros Hself. split.
  - intros Hnone. unfold fu_firmware_remove_image_by_idx, fu_firmware_get_image_by_idx.
    rewrite Hself. rewrite find_none; [done|].
    eapply Forall_impl; [exact Hnone|]. intros img Hne. by apply Z.eqb_neq.
  - intros before img after Himages Hbefore Himg h'.
    assert (Hbefore' : Forall (fun y => (fu_firmware_get_idx h y =? idx) = false) before).
    { eapply Forall_impl; [exact Hbefore|]. intros y Hne. by apply Z.eqb_neq. }
    assert (Himg' : (fu_firmware_get_idx h img =? idx) = true) by by apply Z.eqb_eq.
    split.
    + unfold fu_firmware_remove_image_by_idx, fu_firmware_get_image_by_idx.
      rewrite Hself, Himages. rewrite find_split by done.
      by rewrite (proj2 (remove_found _ before after img Hbefore' Himg')).
    + intros Hafter. unfold fu_firmware_get_image_by_idx. subst h'.
      rewrite lookup_insert_eq. simpl.
      rewrite find_none; [done|]. apply Forall_app. split.
      * eapply Forall_impl; [exact Hbefore|]. intros y Hne.
        rewrite (get_idx_with_images h self priv) by done. by apply Z.eqb_neq.
      * eapply Forall_impl; [exact Hafter|]. intros y Hne.
        rewrite (get_idx_with_images h self priv) by done. by apply Z.eqb_neq.
Qed.

Lemma remove_image_by_idx_first_witness :
  fu_firmware_remove_image_by_idx 1 0 ex_images_heap =
    Some (Ok tt,
          <[1%positive := with_images ([] ++ [3%positive; 4%positive])
                            (with_images [2%positive; 3%positive; 4%positive]
                               fu_firmware_init)]> ex_images_heap).
Proof.
  exact (proj1 (proj2 (remove_image_by_idx_first ex_images_heap 1
                         (with_images [2%positive; 3%positive; 4%positive] fu_firmware_init)
                         0 eq_refl)
                  [] 2%positive [3%positive; 4%positive] eq_refl (Forall_nil_2 _) eq_refl)).
Defined.

(** X10: [fu_firmware_remove_image_by_id] fails with the error of
    [fu_firmware_get_image_by_id] and changes nothing when the lookup finds
    no image; otherwise it removes the image the lookup returns from the
    first place it has in the array, the other images staying in their
    order. *)
Theorem remove_image_by_id_lookup (h : heap) self priv id :
  h !! self = Some priv ->
  match fu_firmware_get_image_by_id h self id with
  | Some (Ok img) =>
      exists before after,
        priv_images priv = before ++ img :: after /\ (img ∉ before) /\
        fu_firmware_remove_image_by_id self id h =
          Some (Ok tt, <[self := with_images (before ++ after) priv]> h)
  | Some (Err e) => fu_firmware_remove_image_by_id self id h = Some (Err e, h)
  | None => False
  end.
Proof.
  intros Hself. unfold fu_firmware_remove_image_by_id.
  rewrite Hself. unfold fu_firmware_get_image_by_id. rewrite Hself.
  destruct id as [id|].
  - pose proof (find_first (image_id_matches h (g_strsplit id "|")) (priv_images priv)) as Hfind.
    destruct (List.find _ (priv_images priv)) as [img|]; [|done].
    destruct Hfind as (before & after & Himages & Himg & Hbefore).
    exists before, after. destruct (remove_found _ before after img Hbefore Himg) as [Hnot Hrm].
    split; [done|]. split; [done|]. by rewrite Himages, Hrm.
  - set (test := fun img => match fu_firmware_get_id h img with
                            | Some _ => false
                            | None => true
                            end).
    pose proof (find_first test (priv_images priv)) as Hfind.
    destruct (List.find test (priv_images priv)) as [img|]; [|done].
    destruct Hfind as (before & after & Himages & Himg & Hbefore).
    exists before, after. destruct (remove_found _ before after img Hbefore Himg) as [Hnot Hrm].
    split; [done|]. split; [done|]. by rewrite Himages, Hrm.
Qed.

Lemma remove_image_by_id_lookup_witness :
  match fu_firmware_get_image_by_id ex_images_heap 1 (Some "*.elf"%string) with
  | Some (Ok img) =>
      exists before after,
        priv_images (with_images [2%positive; 3%positive; 4%positive] fu_firmware_init) =
          before ++ img :: after /\ (img ∉ before) /\
        fu_firmware_remove_image_by_id 1 (Some "*.elf"%string) ex_images_heap =
          Some (Ok tt,
                <[1%positive := with_images (before ++ after)
                                  (with_images [2%positive; 3%positive; 4%positive]
                                     fu_firmware_init)]> ex_images_heap)
  | Some (Err e) =>
      fu_firmware_remove_image_by_id 1 (Some "*.elf"%string) ex_images_heap =
        Some (Err e, ex_images_heap)
  | None => False
  end.
Proof.
  exact (remove_image_by_id_lookup ex_images_heap 1
           (with_images [2%positive; 3%positive; 4%positive] fu_firmware_init)
           (Some "*.elf"%string) eq_refl).
Defined.

(** ** Adding an image, then looking it up or removing it *)

Lemma remove_first_subset {A : Type} (test : A -> bool) (l : list A) (x : A) :
  x ∈ remove_first test l -> x ∈ l.
Proof.
  induction l as [|y l IH]; simpl; [done|].
  destruct (test y).
  - intros Hin. apply elem_of_cons. by right.
  - intros [->|Hin]%elem_of_cons; apply elem_of_cons; [by left|].
    right. auto.
Qed.

Lemma remove_first_NoDup_map {A B : Type} (f : A -> B) (test : A -> bool) (l : list A) :
  NoDup (map f l) -> NoDup (map f (remove_first test l)).
Proof.
  induction l as [|y l IH]; simpl; [done|].
  intros [Hnot Hnd]%NoDup_cons. destruct (test y); [done|].
  simpl. apply NoDup_cons. split; [|auto].
  intros Hin. apply Hnot.
  apply list_elem_of_In, in_map_iff in Hin as (x & Hx & Hin).
  apply list_elem_of_In, in_map_iff. exists x. split; [done|].
  apply list_elem_of_In. eapply remove_first_subset. by apply list_elem_of_In.
Qed.

Lemma remove_first_map_ne {A : Type} (f : A -> Z) (v : Z) (l : list A) :
  NoDup (map f l) ->
  Forall (fun y => f y <> v) (remove_first (fun y => f y =? v) l).
Proof.
  induction l as [|y l IH]; simpl; [done|].
  intros [Hnot Hnd]%NoDup_cons. destruct (f y =? v) eqn:Hy.
  - apply Z.eqb_eq in Hy. apply Forall_forall. intros x Hx Hfx.
    apply Hnot. apply list_elem_of_In, in_map_iff. exists x.
    split; [lia | by apply list_elem_of_In].
  - apply Z.eqb_neq in Hy. constructor; auto.
Qed.

(** X11: on a parent with the dedupe-by-idx flag whose images have
    pairwise different idx, adding an image (another object than the parent,
    which is not deeper than the limit and has room) leaves images of
    pairwise different idx, and a lookup of the idx of the new image returns
    the new image. *)
Theorem add_image_then_get_by_idx (h : heap) self img priv ipriv :
  h !! self = Some priv -> h !! img = Some ipriv -> img <> self ->
  priv_depth priv <= FU_FIRMWARE_IMAGE_DEPTH_MAX ->
  (priv_images_max priv <= 0 \/ Z.of_nat (length (priv_images priv)) < priv_images_max priv) ->
  flag_set (priv_flags priv) FU_FIRMWARE_FLAG_DEDUPE_IDX = true ->
  NoDup (map (fu_firmware_get_idx h) (priv_images priv)) ->
  exists h1 images1,
    fu_firmware_add_image_full self img h = Some (Ok tt, h1) /\
    fu_firmware_get_images h1 self = Some images1 /\
    NoDup (map (fu_firmware_get_idx h1) images1) /\
    fu_firmware_get_image_by_idx h1 self (priv_idx ipriv) = Some (Ok img).
Proof.
  intros Hself Himg Hne Hdepth Hmax Hflag Hnd.
  assert (Hroom : priv_images_max priv <= 0 \/
                  Z.of_nat (length (deduped h priv img)) < priv_images_max priv).
  { pose proof (deduped_length h priv img). lia. }
  rewrite (add_image_full_ok h self img priv ipriv) by done.
  set (new_img := with_depth (to_guint (priv_depth priv + 1)) (with_parent (Some self) ipriv)).
  set (new_self := with_images (deduped h priv img ++ [img]) priv).
  set (h1 := <[img := new_img]> (<[self := new_self]> h)).
  assert (Hidx : forall p, fu_firmware_get_idx h1 p = fu_firmware_get_idx h p)
    by (by apply (add_image_heap_idx h self img new_self new_img priv ipriv)).
  assert (Hidx_img : fu_firmware_get_idx h img = priv_idx ipriv)
    by (unfold fu_firmware_get_idx; by rewrite Himg).
  assert (Hself1 : h1 !! self = Some new_self).
  { unfold h1. rewrite lookup_insert_ne by done. by rewrite lookup_insert_eq. }
  (* what is left of the images has pairwise different idx, none that of [img] *)
  assert (Hrest : NoDup (map (fu_firmware_get_idx h) (deduped h priv img)) /\
                  Forall (fun y => fu_firmware_get_idx h y <> priv_idx ipriv)
                    (deduped h priv img)).
  { unfold deduped. rewrite Hflag, Hidx_img.
    destruct (flag_set (priv_flags priv) FU_FIRMWARE_FLAG_DEDUPE_ID).
    - split; [by do 2 apply remove_first_NoDup_map|].
      apply (remove_first_map_ne (fu_firmware_get_idx h)).
      by apply remove_first_NoDup_map.
    - split; [by apply remove_first_NoDup_map|].
      by apply (remove_first_map_ne (fu_firmware_get_idx h)). }
  destruct Hrest as [Hnd' Hnone].
  exists h1, (deduped h priv img ++ [img]).
  split; [done|]. split; [|split].
  - unfold fu_firmware_get_images. by rewrite Hself1.
  - rewrite (map_ext _ _ Hidx), map_app. simpl.
    apply NoDup_app. split; [done|]. split; [|apply NoDup_singleton].
    intros v Hv [->|Hin]%elem_of_cons; [|by apply not_elem_of_nil in Hin].
    apply list_elem_of_In, in_map_iff in Hv as (x & Hx & Hin).
    rewrite Forall_forall in Hnone. apply (Hnone x); [by apply list_elem_of_In | congruence].
  - unfold fu_firmware_get_image_by_idx. rewrite Hself1. simpl.
    rewrite (find_split _ (deduped h priv img) [] img); [done| |].
    + eapply Forall_impl; [exact Hnone|]. intros y Hy. rewrite Hidx. by apply Z.eqb_neq.
    + rewrite Hidx, Hidx_img. apply Z.eqb_refl.
Qed.

Lemma add_image_then_get_by_idx_witness :
  exists h1 images1,
    fu_firmware_add_image_full 1 2 ex_dedupe_heap = Some (Ok tt, h1) /\
    fu_firmware_get_images h1 1 = Some images1 /\
    NoDup (map (fu_firmware_get_idx h1) images1) /\
    fu_firmware_get_image_by_idx h1 1 7 = Some (Ok 2%positive).
Proof.
  assert (Hnd : NoDup (map (fu_firmware_get_idx ex_dedupe_heap) [])) by constructor.
  exact (add_image_then_get_by_idx ex_dedupe_heap 1 2
           (fu_firmware_add_flag FU_FIRMWARE_FLAG_DEDUPE_IDX
              (fu_firmware_add_flag FU_FIRMWARE_FLAG_DEDUPE_ID fu_firmware_init))
           (with_idx 7 (with_id (Some "x"%string) fu_firmware_init))
           eq_refl eq_refl ltac:(done) ltac:(vm_compute; discriminate)
           ltac:(left; vm_compute; discriminate) eq_refl Hnd).
Defined.

(** X12: an image that was just added (to a parent that did not have it)
    is removed again by [fu_firmware_remove_image]: the parent is left with
    the images it had, less what the dedupe took out, so with all of them
    when it has none of the two dedupe flags. The object removed still has
    the parent and the depth that the adding gave it. *)
Theorem add_then_remove_image (h : heap) self img priv ipriv :
  h !! self = Some priv -> h !! img = Some ipriv -> img <> self ->
  priv_depth priv <= FU_FIRMWARE_IMAGE_DEPTH_MAX ->
  (priv_images_max priv <= 0 \/ Z.of_nat (length (priv_images priv)) < priv_images_max priv) ->
  img ∉ priv_images priv ->
  exists h1 h2,
    fu_firmware_add_image_full self img h = Some (Ok tt, h1) /\
    fu_firmware_remove_image self img h1 = Some (Ok tt, h2) /\
    fu_firmware_get_images h2 self = Some (deduped h priv img) /\
    (flag_set (priv_flags priv) FU_FIRMWARE_FLAG_DEDUPE_ID = false ->
     flag_set (priv_flags priv) FU_FIRMWARE_FLAG_DEDUPE_IDX = false ->
     fu_firmware_get_images h2 self = Some (priv_images priv)) /\
    h2 !! img = Some (with_depth (to_guint (priv_depth priv + 1))
                        (with_parent (Some self) ipriv)).
Proof.
  intros Hself Himg Hne Hdepth Hmax Hnot.
  assert (Hroom : priv_images_max priv <= 0 \/
                  Z.of_nat (length (deduped h priv img)) < priv_images_max priv).
  { pose proof (deduped_length h priv img). lia. }
  rewrite (add_image_full_ok h self img priv ipriv) by done.
  set (new_img := with_depth (to_guint (priv_depth priv + 1)) (with_parent (Some self) ipriv)).
  set (new_self := with_images (deduped h priv img ++ [img]) priv).
  set (h1 := <[img := new_img]> (<[self := new_self]> h)).
  assert (Hself1 : h1 !! self = Some new_self).
  { unfold h1. rewrite lookup_insert_ne by done. by rewrite lookup_insert_eq. }
  assert (Himg1 : h1 !! img = Some new_img) by (unfold h1; by rewrite lookup_insert_eq).
  assert (Hnot' : img ∉ deduped h priv img).
  { pose proof (deduped_Forall (fun y => y <> img) h priv img) as Hall.
    rewrite !Forall_forall in Hall. intros Hin. eapply Hall; [|exact Hin|done].
    intros y Hy ->. done. }
  exists h1, (<[self := with_images (deduped h priv img ++ []) new_self]> h1).
  split; [done|]. split; [|split; [|split]].
  - by apply (remove_image_at h1 self img new_self).
  - unfold fu_firmware_get_images. rewrite lookup_insert_eq. simpl. by rewrite app_nil_r.
  - intros Hid Hidx. unfold fu_firmware_get_images. rewrite lookup_insert_eq. simpl.
    rewrite app_nil_r. unfold deduped. by rewrite Hid, Hidx.
  - by rewrite lookup_insert_ne.
Qed.

Lemma add_then_remove_image_witness :
  exists h1 h2,
    fu_firmware_add_image_full 1 2 ex_dedupe_heap = Some (Ok tt, h1) /\
    fu_firmware_remove_image 1 2 h1 = Some (Ok tt, h2) /\
    fu_firmware_get_depth h2 2 = 1.
Proof.
  assert (Hnot : 2%positive ∉ @nil positive) by apply not_elem_of_nil.
  destruct (add_then_remove_image ex_dedupe_heap 1 2
              (fu_firmware_add_flag FU_FIRMWARE_FLAG_DEDUPE_IDX
                 (fu_firmware_add_flag FU_FIRMWARE_FLAG_DEDUPE_ID fu_firmware_init))
              (with_idx 7 (with_id (Some "x"%string) fu_firmware_init))
              eq_refl eq_refl ltac:(done) ltac:(vm_compute; discriminate)
              ltac:(left; vm_compute; discriminate) Hnot)
    as (h1 & h2 & Hadd & Hremove & _ & _ & Himg).
  exists h1, h2. split; [exact Hadd|]. split; [exact Hremove|].
  unfold fu_firmware_get_depth. rewrite Himg. reflexivity.
Defined.

(** X13: [fu_firmware_add_image_full] keeps the number of images within a
    limit [images_max] that is set and was respected: whatever the call
    returns, the parent has at most [images_max] images afterwards and the
    limit is as it was. *)
Theorem add_image_full_images_max (h h' : heap) self img priv r :
  h !! self = Some priv ->
  0 < priv_images_max priv ->
  Z.of_nat (length (priv_images priv)) <= priv_images_max priv ->
  fu_firmware_add_image_full self img h = Some (r, h') ->
  exists priv',
    h' !! self = Some priv' /\
    priv_images_max priv' = priv_images_max priv /\
    Z.of_nat (length (priv_images priv')) <= priv_images_max priv'.
Proof.
  intros Hself Hpos Hlen. unfold fu_firmware_add_image_full. rewrite Hself.
  destruct (h !! img) as [ipriv|] eqn:Himg; [|done].
  destruct (FU_FIRMWARE_IMAGE_DEPTH_MAX <? priv_depth priv).
  { intros [= <- <-]. eauto. }
  fold (deduped h priv img).
  pose proof (deduped_length h priv img) as Hdedupe.
  destruct ((0 <? priv_images_max priv) &&
            (priv_images_max priv <=? Z.of_nat (length (deduped h priv img)))) eqn:Hfull.
  { intros [= <- <-]. rewrite lookup_insert_eq. eexists. split; [done|]. simpl. lia. }
  apply andb_false_iff in Hfull as [Hfull | Hfull]; [apply Z.ltb_ge in Hfull; lia|].
  apply Z.leb_gt in Hfull.
  intros [= <- <-]. rewrite insert_insert_eq.
  unfold fu_firmware_set_depth, fu_firmware_set_parent.
  destruct (decide (img = self)) as [->|Hne].
  - repeat rewrite lookup_insert_eq.
    eexists. split; [done|]. simpl. rewrite length_app. simpl. lia.
  - repeat first [rewrite lookup_insert_eq | rewrite lookup_insert_ne by done | rewrite Himg].
    eexists. split; [done|]. simpl. rewrite length_app. simpl. lia.
Qed.

Lemma add_image_full_images_max_witness :
  exists priv',
    <[2%positive := with_depth 1 (with_parent (Some 1%positive) fu_firmware_init)]>
      (<[1%positive := with_images [2%positive] (with_images_max 1 fu_firmware_init)]>
         ex_limited_heap) !! 1%positive = Some priv' /\
    priv_images_max priv' = priv_images_max (with_images_max 1 fu_firmware_init) /\
    Z.of_nat (length (priv_images priv')) <= priv_images_max priv'.
Proof.
  exact (add_image_full_images_max ex_limited_heap _ 1 2
           (with_images_max 1 fu_firmware_init) (Ok tt)
           eq_refl ltac:(vm_compute; reflexivity) ltac:(vm_compute; discriminate)
           eq_refl).
Defined.

(** ** Chunks of the payload *)

Lemma g_bytes_new_lookup (data : list byte) (m : mem) :
  (g_bytes_new data m).2 !! (g_bytes_new data m).1 = Some data /\
  (forall a, is_Some (m !! a) -> (g_bytes_new data m).2 !! a = m !! a).
Proof.
  unfold g_bytes_new, mem_alloc. simpl. split.
  - apply lookup_insert_eq.
  - intros a [d Ha]. apply lookup_insert_ne. intros <-.
    by rewrite mem_fresh in Ha.
Qed.

Lemma mem_data_lookup (m : mem) (a : positive) (data : list byte) :
  m !! a = Some data -> mem_data m a = data.
Proof. intros H. unfold mem_data. by rewrite H. Qed.

Lemma mem_data_kept (m m' : mem) (a : positive) :
  (forall a, is_Some (m !! a) -> m' !! a = m !! a) -> is_Some (m !! a) ->
  mem_data m' a = mem_data m a.
Proof. intros Hkeep Ha. unfold mem_data. by rewrite Hkeep. Qed.

Lemma take_all_of_drop {A : Type} (l : list A) (k n : nat) :
  (length l - k <= n)%nat -> take n (drop k l) = drop k l.
Proof. intros Hn. apply take_ge. rewrite length_drop. lia. Qed.

Lemma take_add_drop {A : Type} (l : list A) (n1 n2 : nat) :
  take (n1 + n2) l = take n1 l ++ take n2 (drop n1 l).
Proof.
  revert l. induction n1 as [|n1 IH]; intros l; [done|].
  destruct l as [|x l]; simpl; [by rewrite take_nil|]. by rewrite IH.
Qed.

Lemma bytes_new_offset_in_range (m : mem) (b : positive) (offset length : Z) :
  offset + length <= g_bytes_get_size m b ->
  exists r m',
    fu_bytes_new_offset (Some b) offset length m = (Some (Ok r), m') /\
    m' !! r = Some (take (Z.to_nat length) (drop (Z.to_nat offset) (mem_data m b))) /\
    (forall a, is_Some (m !! a) -> m' !! a = m !! a).
Proof.
  intros Hin. unfold fu_bytes_new_offset.
  rewrite (proj2 (Z.ltb_ge _ _) Hin).
  destruct (g_bytes_new_lookup
              (take (Z.to_nat length) (drop (Z.to_nat offset) (mem_data m b))) m)
    as [Hdata Hkeep].
  destruct (g_bytes_new _ m) as [r m'] eqn:Hnew. simpl in Hdata, Hkeep.
  exists r, m'. done.
Qed.

(** A chunk at an address inside the buffer, or at its end. *)
Lemma write_chunk_in_range (priv : FuFirmwarePrivate) (m : mem) (b : positive)
    (address chunk_sz_max : Z) :
  priv_bytes priv = Some b ->
  0 <= priv_addr priv -> 0 <= chunk_sz_max ->
  priv_addr priv <= address <= priv_addr priv + g_bytes_get_size m b ->
  exists r m',
    fu_firmware_write_chunk priv address chunk_sz_max m = (Some (Ok r), m') /\
    m' !! r =
      Some (take (Z.to_nat chunk_sz_max)
              (drop (Z.to_nat (address - priv_addr priv)) (mem_data m b))) /\
    (forall a, is_Some (m !! a) -> m' !! a = m !! a).
Proof.
  intros Hbytes Haddr Hmax Hin.
  unfold fu_firmware_write_chunk, g_bytes_get_size_nullable.
  rewrite Hbytes. set (size := g_bytes_get_size m b) in *.
  assert (Hsize : size = Z.of_nat (length (mem_data m b))) by done.
  rewrite (proj2 (Z.ltb_ge address _)) by lia.
  rewrite (proj2 (Z.ltb_ge size (address - priv_addr priv))) by lia.
  set (offset := address - priv_addr priv).
  destruct (size - offset <? chunk_sz_max) eqn:Hleft.
  - apply Z.ltb_lt in Hleft.
    destruct (bytes_new_offset_in_range m b offset (size - offset))
      as (r & m' & -> & Hdata & Hkeep); [fold size; lia|].
    exists r, m'. split; [done|]. split; [|done].
    rewrite Hdata. f_equal. rewrite !take_all_of_drop by lia. done.
  - apply Z.ltb_ge in Hleft.
    destruct (bytes_new_offset_in_range m b offset chunk_sz_max)
      as (r & m' & -> & Hdata & Hkeep); [fold size; lia|].
    exists r, m'. done.
Qed.

(** X14: [fu_firmware_write_chunk] on an object with a buffer. An address
    below the base address is an internal error and one past the end of the
    buffer is [NOT_FOUND]; the store is left as it was. Any address from the
    base address up to the end of the buffer, the end included, gives a new
    [GBytes] with the bytes from that address on, at most [chunk_sz_max] of
    them: none at all at the end of the buffer. *)
Theorem write_chunk_window (priv : FuFirmwarePrivate) (m : mem) (b : positive)
    (address chunk_sz_max : Z) :
  priv_bytes priv = Some b ->
  0 <= priv_addr priv -> 0 <= chunk_sz_max ->
  let size := g_bytes_get_size m b in
  (address < priv_addr priv ->
   fu_firmware_write_chunk priv address chunk_sz_max m =
     (Some (Err (mkGError FWUPD_ERROR_INTERNAL
                   ("requested address " +:+ fmt_0x address +:+
                    " less than base address " +:+ fmt_0x (priv_addr priv)))), m)) /\
  (priv_addr priv + size < address ->
   fu_firmware_write_chunk priv address chunk_sz_max m =
     (Some (Err (mkGError FWUPD_ERROR_NOT_FOUND
                   ("offset " +:+ fmt_0x (address - priv_addr priv) +:+
                    " larger than data size " +:+ fmt_0x size))), m)) /\
  (priv_addr priv <= address <= priv_addr priv + size ->
   exists r m',
     fu_firmware_write_chunk priv address chunk_sz_max m = (Some (Ok r), m') /\
     mem_data m' r =
       take (Z.to_nat chunk_sz_max)
         (drop (Z.to_nat (address - priv_addr priv)) (mem_data m b)) /\
     g_bytes_get_size m' r = Z.min chunk_sz_max (priv_addr priv + size - address) /\
     (forall a, is_Some (m !! a) -> m' !! a = m !! a)).
Proof.
  intros Hbytes Haddr Hmax size.
  assert (Hsize : size = Z.of_nat (length (mem_data m b))) by done.
  split; [|split].
  - intros Hlow. unfold fu_firmware_write_chunk.
    by rewrite (proj2 (Z.ltb_lt _ _) Hlow).
  - intros Hhigh. unfold fu_firmware_write_chunk, g_bytes_get_size_nullable.
    rewrite Hbytes. fold size. rewrite (proj2 (Z.ltb_ge _ _)) by lia.
    by rewrite (proj2 (Z.ltb_lt size (address - priv_addr priv))) by lia.
  - intros Hin.
    destruct (write_chunk_in_range priv m b address chunk_sz_max)
      as (r & m' & Hchunk & Hdata & Hkeep); try done.
    exists r, m'. split; [done|]. apply mem_data_lookup in Hdata.
    split; [done|]. split; [|done].
    unfold g_bytes_get_size. rewrite Hdata, length_take, length_drop. lia.
Qed.

Lemma write_chunk_window_witness :
  exists r m',
    fu_firmware_write_chunk ex_repatch_priv 4 16 ex_patch_mem = (Some (Ok r), m') /\
    mem_data m' r =
      take (Z.to_nat 16)
        (drop (Z.to_nat (4 - priv_addr ex_repatch_priv)) (mem_data ex_patch_mem 1)) /\
    g_bytes_get_size m' r =
      Z.min 16 (priv_addr ex_repatch_priv + g_bytes_get_size ex_patch_mem 1 - 4) /\
    (forall a, is_Some (ex_patch_mem !! a) -> m' !! a = ex_patch_mem !! a).
Proof.
  assert (Haddr : 0 <= priv_addr ex_repatch_priv) by (vm_compute; discriminate).
  assert (Hmax : 0 <= 16) by lia.
  apply (proj2 (proj2 (write_chunk_window ex_repatch_priv ex_patch_mem 1 4 16
                         eq_refl Haddr Hmax))).
  vm_compute. split; discriminate.
Defined.

(** X15: two chunks asked for one after the other, the second at the
    address where the first ends, hold together the bytes of the one chunk
    of both sizes; the first chunk is still there after the second call. *)
Theorem write_chunk_consecutive (priv : FuFirmwarePrivate) (m : mem) (b : positive)
    (address n1 n2 : Z) :
  priv_bytes priv = Some b -> is_Some (m !! b) ->
  0 <= priv_addr priv <= address -> 0 <= n1 -> 0 <= n2 ->
  address + n1 <= priv_addr priv + g_bytes_get_size m b ->
  exists r1 m1 r2 m2 r m',
    fu_firmware_write_chunk priv address n1 m = (Some (Ok r1), m1) /\
    fu_firmware_write_chunk priv (address + n1) n2 m1 = (Some (Ok r2), m2) /\
    fu_firmware_write_chunk priv address (n1 + n2) m = (Some (Ok r), m') /\
    mem_data m2 r1 ++ mem_data m2 r2 = mem_data m' r.
Proof.
  intros Hbytes Hlive Haddr Hn1 Hn2 Hin.
  destruct (write_chunk_in_range priv m b address n1)
    as (r1 & m1 & Hchunk1 & Hdata1 & Hkeep1); [done | lia | done | lia |].
  assert (Hb1 : mem_data m1 b = mem_data m b) by by apply mem_data_kept.
  assert (Hsize1 : g_bytes_get_size m1 b = g_bytes_get_size m b)
    by (unfold g_bytes_get_size; by rewrite Hb1).
  destruct (write_chunk_in_range priv m1 b (address + n1) n2)
    as (r2 & m2 & Hchunk2 & Hdata2 & Hkeep2); [done | lia | done | lia |].
  destruct (write_chunk_in_range priv m b address (n1 + n2))
    as (r & m' & Hchunk & Hdata & Hkeep); [done | lia | lia | lia |].
  exists r1, m1, r2, m2, r, m'. split; [done|]. split; [done|]. split; [done|].
  rewrite (mem_data_kept m1 m2 r1) by (done || by rewrite Hdata1).
  rewrite (mem_data_lookup _ _ _ Hdata1), (mem_data_lookup _ _ _ Hdata2),
    (mem_data_lookup _ _ _ Hdata), Hb1.
  replace (Z.to_nat (address + n1 - priv_addr priv))
    with (Z.to_nat (address - priv_addr priv) + Z.to_nat n1)%nat by lia.
  rewrite <- drop_drop. rewrite Z2Nat.inj_add by lia. by rewrite take_add_drop.
Qed.

Lemma write_chunk_consecutive_witness :
  exists r1 m1 r2 m2 r m',
    fu_firmware_write_chunk (fu_firmware_set_addr 256 ex_repatch_priv) 257 2 ex_patch_mem
      = (Some (Ok r1), m1) /\
    fu_firmware_write_chunk (fu_firmware_set_addr 256 ex_repatch_priv) (257 + 2) 5 m1
      = (Some (Ok r2), m2) /\
    fu_firmware_write_chunk (fu_firmware_set_addr 256 ex_repatch_priv) 257 (2 + 5) ex_patch_mem
      = (Some (Ok r), m') /\
    mem_data m2 r1 ++ mem_data m2 r2 = mem_data m' r.
Proof.
  apply (write_chunk_consecutive (fu_firmware_set_addr 256 ex_repatch_priv) ex_patch_mem
           1 257 2 5 eq_refl);
    first [by eexists | vm_compute; split; discriminate | vm_compute; discriminate].
Defined.

(** ** The search for the magic *)

Lemma find_seqZ_least_nat (test : Z -> bool) (n : nat) (start : Z) :
  match List.find test (seqZ start (Z.of_nat n)) with
  | Some x =>
      start <= x < start + Z.of_nat n /\ test x = true /\
      forall o, start <= o < x -> test o = false
  | None => forall o, start <= o < start + Z.of_nat n -> test o = false
  end.
Proof.
  revert start. induction n as [|n IH]; intros start.
  - simpl. intros o Ho. lia.
  - rewrite seqZ_cons by lia.
    replace (Z.pred (Z.of_nat (S n))) with (Z.of_nat n) by lia.
    simpl. destruct (test start) eqn:Hstart.
    + split; [lia|]. split; [done|]. intros o Ho. lia.
    + specialize (IH (Z.succ start)).
      destruct (List.find test (seqZ (Z.succ start) (Z.of_nat n))) as [x|].
      * destruct IH as (Hx & Htest & Hleast). split; [lia|]. split; [done|].
        intros o Ho. destruct (decide (o = start)) as [->|]; [done|]. apply Hleast. lia.
      * intros o Ho. destruct (decide (o = start)) as [->|]; [done|]. apply IH. lia.
Qed.

Lemma find_seqZ_least (test : Z -> bool) (start len : Z) :
  match List.find test (seqZ start len) with
  | Some x =>
      start <= x < start + len /\ test x = true /\
      forall o, start <= o < x -> test o = false
  | None => forall o, start <= o < start + len -> test o = false
  end.
Proof.
  destruct (Z_le_gt_dec len 0) as [Hle | Hgt].
  - rewrite seqZ_nil by lia. simpl. intros o Ho. lia.
  - pose proof (find_seqZ_least_nat test (Z.to_nat len) start) as H.
    rewrite Z2Nat.id in H by lia. exact H.
Qed.

(** X16: the search of [fu_firmware_validate_for_offset]. When the class
    has a validator, the stream is no larger than the search limit, and the
    object has the always-search flag or the caller did not ask for no
    search, the offset returned is the first one from the given offset on,
    and before the end of the stream, that the validator accepts, and it is
    stored as the offset of the object. When the validator accepts none of
    them the error is "did not find magic" and the object is unchanged. *)
Theorem validate_for_offset_search (klass : FuFirmwareClass) (self : FuFirmwarePrivate)
    (stream : GInputStream) (offset flags streamsz : Z)
    (validate : FuFirmwarePrivate -> GInputStream -> Z -> result unit) :
  klass_validate klass = Some validate ->
  fu_input_stream_size stream = Ok streamsz ->
  streamsz <= FU_FIRMWARE_SEARCH_MAGIC_BUFSZ_MAX ->
  (fu_firmware_has_flag self FU_FIRMWARE_FLAG_ALWAYS_SEARCH = true \/
   flag_set flags FU_FIRMWARE_PARSE_FLAG_NO_SEARCH = false) ->
  match fu_firmware_validate_for_offset klass self stream offset flags with
  | (Ok found, self') =>
      offset <= found < streamsz /\
      is_ok (validate self stream found) = true /\
      (forall o, offset <= o < found -> is_ok (validate self stream o) = false) /\
      self' = fu_firmware_set_offset found self
  | (Err e, self') =>
      e = mkGError FWUPD_ERROR_INVALID_FILE "did not find magic" /\
      self' = self /\
      (forall o, offset <= o < streamsz -> is_ok (validate self stream o) = false)
  end.
Proof.
  intros Hvalidate Hsize Hlimit Hsearch. unfold fu_firmware_validate_for_offset.
  rewrite Hvalidate.
  replace (negb (fu_firmware_has_flag self FU_FIRMWARE_FLAG_ALWAYS_SEARCH) &&
           (0 <? Z.land flags FU_FIRMWARE_PARSE_FLAG_NO_SEARCH)) with false.
  2:{ destruct Hsearch as [-> | Hno]; [done|]. unfold flag_set in Hno.
      apply negb_false_iff, Z.eqb_eq in Hno. rewrite Hno. by rewrite andb_false_r. }
  rewrite Hsize. rewrite (proj2 (Z.ltb_ge _ _) Hlimit).
  pose proof (find_seqZ_least (fun o => is_ok (validate self stream o)) offset
                (streamsz - offset)) as Hfind.
  destruct (List.find _ (seqZ offset (streamsz - offset))) as [found|].
  - destruct Hfind as (Hrange & Hfound & Hleast). split; [lia|]. done.
  - split; [done|]. split; [done|]. intros o Ho. apply Hfind. lia.
Qed.

Lemma validate_for_offset_search_witness :
  match fu_firmware_validate_for_offset ex_class_b fu_firmware_init ex_magic_stream 0
          FU_FIRMWARE_PARSE_FLAG_NONE with
  | (Ok found, self') =>
      0 <= found < 4 /\
      is_ok (ex_validate_b fu_firmware_init ex_magic_stream found) = true /\
      (forall o, 0 <= o < found ->
         is_ok (ex_validate_b fu_firmware_init ex_magic_stream o) = false) /\
      self' = fu_firmware_set_offset found fu_firmware_init
  | (Err e, self') =>
      e = mkGError FWUPD_ERROR_INVALID_FILE "did not find magic" /\
      self' = fu_firmware_init /\
      (forall o, 0 <= o < 4 ->
         is_ok (ex_validate_b fu_firmware_init ex_magic_stream o) = false)
  end.
Proof.
  assert (Hlimit : 4 <= FU_FIRMWARE_SEARCH_MAGIC_BUFSZ_MAX) by (vm_compute; discriminate).
  exact (validate_for_offset_search ex_class_b fu_firmware_init ex_magic_stream 0
           FU_FIRMWARE_PARSE_FLAG_NONE 4 ex_validate_b
           eq_refl eq_refl Hlimit (or_intror eq_refl)).
Defined.

(** ** What a parse keeps of the stream *)

Lemma stream_size_seekable (stream : GInputStream) (streamsz : Z) :
  fu_input_stream_size stream = Ok streamsz ->
  st_seekable stream = true /\ streamsz = Z.of_nat (length (st_data stream)).
Proof.
  unfold fu_input_stream_size. destruct (st_seekable stream); [|done]. by intros [= <-].
Qed.

(** The offset that [fu_firmware_validate_for_offset] settles on is inside
    the stream, and the object is the same but for that offset. *)
Lemma validate_for_offset_found klass self stream offset flags streamsz found self1 :
  fu_input_stream_size stream = Ok streamsz -> offset < streamsz ->
  fu_firmware_validate_for_offset klass self stream offset flags = (Ok found, self1) ->
  offset <= found < streamsz /\
  (self1 = self \/ self1 = fu_firmware_set_offset found self).
Proof.
  intros Hsize Hoffset. unfold fu_firmware_validate_for_offset.
  destruct (klass_validate klass) as [validate|]; [|intros [= <- <-]; split; [lia | by left]].
  destruct (_ && _).
  { destruct (validate self stream offset); intros [= <- <-]. split; [lia | by left]. }
  rewrite Hsize. destruct (_ <? streamsz).
  { destruct (validate self stream offset); intros [= <- <-]. split; [lia | by left]. }
  pose proof (find_seqZ_least (fun o => is_ok (validate self stream o)) offset
                (streamsz - offset)) as Hfind.
  destruct (List.find _ (seqZ offset (streamsz - offset))) as [x|]; [|done].
  intros [= <- <-]. split; [lia | by right].
Qed.

(** The stream that the parse works on: the whole stream at offset 0, and
    else the part of it from the offset on. *)
Lemma partial_stream_data (stream : GInputStream) (found streamsz : Z) partial_stream :
  fu_input_stream_size stream = Ok streamsz -> 0 <= found < streamsz ->
  (if found =? 0 then Ok stream
   else match fu_partial_input_stream_new stream found (streamsz - found) with
        | Err e => Err (g_prefix_error "failed to cut firmware: " e)
        | Ok partial_stream => Ok partial_stream
        end) = Ok partial_stream ->
  st_seekable partial_stream = true /\
  st_data partial_stream = drop (Z.to_nat found) (st_data stream).
Proof.
  intros [Hseek ->]%stream_size_seekable Hfound.
  destruct (found =? 0) eqn:Hzero.
  - apply Z.eqb_eq in Hzero. subst found. by intros [= <-].
  - unfold fu_partial_input_stream_new. rewrite Hseek. simpl.
    destruct (_ <? _); [done|]. intros [= <-]. simpl. split; [done|].
    apply take_ge. rewrite length_drop. lia.
Qed.

(** What a successful parse leaves in the object and the store, for a class
    without tokenize and parse hook and an object without a buffer. *)
Lemma parse_stream_kept g_format_size g_format_size_full
    (klass : FuFirmwareClass) (self self' : FuFirmwarePrivate) (stream : GInputStream)
    (offset flags : Z) (m m' : mem) :
  klass_tokenize klass = None -> klass_parse klass = None ->
  priv_bytes self = None -> 0 <= offset ->
  fu_firmware_parse_stream g_format_size g_format_size_full klass self stream offset flags m
    = (Ok tt, self', m') ->
  exists found,
    (fu_firmware_validate_for_offset klass self stream offset flags).1 = Ok found /\
    offset <= found /\
    priv_streamsz self' = Z.of_nat (length (drop (Z.to_nat found) (st_data stream))) /\
    priv_streamsz self' <> 0 /\
    priv_patches self' = priv_patches self /\
    priv_size self' = priv_size self /\
    (flag_set flags FU_FIRMWARE_PARSE_FLAG_CACHE_BLOB = true ->
     exists blob,
       priv_bytes self' = Some blob /\
       m' !! blob = Some (drop (Z.to_nat found) (st_data stream)) /\
       (forall a, is_Some (m !! a) -> m' !! a = m !! a)) /\
    (flag_set flags FU_FIRMWARE_PARSE_FLAG_CACHE_BLOB = false ->
     m' = m /\ priv_bytes self' = None /\
     if flag_set flags FU_FIRMWARE_PARSE_FLAG_CACHE_STREAM
     then exists partial_stream,
            priv_stream self' = Some partial_stream /\
            st_seekable partial_stream = true /\
            st_data partial_stream = drop (Z.to_nat found) (st_data stream)
     else priv_stream self' = priv_stream self).
Proof.
  intros Htokenize Hparse Hbytes Hoffset. unfold fu_firmware_parse_stream.
  rewrite Htokenize, Hparse.
  destruct (fu_firmware_has_flag self _); [done|].
  destruct (fu_input_stream_size stream) as [streamsz|] eqn:Hsize; [|done].
  destruct (streamsz <=? offset) eqn:Hsmall; [done|]. apply Z.leb_gt in Hsmall.
  destruct (fu_firmware_validate_for_offset klass self stream offset flags)
    as [[found|] self1] eqn:Hvalidate; [|done].
  destruct (validate_for_offset_found _ _ _ _ _ _ _ _ Hsize Hsmall Hvalidate)
    as [Hfound Hself1].
  assert (Hbytes1 : priv_bytes self1 = None) by (by destruct Hself1 as [-> | ->]).
  assert (Hstream1 : priv_stream self1 = priv_stream self) by (by destruct Hself1 as [-> | ->]).
  assert (Hpatches1 : priv_patches self1 = priv_patches self)
    by (by destruct Hself1 as [-> | ->]).
  assert (Hsize1 : priv_size self1 = priv_size self) by (by destruct Hself1 as [-> | ->]).
  change (priv_streamsz (with_streamsz (streamsz - found) self1)) with (streamsz - found).
  destruct (streamsz - found =? 0); [done|].
  destruct (_ && _); [done|].
  set (self2 := if klass_check_compatible klass then _ else _).
  assert (Hself2 : priv_bytes self2 = None /\ priv_stream self2 = priv_stream self /\
                   priv_streamsz self2 = streamsz - found /\
                   priv_patches self2 = priv_patches self /\
                   priv_size self2 = priv_size self).
  { subst self2. by destruct (klass_check_compatible klass). }
  destruct Hself2 as (Hbytes2 & Hstream2 & Hsz2 & Hpatches2 & Hsize2).
  rewrite Hsz2.
  destruct (if found =? 0 then _ else _) as [partial_stream|] eqn:Hpartial; [|done].
  apply partial_stream_data in Hpartial as [Hseek Hdata]; [|done|lia].
  destruct (stream_size_seekable _ _ Hsize) as [_ Hlen].
  assert (Hpayload : Z.of_nat (length (drop (Z.to_nat found) (st_data stream)))
                     = streamsz - found) by (rewrite length_drop; lia).
  destruct (flag_set flags FU_FIRMWARE_PARSE_FLAG_CACHE_BLOB) eqn:Hblob.
  - (* the blob is cached *)
    unfold fu_input_stream_read_bytes. rewrite Hseek.
    destruct (g_bytes_new_lookup
                (take (Z.to_nat (streamsz - found)) (drop (Z.to_nat 0) (st_data partial_stream)))
                m) as [Hnew Hkeep].
    destruct (g_bytes_new _ m) as [blob m1]. simpl in Hnew, Hkeep.
    unfold verify_alignment.
    destruct (negb _); [by destruct (flag_set flags FU_FIRMWARE_PARSE_FLAG_CACHE_STREAM)|].
    intros Hdone. exists found. split; [done|]. split; [lia|].
    assert (Hself' : priv_bytes self' = Some blob /\ priv_streamsz self' = streamsz - found /\
                     priv_patches self' = priv_patches self /\
                     priv_size self' = priv_size self /\ m' = m1).
    { unfold fu_firmware_set_bytes in Hdone.
      rewrite bool_decide_eq_false_2 in Hdone by (rewrite Hbytes2; done).
      destruct (flag_set flags FU_FIRMWARE_PARSE_FLAG_CACHE_STREAM);
        injection Hdone as <- <-; done. }
    destruct Hself' as (Hb' & Hsz' & Hp' & Hs' & ->).
    split; [lia|]. split; [lia|]. split; [done|]. split; [done|]. split; [|done].
    intros _. exists blob. split; [done|]. split; [|done].
    rewrite Hnew. f_equal. simpl. rewrite Hdata. apply take_ge. lia.
  - unfold verify_alignment. destruct (negb _).
    { by destruct (flag_set flags FU_FIRMWARE_PARSE_FLAG_CACHE_STREAM). }
    intros Hdone. exists found. split; [done|]. split; [lia|].
    destruct (flag_set flags FU_FIRMWARE_PARSE_FLAG_CACHE_STREAM) eqn:Hcache;
      injection Hdone as <- <-; (split; [simpl; lia|]); (split; [simpl; lia|]);
      (split; [done|]); (split; [done|]); (split; [done|]); intros _;
      (split; [done|]); (split; [done|]).
    + exists partial_stream. done.
    + done.
Qed.

(** X17: a parse by a class without tokenize and parse hook, of an object
    without a buffer, that succeeds. With one of the two cache flags,
    [fu_firmware_get_bytes] then gives the bytes of the stream from the
    offset on that the validation settled on, and the stream size of the
    object is their number. With none of the two flags the parse keeps
    nothing of the stream: an object that had no stream has no payload. *)
Theorem parse_stream_then_get_bytes g_format_size g_format_size_full
    (klass : FuFirmwareClass) (self self' : FuFirmwarePrivate) (stream : GInputStream)
    (offset flags : Z) (m m' : mem) :
  klass_tokenize klass = None -> klass_parse klass = None ->
  priv_bytes self = None -> 0 <= offset ->
  fu_firmware_parse_stream g_format_size g_format_size_full klass self stream offset flags m
    = (Ok tt, self', m') ->
  exists found,
    (fu_firmware_validate_for_offset klass self stream offset flags).1 = Ok found /\
    offset <= found /\
    priv_streamsz self' = Z.of_nat (length (drop (Z.to_nat found) (st_data stream))) /\
    (flag_set flags FU_FIRMWARE_PARSE_FLAG_CACHE_BLOB = true \/
     flag_set flags FU_FIRMWARE_PARSE_FLAG_CACHE_STREAM = true ->
     exists b m'',
       fu_firmware_get_bytes self' m' = (Ok b, m'') /\
       mem_data m'' b = drop (Z.to_nat found) (st_data stream)) /\
    (flag_set flags FU_FIRMWARE_PARSE_FLAG_CACHE_BLOB = false ->
     flag_set flags FU_FIRMWARE_PARSE_FLAG_CACHE_STREAM = false ->
     priv_stream self = None ->
     fu_firmware_get_bytes self' m' =
       (Err (mkGError FWUPD_ERROR_NOT_FOUND "no payload set"), m')).
Proof.
  intros Htokenize Hparse Hbytes Hoffset Hdone.
  destruct (parse_stream_kept _ _ _ _ _ _ _ _ _ _ Htokenize Hparse Hbytes Hoffset Hdone)
    as (found & Hfound & Hle & Hsz & Hnz & _ & _ & Hblob & Hnoblob).
  exists found. split; [done|]. split; [done|]. split; [done|]. split.
  - intros Hcache.
    destruct (flag_set flags FU_FIRMWARE_PARSE_FLAG_CACHE_BLOB) eqn:Hb.
    + destruct (Hblob eq_refl) as (blob & Hb' & Hdata & _).
      exists blob, m'. unfold fu_firmware_get_bytes. rewrite Hb'.
      split; [done|]. by apply mem_data_lookup.
    + destruct Hcache as [|Hcache]; [done|].
      destruct (Hnoblob eq_refl) as (-> & Hnone & Hstream). rewrite Hcache in Hstream.
      destruct Hstream as (partial_stream & Hs & Hseek & Hdata).
      unfold fu_firmware_get_bytes. rewrite Hnone, Hs.
      rewrite (proj2 (Z.eqb_neq _ _) Hnz).
      unfold fu_input_stream_read_bytes. rewrite Hseek.
      destruct (g_bytes_new_lookup
                  (take (Z.to_nat (priv_streamsz self'))
                     (drop (Z.to_nat 0) (st_data partial_stream))) m) as [Hnew _].
      destruct (g_bytes_new _ m) as [blob m1]. simpl in Hnew.
      exists blob, m1. split; [done|]. rewrite (mem_data_lookup _ _ _ Hnew). simpl.
      rewrite Hdata. apply take_ge. lia.
  - intros Hb Hs Hnone. destruct (Hnoblob Hb) as (-> & Hnone' & Hstream).
    rewrite Hs in Hstream. unfold fu_firmware_get_bytes.
    by rewrite Hnone', Hstream, Hnone.
Qed.

Lemma parse_stream_then_get_bytes_witness :
  exists found,
    (fu_firmware_validate_for_offset fu_firmware_class fu_firmware_init ex_stream8 0
       (Z.lor FU_FIRMWARE_PARSE_FLAG_CACHE_BLOB FU_FIRMWARE_PARSE_FLAG_CACHE_STREAM)).1
      = Ok found /\
    0 <= found /\
    priv_streamsz ex_parse_cached.1.2
      = Z.of_nat (length (drop (Z.to_nat found) (st_data ex_stream8))) /\
    (flag_set (Z.lor FU_FIRMWARE_PARSE_FLAG_CACHE_BLOB FU_FIRMWARE_PARSE_FLAG_CACHE_STREAM)
       FU_FIRMWARE_PARSE_FLAG_CACHE_BLOB = true \/
     flag_set (Z.lor FU_FIRMWARE_PARSE_FLAG_CACHE_BLOB FU_FIRMWARE_PARSE_FLAG_CACHE_STREAM)
       FU_FIRMWARE_PARSE_FLAG_CACHE_STREAM = true ->
     exists b m'',
       fu_firmware_get_bytes ex_parse_cached.1.2 ex_parse_cached.2 = (Ok b, m'') /\
       mem_data m'' b = drop (Z.to_nat found) (st_data ex_stream8)) /\
    (flag_set (Z.lor FU_FIRMWARE_PARSE_FLAG_CACHE_BLOB FU_FIRMWARE_PARSE_FLAG_CACHE_STREAM)
       FU_FIRMWARE_PARSE_FLAG_CACHE_BLOB = false ->
     flag_set (Z.lor FU_FIRMWARE_PARSE_FLAG_CACHE_BLOB FU_FIRMWARE_PARSE_FLAG_CACHE_STREAM)
       FU_FIRMWARE_PARSE_FLAG_CACHE_STREAM = false ->
     priv_stream fu_firmware_init = None ->
     fu_firmware_get_bytes ex_parse_cached.1.2 ex_parse_cached.2 =
       (Err (mkGError FWUPD_ERROR_NOT_FOUND "no payload set"), ex_parse_cached.2)).
Proof.
  assert (Hoffset : 0 <= 0) by lia.
  exact (parse_stream_then_get_bytes (fun _ => EmptyString) (fun _ => EmptyString)
           fu_firmware_class fu_firmware_init ex_parse_cached.1.2 ex_stream8 0
           (Z.lor FU_FIRMWARE_PARSE_FLAG_CACHE_BLOB FU_FIRMWARE_PARSE_FLAG_CACHE_STREAM)
           ∅ ex_parse_cached.2 eq_refl eq_refl eq_refl Hoffset eq_refl).
Defined.

(** X18: reading a blob and writing it out again. After a successful
    [fu_firmware_parse_bytes] with the cache-blob flag, by a class without
    tokenize and parse hook, of an object without buffer and patches,
    [fu_firmware_write] of a class without write hook returns the bytes of
    the blob from the offset on that the validation settled on; the store is
    as the parse left it. *)
Theorem parse_bytes_then_write g_format_size g_format_size_full
    (klass : FuFirmwareClass) (self self' : FuFirmwarePrivate) (fw : positive)
    (offset flags : Z) (m m' : mem) :
  klass_tokenize klass = None -> klass_parse klass = None ->
  priv_bytes self = None -> priv_patches self = None -> 0 <= offset ->
  flag_set flags FU_FIRMWARE_PARSE_FLAG_CACHE_BLOB = true ->
  fu_firmware_parse_bytes g_format_size g_format_size_full klass self fw offset flags m
    = (Ok tt, self', m') ->
  exists found r,
    (fu_firmware_validate_for_offset klass self (mkStream (mem_data m fw) true)
       offset flags).1 = Ok found /\
    offset <= found /\
    fu_firmware_write None self' m' = (Ok r, m') /\
    mem_data m' r = drop (Z.to_nat found) (mem_data m fw).
Proof.
  intros Htokenize Hparse Hbytes Hpatches Hoffset Hblob Hdone.
  unfold fu_firmware_parse_bytes in Hdone.
  destruct (parse_stream_kept _ _ _ _ _ _ _ _ _ _ Htokenize Hparse Hbytes Hoffset Hdone)
    as (found & Hfound & Hle & _ & _ & Hp' & _ & Hcached & _).
  destruct (Hcached Hblob) as (blob & Hb' & Hdata & _).
  exists found, blob. split; [done|]. split; [done|]. split.
  - unfold fu_firmware_write. apply get_bytes_with_patches_no_patches; [done|].
    by rewrite Hp'.
  - by apply mem_data_lookup.
Qed.

Lemma parse_bytes_then_write_witness :
  exists found r,
    (fu_firmware_validate_for_offset fu_firmware_class fu_firmware_init
       (mkStream (mem_data ex_patch_mem 1) true) 1 FU_FIRMWARE_PARSE_FLAG_CACHE_BLOB).1
      = Ok found /\
    1 <= found /\
    fu_firmware_write None ex_parse_blob.1.2 ex_parse_blob.2 = (Ok r, ex_parse_blob.2) /\
    mem_data ex_parse_blob.2 r = drop (Z.to_nat found) (mem_data ex_patch_mem 1).
Proof.
  assert (Hoffset : 0 <= 1) by lia.
  exact (parse_bytes_then_write (fun _ => EmptyString) (fun _ => EmptyString)
           fu_firmware_class fu_firmware_init ex_parse_blob.1.2 1 1
           FU_FIRMWARE_PARSE_FLAG_CACHE_BLOB ex_patch_mem ex_parse_blob.2
           eq_refl eq_refl eq_refl eq_refl Hoffset eq_refl eq_refl).
Defined.

(** ** The size of the payload *)

(** X19: for an object whose size was never set and that holds a buffer or
    a stream, not both, the stream size being no more than the stream has:
    when [fu_firmware_get_bytes] succeeds, [fu_firmware_get_size] is the
    number of bytes it returns. *)
Theorem get_size_of_payload (priv : FuFirmwarePrivate) (m m' : mem) (b : positive) :
  priv_size priv = 0 ->
  payload_exclusive priv = true ->
  (forall s, priv_stream priv = Some s ->
     0 <= priv_streamsz priv <= Z.of_nat (length (st_data s))) ->
  fu_firmware_get_bytes priv m = (Ok b, m') ->
  fu_firmware_get_size priv m = g_bytes_get_size m' b.
Proof.
  intros Hsize Hexclusive Hsz. unfold fu_firmware_get_bytes, fu_firmware_get_size.
  rewrite Hsize. simpl. unfold payload_exclusive in Hexclusive.
  destruct (priv_bytes priv) as [bytes|].
  - destruct (priv_stream priv); [done|]. intros [= <- <-].
    by rewrite bool_decide_eq_false_2 by (intros H; by apply H).
  - destruct (priv_stream priv) as [s|]; [|done].
    specialize (Hsz s eq_refl).
    rewrite bool_decide_eq_true_2 by done.
    destruct (priv_streamsz priv =? 0); [done|]. simpl.
    unfold fu_input_stream_read_bytes. destruct (st_seekable s); [|done].
    destruct (g_bytes_new_lookup
                (take (Z.to_nat (priv_streamsz priv)) (drop (Z.to_nat 0) (st_data s))) m)
      as [Hnew _].
    destruct (g_bytes_new _ m) as [blob m1]. simpl in Hnew.
    intros [= <- <-]. unfold g_bytes_get_size.
    rewrite (mem_data_lookup _ _ _ Hnew). rewrite length_take, length_drop. lia.
Qed.

Lemma get_size_of_payload_witness :
  fu_firmware_get_size ex_repatch_priv ex_patch_mem = g_bytes_get_size ex_patch_mem 1.
Proof.
  apply (get_size_of_payload ex_repatch_priv ex_patch_mem ex_patch_mem 1);
    first [reflexivity | intros s Hs; discriminate Hs].
Defined.

(** ** From a buffer to a stream and back *)

(** X20: the payload of an object that was given a buffer (another than it
    had) comes out of [fu_firmware_get_stream] as a stream of the bytes of
    the buffer. Set on an object without buffer with
    [fu_firmware_set_stream], that stream gives the same bytes again through
    [fu_firmware_get_bytes], as long as there is one byte at least: for an
    empty buffer the stream size is 0 and [fu_firmware_get_bytes] fails with
    "stream size unknown". *)
Theorem bytes_to_stream_and_back (priv other : FuFirmwarePrivate) (m : mem) (b : positive) :
  priv_bytes priv <> Some b ->
  priv_bytes other = None ->
  exists s other',
    fu_firmware_get_stream (fu_firmware_set_bytes b priv) m = Ok s /\
    st_data s = mem_data m b /\
    fu_firmware_set_stream (Some s) other = (Ok tt, other') /\
    (mem_data m b <> [] ->
     exists b' m',
       fu_firmware_get_bytes other' m = (Ok b', m') /\
       mem_data m' b' = mem_data m b) /\
    (mem_data m b = [] ->
     fu_firmware_get_bytes other' m =
       (Err (mkGError FWUPD_ERROR_INVALID_DATA "stream size unknown"), m)).
Proof.
  intros Hne Hnone.
  exists (mkStream (mem_data m b) true),
         (with_stream (Some (mkStream (mem_data m b) true))
            (with_streamsz (Z.of_nat (length (mem_data m b))) other)).
  split.
  { unfold fu_firmware_set_bytes, fu_firmware_get_stream.
    by rewrite bool_decide_eq_false_2 by done. }
  split; [done|]. split; [done|].
  unfold fu_firmware_get_bytes. simpl. rewrite Hnone. split.
  - intros Hdata.
    destruct (Z.of_nat (length (mem_data m b)) =? 0) eqn:Hzero.
    { apply Z.eqb_eq in Hzero. destruct (mem_data m b); [done | simpl in Hzero; lia]. }
    unfold fu_input_stream_read_bytes, g_bytes_new, mem_alloc. simpl.
    eexists _, _. split; [reflexivity|]. rewrite mem_data_insert_eq.
    apply take_ge. lia.
  - intros ->. done.
Qed.

Lemma bytes_to_stream_and_back_witness :
  exists s other',
    fu_firmware_get_stream (fu_firmware_set_bytes 1 fu_firmware_init) ex_patch_mem = Ok s /\
    st_data s = mem_data ex_patch_mem 1 /\
    fu_firmware_set_stream (Some s) fu_firmware_init = (Ok tt, other') /\
    (mem_data ex_patch_mem 1 <> [] ->
     exists b' m',
       fu_firmware_get_bytes other' ex_patch_mem = (Ok b', m') /\
       mem_data m' b' = mem_data ex_patch_mem 1) /\
    (mem_data ex_patch_mem 1 = [] ->
     fu_firmware_get_bytes other' ex_patch_mem =
       (Err (mkGError FWUPD_ERROR_INVALID_DATA "stream size unknown"), ex_patch_mem)).
Proof.
  apply (bytes_to_stream_and_back fu_firmware_init fu_firmware_init ex_patch_mem 1);
    [discriminate | reflexivity].
Defined.

(** ** The bounds of a parse *)

(** X21: [fu_firmware_parse_stream] and the sizes, whatever the hooks of
    the class. On an object not yet parsed, a stream that ends at or before
    the offset, an empty one among them, is refused as [NOT_SUPPORTED]
    before any hook runs, the object and the store unchanged. When the parse
    succeeds, the offset that the validation settled on is inside the stream
    and what is left of the stream from there is within the [size_max] of
    the object, when that is set. *)
Theorem parse_stream_bounds g_format_size g_format_size_full
    (klass : FuFirmwareClass) (self : FuFirmwarePrivate) (stream : GInputStream)
    (offset flags : Z) (m : mem) :
  let streamsz := Z.of_nat (length (st_data stream)) in
  (fu_firmware_has_flag self FU_FIRMWARE_FLAG_DONE_PARSE = false ->
   st_seekable stream = true -> streamsz <= offset ->
   fu_firmware_parse_stream g_format_size g_format_size_full klass self stream offset flags m
     = (Err (mkGError FWUPD_ERROR_NOT_SUPPORTED
               ("stream size " +:+ fmt_0x streamsz +:+ " is smaller than offset " +:+
                fmt_0x offset)), self, m)) /\
  (forall self' m',
     fu_firmware_parse_stream g_format_size g_format_size_full klass self stream offset flags m
       = (Ok tt, self', m') ->
     exists found,
       (fu_firmware_validate_for_offset klass self stream offset flags).1 = Ok found /\
       offset <= found < streamsz /\
       (0 < priv_size_max self -> streamsz - found <= priv_size_max self)).
Proof.
  intros streamsz. split.
  - intros Hnew Hseek Hsmall. unfold fu_firmware_parse_stream, fu_input_stream_size.
    rewrite Hnew, Hseek. fold streamsz. by rewrite (proj2 (Z.leb_le _ _) Hsmall).
  - intros self' m'. unfold fu_firmware_parse_stream.
    destruct (fu_firmware_has_flag self _); [done|].
    destruct (fu_input_stream_size stream) as [sz|] eqn:Hsize; [|done].
    destruct (stream_size_seekable _ _ Hsize) as [_ Hsz]. fold streamsz in Hsz. subst sz.
    destruct (streamsz <=? offset) eqn:Hsmall; [done|]. apply Z.leb_gt in Hsmall.
    destruct (fu_firmware_validate_for_offset klass self stream offset flags)
      as [[found|] self1] eqn:Hvalidate; [|done].
    destruct (validate_for_offset_found _ _ _ _ _ _ _ _ Hsize Hsmall Hvalidate)
      as [Hfound _].
    pose proof (validate_for_offset_flags klass self stream offset flags) as [_ Hmax].
    rewrite Hvalidate in Hmax. simpl in Hmax.
    change (priv_streamsz (with_streamsz (streamsz - found) self1)) with (streamsz - found).
    change (priv_size_max (with_streamsz (streamsz - found) self1)) with (priv_size_max self1).
    rewrite Hmax.
    destruct (streamsz - found =? 0); [done|].
    destruct ((0 <? priv_size_max self) && (priv_size_max self <? streamsz - found))
      eqn:Hlarge; [done|].
    intros _. exists found. split; [done|]. split; [done|].
    intros Hset. apply andb_false_iff in Hlarge as [Hlarge | Hlarge].
    + apply Z.ltb_ge in Hlarge. lia.
    + by apply Z.ltb_ge in Hlarge.
Qed.

Lemma parse_stream_bounds_witness :
  exists found,
    (fu_firmware_validate_for_offset fu_firmware_class fu_firmware_init ex_stream8 0
       (Z.lor FU_FIRMWARE_PARSE_FLAG_CACHE_BLOB FU_FIRMWARE_PARSE_FLAG_CACHE_STREAM)).1
      = Ok found /\
    0 <= found < Z.of_nat (length (st_data ex_stream8)) /\
    (0 < priv_size_max fu_firmware_init ->
     Z.of_nat (length (st_data ex_stream8)) - found <= priv_size_max fu_firmware_init).
Proof.
  exact (proj2 (parse_stream_bounds (fun _ => EmptyString) (fun _ => EmptyString)
                  fu_firmware_class fu_firmware_init ex_stream8 0
                  (Z.lor FU_FIRMWARE_PARSE_FLAG_CACHE_BLOB FU_FIRMWARE_PARSE_FLAG_CACHE_STREAM)
                  ∅)
           ex_parse_cached.1.2 ex_parse_cached.2 eq_refl).
Defined.

(** ** Padding raw firmware *)

(** X22: a size that [fu_common_align_up] has aligned to the alignment of
    an object, without overflow, passes the alignment test at the end of the
    parse of raw firmware. *)
Theorem align_up_passes_verify_alignment g_format_size_full
    (priv : FuFirmwarePrivate) (value : Z) :
  0 <= value < 2 ^ 64 ->
  0 <= priv_alignment priv <= 31 ->
  fu_common_align_up value (priv_alignment priv) <> G_MAXSIZE ->
  verify_alignment g_format_size_full priv
    (fu_common_align_up value (priv_alignment priv)) = Ok tt.
Proof.
  intros Hvalue Halignment Hfits. unfold verify_alignment.
  rewrite alignment_size by lia.
  assert (Hpow : 0 < 2 ^ priv_alignment priv) by (apply Z.pow_pos_nonneg; lia).
  replace (fu_common_align_up value (priv_alignment priv) mod 2 ^ priv_alignment priv =? 0)
    with true; [done|].
  symmetry. apply Z.eqb_eq. rewrite align_up_cases in * by done.
  destruct (value mod 2 ^ priv_alignment priv =? 0) eqn:Haligned; [by apply Z.eqb_eq|].
  destruct (value + 2 ^ priv_alignment priv <? 2 ^ 64); [|done].
  replace (value + 2 ^ priv_alignment priv - value mod 2 ^ priv_alignment priv)
    with ((value / 2 ^ priv_alignment priv + 1) * 2 ^ priv_alignment priv).
  - apply Z.mod_mul. lia.
  - rewrite (Z.div_mod value (2 ^ priv_alignment priv)) at 2 by lia. lia.
Qed.

Lemma align_up_passes_verify_alignment_witness :
  verify_alignment (fun _ => EmptyString) ex_raw_aligned4
    (fu_common_align_up 9 (priv_alignment ex_raw_aligned4)) = Ok tt.
Proof.
  apply align_up_passes_verify_alignment;
    [lia | simpl; lia | vm_compute; discriminate].
Defined.

(** ** ACPI tables *)

Section AcpiTableFacts.

Variable fu_struct_acpi_table_parse_stream : GInputStream -> Z -> result FuStructAcpiTable.
Variable fu_input_stream_compute_sum8 : GInputStream -> result Z.
Variable FU_FIRMWARE_PARSE_FLAG_IGNORE_CHECKSUM : Z.

Local Abbreviation acpi_table_parse :=
  (fu_acpi_table_parse fu_struct_acpi_table_parse_stream fu_input_stream_compute_sum8
     FU_FIRMWARE_PARSE_FLAG_IGNORE_CHECKSUM).

(** X23: [fu_acpi_table_parse] succeeds exactly when the header parses, the
    size of the stream is known, the length of the header is no less than
    the header itself and no more than the stream, and the bytes of the
    stream sum to 0 or the caller asked to ignore the checksum. Once the
    header has parsed, the object has the signature as id and the table the
    fields of the header, whether the parse then succeeds or not; the size
    of the object is the length of the header on success, and as it was when
    the length is refused. A header that does not parse leaves everything as
    it was. *)
Theorem acpi_table_parse_header (firmware : FuFirmwarePrivate) (priv : FuAcpiTablePrivate)
    (stream : GInputStream) (flags : Z) :
  let r := acpi_table_parse firmware priv stream flags in
  (is_ok r.1.1 = true <->
   exists st streamsz,
     fu_struct_acpi_table_parse_stream stream 0 = Ok st /\
     fu_input_stream_size stream = Ok streamsz /\
     struct_len st <= struct_length st <= streamsz /\
     (Z.land flags FU_FIRMWARE_PARSE_FLAG_IGNORE_CHECKSUM <> 0 \/
      fu_input_stream_compute_sum8 stream = Ok 0)) /\
  (forall st,
     fu_struct_acpi_table_parse_stream stream 0 = Ok st ->
     priv_id r.1.2 = struct_signature st /\
     r.2 = mkAcpiPriv (struct_revision st) (struct_oem_id st) (struct_oem_table_id st)
             (struct_oem_revision st) /\
     (is_ok r.1.1 = true -> priv_size r.1.2 = struct_length st) /\
     (forall streamsz,
        fu_input_stream_size stream = Ok streamsz ->
        streamsz < struct_length st \/ struct_length st < struct_len st ->
        r.1.1 = Err (mkGError FWUPD_ERROR_INVALID_DATA
                       ("table length not valid: got " +:+ fmt_0x streamsz +:+
                        " but expected " +:+ fmt_0x (struct_length st))) /\
        priv_size r.1.2 = priv_size firmware)) /\
  (forall e,
     fu_struct_acpi_table_parse_stream stream 0 = Err e ->
     r = (Err e, firmware, priv)).
Proof.
  cbv zeta. unfold fu_acpi_table_parse.
  destruct (fu_struct_acpi_table_parse_stream stream 0) as [st|e0] eqn:Hst.
  2:{ split; [|split]; [|done|by intros e [= <-]].
      split; [done|]. by intros (st & streamsz & Hno & _). }
  set (firmware1 := if g_strcmp0 (priv_id firmware) (struct_signature st) =? 0
                    then firmware else with_id (struct_signature st) firmware).
  assert (Hid : priv_id firmware1 = struct_signature st).
  { subst firmware1. rewrite g_strcmp0_eq. by case_bool_decide. }
  assert (Hsize1 : priv_size firmware1 = priv_size firmware).
  { subst firmware1. by destruct (_ =? 0). }
  destruct (fu_input_stream_size stream) as [streamsz|e1] eqn:Hsize.
  2:{ split; [|split]; [| |done].
      - split; [done|]. by intros (st' & streamsz & _ & Hno & _).
      - intros st' [= <-]. split; [done|]. split; [done|]. split; [done|]. done. }
  destruct ((streamsz <? struct_length st) || (struct_length st <? struct_len st))
    eqn:Hlength.
  { apply orb_true_iff in Hlength.
    split; [|split]; [| |done].
    - split; [done|]. intros (st' & streamsz' & [= <-] & [= <-] & Hrange & _).
      destruct Hlength as [H%Z.ltb_lt | H%Z.ltb_lt]; lia.
    - intros st' [= <-]. split; [done|]. split; [done|]. split; [done|].
      intros streamsz' [= <-] _. done. }
  apply orb_false_iff in Hlength as [Hle1%Z.ltb_ge Hle2%Z.ltb_ge].
  destruct (Z.land flags FU_FIRMWARE_PARSE_FLAG_IGNORE_CHECKSUM =? 0) eqn:Hignore.
  2:{ apply Z.eqb_neq in Hignore. split; [|split]; [| |done].
      - split; [|done]. intros _. exists st, streamsz. split; [done|]. split; [done|].
        split; [lia|]. by left.
      - intros st' [= <-]. split; [done|]. split; [done|]. split; [done|].
        intros streamsz' [= <-] Hbad. lia. }
  apply Z.eqb_eq in Hignore.
  destruct (fu_input_stream_compute_sum8 stream) as [checksum_actual|e2] eqn:Hsum.
  2:{ split; [|split]; [| |done].
      - split; [done|]. intros (st' & streamsz' & _ & _ & _ & [Hno | Hno]); done.
      - intros st' [= <-]. split; [done|]. split; [done|]. split; [done|].
        intros streamsz' [= <-] Hbad. lia. }
  destruct (checksum_actual =? 0) eqn:Hzero; simpl.
  - apply Z.eqb_eq in Hzero. subst checksum_actual. split; [|split]; [| |done].
    + split; [|done]. intros _. exists st, streamsz. split; [done|]. split; [done|].
      split; [lia|]. by right.
    + intros st' [= <-]. split; [done|]. split; [done|]. split; [done|].
      intros streamsz' [= <-] Hbad. lia.
  - apply Z.eqb_neq in Hzero. split; [|split]; [| |done].
    + split; [done|]. intros (st' & streamsz' & _ & _ & _ & [Hno | [= Hno]]); done.
    + intros st' [= <-]. split; [done|]. split; [done|]. split; [done|].
      intros streamsz' [= <-] Hbad. lia.
Qed.

End AcpiTableFacts.

Lemma acpi_table_parse_header_witness :
  priv_size (fu_acpi_table_parse
               (fun _ _ => Ok (mkStructAcpiTable (Some "FACP"%string) 8 1 0 None None 0 4))
               (fun _ => Ok 0) 64
               fu_firmware_init (mkAcpiPriv 0 None None 0) ex_stream8 0).1.2 = 8.
Proof.
  pose proof (acpi_table_parse_header
                (fun _ _ => Ok (mkStructAcpiTable (Some "FACP"%string) 8 1 0 None None 0 4))
                (fun _ => Ok 0) 64
                fu_firmware_init (mkAcpiPriv 0 None None 0) ex_stream8 0) as (_ & Hheader & _).
  exact (proj1 (proj2 (proj2 (Hheader _ eq_refl))) eq_refl).
Defined.

(** ** XML nodes with a number *)

(** X24: [fu_xmlb_builder_insert_kx] adds nothing for 0 and else a node
    with the low 32 bits of the value in hexadecimal: values that differ by a
    multiple of 2^32 get the same text, and a multiple of 2^32 other than 0
    gets the text [0x0]. *)
Theorem xmlb_builder_insert_kx_low_bits (bn : XbBuilderNode) (key : string)
    (value k : Z) :
  fu_xmlb_builder_insert_kx bn key 0 = bn /\
  (value <> 0 -> value + k * 2 ^ 32 <> 0 ->
   fu_xmlb_builder_insert_kx bn key (value + k * 2 ^ 32) =
   fu_xmlb_builder_insert_kx bn key value) /\
  (k <> 0 -> fu_xmlb_builder_insert_kx bn key (k * 2 ^ 32) = bn ++ [(key, "0x0"%string)]).
Proof.
  unfold fu_xmlb_builder_insert_kx, xb_builder_node_insert_text, fmt_0x, to_guint.
  split; [done|]. split.
  - intros Hvalue Hsum.
    rewrite (proj2 (Z.eqb_neq _ _) Hvalue), (proj2 (Z.eqb_neq _ _) Hsum).
    by rewrite Z.mod_add by lia.
  - intros Hk. rewrite (proj2 (Z.eqb_neq (k * 2 ^ 32) 0)) by lia.
    by rewrite Z.mod_mul by lia.
Qed.

Lemma xmlb_builder_insert_kx_low_bits_witness :
  fu_xmlb_builder_insert_kx [] "size" (2 * 2 ^ 32) = [] ++ [("size"%string, "0x0"%string)].
Proof.
  apply (proj2 (proj2 (xmlb_builder_insert_kx_low_bits [] "size" 0 2))). lia.
Defined.

(** ** The SPI transfer of the CH341A *)

Lemma reverse_uint8_involutive (value : Z) :
  0 <= value < 256 ->
  fu_ch341a_device_reverse_uint8 (fu_ch341a_device_reverse_uint8 value) = value.
Proof.
  intros Hv.
  assert (Hall : forallb (fun v => fu_ch341a_device_reverse_uint8
                                     (fu_ch341a_device_reverse_uint8 v) =? v)
                   (map Z.of_nat (seq 0 256)) = true) by (vm_compute; reflexivity).
  rewrite forallb_forall in Hall. apply Z.eqb_eq, Hall.
  apply in_map_iff. exists (Z.to_nat value). split; [lia|]. apply in_seq. lia.
Qed.

Section Ch341aFacts.

Variable Device : Type.
Variable fu_usb_device_bulk_transfer :
  Device -> Z -> list Z -> result Z * list Z * Device.
Variable FU_CH341A_CMD_SPI_STREAM : Z.

Local Abbreviation spi_transfer :=
  (fu_ch341a_device_spi_transfer Device fu_usb_device_bulk_transfer FU_CH341A_CMD_SPI_STREAM).

(** X25: [fu_ch341a_device_spi_transfer] sends the command byte followed
    by the bytes of the buffer, each with its bits reversed, and on success
    leaves in the buffer the bytes the device returned, each with its bits
    reversed: so the buffer is as it was when the device returns the bytes it
    was sent. When the write fails nothing is read and the buffer is as it
    was. *)
Theorem spi_transfer_reverses (self : Device) (buf : list Z) :
  let wire := FU_CH341A_CMD_SPI_STREAM :: map fu_ch341a_device_reverse_uint8 buf in
  (forall buf' self',
     spi_transfer self buf = (Ok tt, buf', self') ->
     exists sent self1 raw,
       fu_usb_device_bulk_transfer self CH341A_EP_OUT wire =
         (Ok (Z.of_nat (length buf) + 1), sent, self1) /\
       fu_usb_device_bulk_transfer self1 CH341A_EP_IN buf =
         (Ok (Z.of_nat (length buf)), raw, self') /\
       buf' = map fu_ch341a_device_reverse_uint8 raw /\
       (Forall (fun v => 0 <= v < 256) buf ->
        raw = map fu_ch341a_device_reverse_uint8 buf -> buf' = buf)) /\
  (forall e sent self1,
     fu_usb_device_bulk_transfer self CH341A_EP_OUT wire = (Err e, sent, self1) ->
     spi_transfer self buf =
       (Err (g_prefix_error
               ("failed to write " +:+ fmt_0x (Z.of_nat (length buf) + 1) +:+ " bytes: ") e),
        buf, self1)).
Proof.
  intros wire.
  assert (Hlen : Z.of_nat (length wire) = Z.of_nat (length buf) + 1).
  { subst wire. simpl. rewrite length_map. lia. }
  unfold fu_ch341a_device_spi_transfer, fu_ch341a_device_write, fu_ch341a_device_read.
  fold wire. rewrite Hlen. split.
  - intros buf' self'.
    destruct (fu_usb_device_bulk_transfer self CH341A_EP_OUT wire)
      as [[[actual|e] sent] self1]; [|done].
    destruct (Z.of_nat (length buf) + 1 =? actual) eqn:Hactual; [|done].
    apply Z.eqb_eq in Hactual. subst actual. simpl.
    destruct (fu_usb_device_bulk_transfer self1 CH341A_EP_IN buf)
      as [[[actual|e] raw] self2] eqn:Hin; [|done].
    destruct (Z.of_nat (length buf) =? actual) eqn:Hactual; [|done].
    apply Z.eqb_eq in Hactual. subst actual. simpl.
    intros [= <- <-]. exists sent, self1, raw. split; [done|]. split; [done|].
    split; [done|]. intros Hbytes ->. rewrite map_map.
    rewrite <- (map_id buf) at 2. apply map_ext_Forall.
    eapply Forall_impl; [exact Hbytes|]. intros v Hv. by apply reverse_uint8_involutive.
  - intros e sent self1 ->. done.
Qed.

End Ch341aFacts.

Lemma spi_transfer_reverses_witness :
  exists sent self1 raw,
    ex_loopback [] CH341A_EP_OUT (0xA8 :: map fu_ch341a_device_reverse_uint8 [0x9F; 0x01]) =
      (Ok (Z.of_nat (length [0x9F; 0x01]) + 1), sent, self1) /\
    ex_loopback self1 CH341A_EP_IN [0x9F; 0x01] =
      (Ok (Z.of_nat (length [0x9F; 0x01])), raw, []) /\
    [0x9F; 0x01] = map fu_ch341a_device_reverse_uint8 raw /\
    (Forall (fun v => 0 <= v < 256) [0x9F; 0x01] ->
     raw = map fu_ch341a_device_reverse_uint8 [0x9F; 0x01] -> [0x9F; 0x01] = [0x9F; 0x01]).
Proof.
  exact (proj1 (spi_transfer_reverses (list Z) ex_loopback 0xA8 [] [0x9F; 0x01])
           [0x9F; 0x01] [] eq_refl).
Defined.
